(** * The daily-lesson generator: catalog, selector, pipeline, history store

    A shallow embedding of [util.mjs] and of the lesson generator built
    on it (topic flattening, candidate selection, the four-stage
    generation pipeline, the rolling archive and the [main] entry
    point), followed by the properties the specification states about
    them and by further properties of the same code: the helpers of
    [util.mjs] ([loadDotEnv], [readJSON], [writeJSON], [i18nPick],
    [slugify], [uniqueBy]) and the parts of the generator that [main]
    does not reach ([scoreCandidate], [fallbackCandidate]).  The source
    file holds a second program, the web search proxy; its result
    normalizer ([normalizeBraveResults], [cleanSnippet], [clampNumber])
    is embedded as well.

    Conventions.
    - A JavaScript string is a [string]: the UTF-8 bytes of its text.
      Where the script counts characters ([slice(0, 7)] of a date) the
      model counts UTF-16 code units, as JavaScript does; the lone
      surrogate that such a cut can leave is written in three bytes, in
      the form of generalized UTF-8.
    - Numbers are IEEE doubles ([float]): the order fields of the topic
      catalog and the order computed from them, and the numbers inside a
      model response.  Two kinds of number are integers in [Z]: the
      times of dates in milliseconds, and the difficulty of a category.
    - A property that may be missing is an [option]; an exception is the
      [Throw] branch of [result].
    - Built-ins whose behaviour the script does not fix ([JSON.parse],
      [Date] parsing, [localeCompare], [path.join], the naming of files
      by paths, the model backend) are section variables, so every
      statement holds for any behaviour of theirs. *)

From Stdlib Require Import ZArith List String Ascii Bool Lia Permutation Sorted Floats.
From stdpp Require Import base option list strings gmap.

Open Scope string_scope.
Open Scope list_scope.
Open Scope Z_scope.

(** ** Exceptions *)

Inductive exn :=
| TypeError      (* property access on null/undefined, call of a non-function *)
| SyntaxError    (* JSON.parse *)
| MissingKey     (* new Error("Missing LLM_API_KEY") *)
| ApiError.      (* fetch failed, non-OK status, malformed body *)

Inductive result (A : Type) :=
| Ok (a : A)
| Throw (e : exn).

Arguments Ok {A} a.
Arguments Throw {A} e.

Definition rbind {A B} (r : result A) (k : A → result B) : result B :=
  match r with
  | Ok a => k a
  | Throw e => Throw e
  end.

Definition is_ok {A} (r : result A) : bool :=
  match r with Ok _ => true | Throw _ => false end.

(** ** Strings *)

Definition is_digit (c : ascii) : bool :=
  (48 <=? nat_of_ascii c)%nat && (nat_of_ascii c <=? 57)%nat.

Definition is_empty (s : string) : bool :=
  match s with "" => true | String _ _ => false end.

(** The longest prefix of digits, and what follows it. *)
Fixpoint span_digits (s : string) : string * string :=
  match s with
  | "" => ("", "")
  | String c r =>
      if is_digit c
      then let '(ds, rest) := span_digits r in (String c ds, rest)
      else ("", s)
  end.

(** [s.match(/\d+/)]: the leftmost maximal run of digits. *)
Fixpoint match_digits (s : string) : option string :=
  match s with
  | "" => None
  | String c r =>
      if is_digit c then Some (fst (span_digits s)) else match_digits r
  end.

(** The number a string of decimal digits denotes. *)
Definition digits_value (ds : string) : Z :=
  fold_left (fun acc c => 10 * acc + (Z.of_nat (nat_of_ascii c) - 48))
            (list_ascii_of_string ds) 0.

(** [s.startsWith(p)], returning the rest of [s]. *)
Fixpoint strip_prefix (p s : string) : option string :=
  match p, s with
  | "", _ => Some s
  | String a p', String b s' => if Ascii.eqb a b then strip_prefix p' s' else None
  | String _ _, "" => None
  end.

(** The first occurrence of [p] in [s]: the text before it and after it. *)
Fixpoint cut_at (p s : string) : option (string * string) :=
  match strip_prefix p s with
  | Some rest => Some ("", rest)
  | None =>
      match s with
      | "" => None
      | String c s' =>
          match cut_at p s' with
          | Some (before, after) => Some (String c before, after)
          | None => None
          end
      end
  end.

(** ** [Array.prototype.sort]

    The sort is stable and, for a comparator that is consistent on the
    elements of the array, its result is fixed by the language: the
    stable ascending arrangement.  The model is insertion from the right,
    which yields that arrangement.  The sort reads the sign of what the
    comparator returns, [NaN] counting as [0]; the comparators below
    return that sign.  For an inconsistent comparator the language leaves
    the order to the engine, and the model is not meant to follow the
    engine there: every statement about the place of an element in
    sorted output assumes consistency. *)

Section JsSort.
Context {A : Type} (cmp : A → A → Z).

Fixpoint js_insert (x : A) (l : list A) : list A :=
  match l with
  | [] => [x]
  | y :: l' => if cmp x y <=? 0 then x :: l else y :: js_insert x l'
  end.

Fixpoint js_sort (l : list A) : list A :=
  match l with
  | [] => []
  | x :: l' => js_insert x (js_sort l')
  end.

(** A comparator is consistent when "not after" is total and transitive. *)
Definition consistent : Prop :=
  (∀ a b, cmp a b ≤ 0 ∨ cmp b a ≤ 0) ∧
  (∀ a b c, cmp a b ≤ 0 → cmp b c ≤ 0 → cmp a c ≤ 0).

(** The same on the elements of one list, which is all the sort of that
    list asks for. *)
Definition consistent_on (l : list A) : Prop :=
  (∀ a b, a ∈ l → b ∈ l → cmp a b ≤ 0 ∨ cmp b a ≤ 0) ∧
  (∀ a b c, a ∈ l → b ∈ l → c ∈ l →
     cmp a b ≤ 0 → cmp b c ≤ 0 → cmp a c ≤ 0).

Definition not_after (a b : A) : Prop := cmp a b ≤ 0.

(** The elements of [l] that no element of [l] precedes. *)
Definition least_in (l : list A) (x : A) : bool :=
  forallb (fun y => cmp x y <=? 0) l.

End JsSort.

(** ** Topic catalog: [flattenTopics] *)

Module Catalog.

(** The catalog file: levels, their categories, their topics.  A field
    the loop tests for presence, or defaults with [||], is optional.  The
    name of a level is [None] also when it is not a string: [match] is
    then not a function. *)
Record topic := {
  t_topic : string;
  t_related_topics : option (list string);
  t_order : option float
}.

Record category := {
  c_category : string;
  c_difficulty : option Z;
  c_recommended_order : option float;
  c_topics : option (list topic)
}.

Record level := {
  l_level : option string;
  l_categories : option (list category)
}.

Record candidate := {
  cand_id : string;
  cand_title : string;
  cand_level : string;
  cand_category : string;
  cand_difficulty : option Z;
  cand_related : list string;
  cand_order : float
}.

(** The double nearest to an integer, ties going to the even mantissa:
    the number JavaScript reads from a run of decimal digits.  (Past
    twenty significant digits the language lets an engine round a little
    differently; the engines in use round exactly.) *)
Definition Z_number (z : Z) : float :=
  SF2Prim (binary_normalize prec emax z 0 false).

(** [(level.level.match(/\d+/) || [0])[0]], as the number the
    multiplication makes of it. *)
Definition level_number (name : string) : float :=
  match match_digits name with
  | Some ds => Z_number (digits_value ds)
  | None => 0%float
  end.

(** [x || 0] for a number that may be missing: [0] and [NaN] are falsy. *)
Definition or_zero (x : option float) : float :=
  match x with
  | Some v => if PrimFloat.is_zero v || PrimFloat.is_nan v then 0%float else v
  | None => 0%float
  end.

(** The object literal pushed for one topic of a level named [name]; the
    order is computed in double arithmetic, as written. *)
Definition pushed (name : string) (cat : category) (tp : topic) : candidate :=
  {| cand_id := t_topic tp;
     cand_title := t_topic tp;
     cand_level := name;
     cand_category := c_category cat;
     cand_difficulty := c_difficulty cat;
     cand_related := default [] (t_related_topics tp);
     cand_order := (level_number name * 1000
                    + or_zero (c_recommended_order cat) * 100
                    + or_zero (t_order tp))%float |}.

(** [items.push({...})]; [level.level.match] throws when the level has no
    name. *)
Definition push_topic (lv : level) (cat : category) (tp : topic)
    (items : list candidate) : result (list candidate) :=
  match l_level lv with
  | None => Throw TypeError
  | Some name => Ok (items ++ [pushed name cat tp])
  end.

Fixpoint for_topics (lv : level) (cat : category) (tps : list topic)
    (items : list candidate) : result (list candidate) :=
  match tps with
  | [] => Ok items
  | tp :: rest => rbind (push_topic lv cat tp items) (for_topics lv cat rest)
  end.

Fixpoint for_categories (lv : level) (cats : list category)
    (items : list candidate) : result (list candidate) :=
  match cats with
  | [] => Ok items
  | cat :: rest =>
      match c_topics cat with
      | None => for_categories lv rest items
      | Some tps => rbind (for_topics lv cat tps items) (for_categories lv rest)
      end
  end.

Fixpoint for_levels (levels : list level) (items : list candidate)
    : result (list candidate) :=
  match levels with
  | [] => Ok items
  | lv :: rest =>
      match l_categories lv with
      | None => for_levels rest items
      | Some cats => rbind (for_categories lv cats items) (for_levels rest)
      end
  end.

(** What the sort reads off a comparator result [v]: negative, positive,
    or neither, [NaN] counting as [0]. *)
Definition sign_of (v : float) : Z :=
  if (v <? 0)%float then -1 else if (0 <? v)%float then 1 else 0.

(** [(a, b) => a.order - b.order]. *)
Definition by_order (a b : candidate) : Z :=
  sign_of (cand_order a - cand_order b).

Definition flattenTopics (levels : list level) : result (list candidate) :=
  rbind (for_levels levels []) (fun items => Ok (js_sort by_order items)).

(** The nested traversal the specification speaks of: every topic with
    its category and its level, levels first, then categories, then
    topics. *)
Definition nested_topics (levels : list level) : list (level * category * topic) :=
  flat_map (fun lv =>
    flat_map (fun cat =>
      map (fun tp => (lv, cat, tp)) (default [] (c_topics cat)))
      (default [] (l_categories lv)))
    levels.

(** The topics of some categories of one level. *)
Definition topics_of_categories (lv : level) (cats : list category)
    : list (level * category * topic) :=
  flat_map (fun cat => map (fun tp => (lv, cat, tp)) (default [] (c_topics cat)))
    cats.

(** The order key the specification gives a topic, in doubles. *)
Definition order_key (x : level * category * topic) : float :=
  let '(lv, cat, tp) := x in
  (level_number (default "" (l_level lv)) * 1000
   + or_zero (c_recommended_order cat) * 100
   + or_zero (t_order tp))%float.

(** The text has no digit. *)
Definition digit_free (s : string) : bool :=
  forallb (fun c => negb (is_digit c)) (list_ascii_of_string s).

(** The text does not begin with a digit. *)
Definition no_digit_ahead (s : string) : bool :=
  match s with
  | String c _ => negb (is_digit c)
  | "" => true
  end.

Definition candidate_of (x : level * category * topic) : candidate :=
  let '(lv, cat, tp) := x in pushed (default "" (l_level lv)) cat tp.

Definition has_name (x : level * category * topic) : Prop :=
  is_Some (l_level (fst (fst x))).

End Catalog.

Export Catalog.

(** ** Values decoded from a model response *)

#[warnings="-register-all"]
Inductive json :=
| JNull
| JBool (b : bool)
| JNum (n : float)
| JStr (s : string)
| JArr (items : list json)
| JObj (fields : list (string * json)).

(** The own property [name] of an object, as a list of its properties. *)
Fixpoint assoc (name : string) (fields : list (string * json)) : option json :=
  match fields with
  | [] => None
  | (k, v) :: rest => if String.eqb k name then Some v else assoc name rest
  end.

(** [v.name] for the property names this program reads (none of them is
    [length], an index or a prototype member): reading from [null]
    throws, from an object finds the property, from anything else yields
    [undefined]. *)
Definition get (name : string) (v : json) : result (option json) :=
  match v with
  | JNull => Throw TypeError
  | JObj fields => Ok (assoc name fields)
  | _ => Ok None
  end.

(** [Boolean(v)]. *)
Definition truthy (v : json) : bool :=
  match v with
  | JNull => false
  | JBool b => b
  | JNum n => negb (PrimFloat.is_zero n || PrimFloat.is_nan n)
  | JStr s => negb (is_empty s)
  | JArr _ | JObj _ => true
  end.

(** [x || d] for a property [x] that may be [undefined]. *)
Definition or_else (x : option json) (d : json) : json :=
  match x with
  | Some v => if truthy v then v else d
  | None => d
  end.

(** [ToPrimitive(v)], which a comparison, an arithmetic operator or a
    template literal applies to [v], goes through: it throws for an
    object that has a property [toString] of its own (decoded from JSON,
    the property is not a function, and [valueOf] answers the object
    itself), and for an array that holds such an object, since the
    text of an array is that of its elements joined. *)
Fixpoint converts (v : json) : bool :=
  match v with
  | JArr items => forallb converts items
  | JObj fields =>
      match assoc "toString" fields with
      | Some _ => false
      | None => true
      end
  | _ => true
  end.

(** The same for a property that may be [undefined]. *)
Definition opt_converts (v : option json) : bool :=
  match v with
  | Some x => converts x
  | None => true
  end.

(** ** Lesson records (history entries) *)

Record practice := { p_title : json; p_steps : list json }.

Record source := { s_title : json; s_url : option json }.

Record meta := {
  m_id : string;
  m_category : string;
  m_difficulty : option Z;
  m_level : string;
  m_related : list string;
  m_tags : list string
}.

(** An entry of the history file.  [e_date] and [e_meta] are [None] when
    the entry has no [date], no [meta]. *)
Record entry := {
  e_id : string;
  e_date : option string;
  e_topic : json;
  e_summary : json;
  e_key_points : json;
  e_practice : list practice;
  e_risk_notes : json;
  e_sources : list source;
  e_meta : option meta
}.

(** ** White space, [trim], and the step splitter *)

(** The UTF-8 encodings of the characters [\s] and [trim] remove:
    U+0009-000D, U+0020, U+00A0, U+1680, U+2000-200A, U+2028, U+2029,
    U+202F, U+205F, U+3000, U+FEFF. *)
Definition space_codes : list (list nat) :=
  [ [9]; [10]; [11]; [12]; [13]; [32]; [194; 160]; [225; 154; 128];
    [226; 128; 128]; [226; 128; 129]; [226; 128; 130]; [226; 128; 131];
    [226; 128; 132]; [226; 128; 133]; [226; 128; 134]; [226; 128; 135];
    [226; 128; 136]; [226; 128; 137]; [226; 128; 138];
    [226; 128; 168]; [226; 128; 169]; [226; 128; 175]; [226; 129; 159];
    [227; 128; 128]; [239; 187; 191] ]%nat.

Definition of_codes (codes : list nat) : string :=
  string_of_list_ascii (map ascii_of_nat codes).

(** The rest of [s] after the first of [ps] that is a prefix of it. *)
Fixpoint strip_any (ps : list string) (s : string) : option string :=
  match ps with
  | [] => None
  | p :: ps' =>
      match strip_prefix p s with
      | Some rest => Some rest
      | None => strip_any ps' s
      end
  end.

(** One white-space character at the head of [s]. *)
Definition strip_space (s : string) : option string :=
  strip_any (map of_codes space_codes) s.

Fixpoint skip_spaces_in (fuel : nat) (s : string) : string :=
  match fuel with
  | O => s
  | S fuel' =>
      match strip_space s with
      | Some rest => skip_spaces_in fuel' rest
      | None => s
      end
  end.

(** [\s*] at the head of [s]: what is left after it. *)
Definition skip_spaces (s : string) : string :=
  skip_spaces_in (String.length s) s.

(** [s] is white space only. *)
Definition all_spaces (s : string) : bool := is_empty (skip_spaces s).

Fixpoint trim_end (s : string) : string :=
  match s with
  | "" => ""
  | String c r => if all_spaces s then "" else String c (trim_end r)
  end.

(** [s.trim()]. *)
Definition trim (s : string) : string := trim_end (skip_spaces s).

Definition LF : ascii := ascii_of_nat 10.
Definition CR : ascii := ascii_of_nat 13.

Definition starts_with_lf (s : string) : bool :=
  match s with
  | String c _ => Ascii.eqb c LF
  | "" => false
  end.

(** [s.split(/\r?\n+/)].  Read from the right: a line feed that another
    line feed follows, or a carriage return that a line feed follows,
    belongs to the separator that starts the split of the rest; any other
    line feed is a separator of its own; any other character joins the
    first piece of the rest. *)
Fixpoint split_lines (s : string) : list string :=
  match s with
  | "" => [""]
  | String c r =>
      let pieces := split_lines r in
      if Ascii.eqb c LF then
        if starts_with_lf r then pieces else "" :: pieces
      else if Ascii.eqb c CR && starts_with_lf r then pieces
      else
        match pieces with
        | p :: ps => String c p :: ps
        | [] => [String c ""]
        end
  end.

(** The bullet markers [-], [*] and U+2022. *)
Definition bullet_marks : list string :=
  [ "-"; "*"; of_codes [226; 128; 162]%nat ].

(** [line.replace(/^\s*(?:\d+\.|[-*•])\s*/, "")]. *)
Definition strip_marker (line : string) : string :=
  let s := skip_spaces line in
  let after :=
    match span_digits s with
    | (String _ _, rest) =>
        match strip_prefix "." rest with
        | Some rest' => Some rest'
        | None => strip_any bullet_marks s
        end
    | ("", _) => strip_any bullet_marks s
    end in
  match after with
  | Some rest => skip_spaces rest
  | None => line
  end.

(** The chain [.split(..).map(..).filter(Boolean).slice(0, 6)]. *)
Definition split_steps (text : string) : list string :=
  take 6
    (List.filter (fun l => negb (is_empty l))
       (map (fun line => trim (strip_marker line)) (split_lines text))).

(** [splitSteps(text)]: [text.split] is not a function unless [text] is a
    string. *)
Definition splitSteps (text : json) : result (list json) :=
  if negb (truthy text) then Ok []
  else
    match text with
    | JStr s => Ok (map JStr (split_steps s))
    | _ => Throw TypeError
    end.

Fixpoint map_result {A B} (f : A → result B) (l : list A) : result (list B) :=
  match l with
  | [] => Ok []
  | x :: rest =>
      rbind (f x) (fun y => rbind (map_result f rest) (fun ys => Ok (y :: ys)))
  end.

Definition normalizePractice_item (item : json) : result practice :=
  match item with
  | JStr s => Ok {| p_title := JStr s; p_steps := [] |}
  | _ =>
      rbind (get "title" item) (fun title =>
      rbind (get "steps" item) (fun steps =>
      rbind (match steps with
             | Some (JArr xs) => Ok xs
             | _ => splitSteps (or_else steps (JStr ""))
             end) (fun steps' =>
      Ok {| p_title := or_else title (JStr ""); p_steps := steps' |})))
  end.

Definition normalizePractice (raw : option json) : result (list practice) :=
  match raw with
  | Some (JArr items) => map_result normalizePractice_item items
  | _ => Ok []
  end.

Definition normalizeSources_item (entry : json) : result source :=
  rbind (get "title" entry) (fun title =>
  rbind (get "url" entry) (fun url =>
  Ok {| s_title := or_else title (JStr "Source"); s_url := url |})).

Definition normalizeSources (raw : option json) : result (list source) :=
  match raw with
  | Some (JArr items) =>
      rbind (map_result normalizeSources_item items) (fun l => Ok (take 6 l))
  | _ => Ok []
  end.

(** *** Notions the statements about the normalizers use *)

(** The text has a line feed. *)
Fixpoint has_lf (s : string) : bool :=
  match s with
  | "" => false
  | String c r => Ascii.eqb c LF || has_lf r
  end.

(** [v.name] for a value that is not [null]. *)
Definition field (name : string) (v : json) : option json :=
  match v with
  | JObj fields => assoc name fields
  | _ => None
  end.

(** The practice entries [normalizePractice] maps without throwing: any
    value but [null] whose [steps] is missing, falsy, a string or a
    list. *)
Definition accepted_practice (item : json) : bool :=
  match item with
  | JNull => false
  | _ =>
      match field "steps" item with
      | Some (JNum n) => negb (truthy (JNum n))
      | Some (JBool b) => negb b
      | Some (JObj _) => false
      | _ => true
      end
  end.

(** What a practice entry is mapped to. *)
Definition practice_of (item : json) : practice :=
  match item with
  | JStr s => {| p_title := JStr s; p_steps := [] |}
  | _ =>
      {| p_title := or_else (field "title" item) (JStr "");
         p_steps :=
           match field "steps" item with
           | Some (JArr xs) => xs
           | Some (JStr text) => map JStr (split_steps text)
           | _ => []
           end |}
  end.

(** What a sources entry is mapped to. *)
Definition source_of (entry : json) : source :=
  {| s_title := or_else (field "title" entry) (JStr "Source");
     s_url := field "url" entry |}.

(** ** The program *)

(** What a prompt is built from: each [build...Prompt] is a function of
    these arguments only. *)
Inductive prompt :=
| BlueprintPrompt (c : candidate)
| DraftPrompt (c : candidate) (blueprint : json)
| CritiquePrompt (draft : json)
| RevisePrompt (draft critique : json).

(** [process.env], as far as [callLLM] reads the credential. *)
Record environment := {
  LLM_API_KEY : option string;
  DEEPSEEK_API_KEY : option string
}.

(** What a run reads: the command line ([--dry-run]), the environment as
    it is once [loadDotEnv] has run, the clock ([today()]) and the
    catalog file. *)
Record config := {
  dryRun : bool;
  env : environment;
  todayStr : string;
  topicsRaw : list level
}.

(** What a run changes: the requests sent to the backend, the delays
    slept, the live history file, the archive files by file (the history
    file is not one of them: no year-month of seven characters names it
    from the archive directory), and the number of identifiers drawn. *)
Record world := {
  requests : list prompt;
  slept : list Z;
  daily : list entry;
  archive : gmap string (list entry);
  drawn : nat
}.

(** A computation that may throw and may change the world. *)
Definition M (A : Type) : Type := world → result A * world.

Definition ret {A} (a : A) : M A := fun w => (Ok a, w).

Definition throw {A} (e : exn) : M A := fun w => (Throw e, w).

Definition bind {A B} (m : M A) (k : A → M B) : M B :=
  fun w =>
    match m w with
    | (Ok a, w') => k a w'
    | (Throw e, w') => (Throw e, w')
    end.

Definition lift {A} (r : result A) : M A := fun w => (r, w).

Notation "x <- m ;; k" := (bind m (fun x => k))
  (at level 100, m at next level, right associativity).

Definition backoff (attempt : Z) : Z := if attempt =? 0 then 2000 else 5000.

Definition maxRetries (dry : bool) : Z := if dry then 0 else 2.

Definition DIFFICULTY_LABELS (n : Z) : string :=
  if n =? 1 then "入门"
  else if n =? 2 then "基础"
  else if n =? 3 then "进阶"
  else if n =? 4 then "高级"
  else if n =? 5 then "专家"
  else "".

Definition mapDifficultyLabel (value : option Z) : string :=
  match value with
  | None => ""
  | Some v => DIFFICULTY_LABELS (Z.max 1 (Z.min 5 v))
  end.

(** ** Concrete built-ins for the examples

    The statements below hold for every behaviour of the built-ins.  The
    examples need particular ones: each function here answers what the
    built-in answers on the texts the examples give it. *)

(** Days from 1970-01-01 to a date of the proleptic Gregorian calendar. *)
Definition days_from_civil (y m d : Z) : Z :=
  let y' := if m <=? 2 then y - 1 else y in
  let era := y' / 400 in
  let yoe := y' - era * 400 in
  let mp := (m + 9) mod 12 in
  let doy := (153 * mp + 2) / 5 + d - 1 in
  let doe := yoe * 365 + yoe / 4 - yoe / 100 + doy in
  era * 146097 + doe - 719468.

Definition days_in_month (y m : Z) : Z :=
  if m =? 2 then
    if ((y mod 4 =? 0) && negb (y mod 100 =? 0)) || (y mod 400 =? 0)
    then 29 else 28
  else if (m =? 4) || (m =? 6) || (m =? 9) || (m =? 11) then 30
  else 31.

Definition all_digits (s : string) : bool :=
  forallb is_digit (list_ascii_of_string s).

(** The time of a calendar date written [YYYY-MM-DD] (midnight UTC, in
    milliseconds); [None] for any other text. *)
Definition iso_time (s : string) : option Z :=
  let yyyy := substring 0 4 s in
  let mm := substring 5 2 s in
  let dd := substring 8 2 s in
  let y := digits_value yyyy in
  let m := digits_value mm in
  let d := digits_value dd in
  if (String.length s =? 10)%nat
     && String.eqb (substring 4 1 s) "-" && String.eqb (substring 7 1 s) "-"
     && all_digits yyyy && all_digits mm && all_digits dd
     && (1 <=? m) && (m <=? 12) && (1 <=? d) && (d <=? days_in_month y m)
  then Some (days_from_civil y m d * 86400000)
  else None.

(** Comparison by code units, which is how [localeCompare] orders two
    dates written [YYYY-MM-DD]. *)
Fixpoint code_compare (a b : string) : Z :=
  match a, b with
  | "", "" => 0
  | "", String _ _ => -1
  | String _ _, "" => 1
  | String x a', String y b' =>
      if Ascii.eqb x y then code_compare a' b'
      else if (nat_of_ascii x <? nat_of_ascii y)%nat then -1 else 1
  end.

(** [ToNumber] of [null] and of a boolean; the examples give it nothing
    else. *)
Definition simple_number (v : json) : float :=
  match v with
  | JBool true => 1%float
  | JNull | JBool false => 0%float
  | _ => PrimFloat.nan
  end.

(** A backend that answers the [n]-th request with the [n]-th entry of a
    script, and fails once the script is used up. *)
Definition scripted (answers : list (option string)) (n : nat) (_ : prompt)
    : option string :=
  nth n answers None.

Definition numbered_uuid (n : nat) : string :=
  "uuid-" +:+ string_of_list_ascii (repeat "x"%char n).

(** A decoder for the JSON the examples use: objects, arrays, strings
    without escapes, integers of at most fifteen digits, [true], [false],
    [null], and white space between them.  It answers [None] on any
    other text, also on the escapes, fractions and exponents that
    [JSON.parse] accepts and the examples do not use. *)
Definition QUOTE : ascii := ascii_of_nat 34.

Fixpoint skip_blank (s : string) : string :=
  match s with
  | String c r =>
      if existsb (Ascii.eqb c) [ascii_of_nat 32; ascii_of_nat 9; LF; CR]
      then skip_blank r else s
  | "" => ""
  end.

(** The characters up to the closing quote, and what follows the quote. *)
Fixpoint plain_string (s : string) : option (string * string) :=
  match s with
  | "" => None
  | String c r =>
      if Ascii.eqb c QUOTE then Some ("", r)
      else if Ascii.eqb c "\"%char || (nat_of_ascii c <? 32)%nat then None
      else '(body, rest) ← plain_string r; Some (String c body, rest)
  end.

Definition starts_with (c : ascii) (s : string) : bool :=
  match s with
  | String x _ => Ascii.eqb x c
  | "" => false
  end.

Definition integer_literal (s : string) : option (json * string) :=
  let '(negative, s') :=
    match strip_prefix "-" s with
    | Some r => (true, r)
    | None => (false, s)
    end in
  let '(ds, rest) := span_digits s' in
  let n := String.length ds in
  if (n =? 0)%nat || (15 <? n)%nat
     || ((1 <? n)%nat && starts_with "0" ds)
     || starts_with "." rest || starts_with "e" rest || starts_with "E" rest
  then None
  else
    let v := PrimFloat.of_uint63 (Uint63.of_Z (digits_value ds)) in
    Some (JNum (if negative then PrimFloat.opp v else v), rest).

(** A property written twice keeps its first place and its last value. *)
Definition add_field (k : string) (v : json) (later : list (string * json))
    : list (string * json) :=
  (k, default v (assoc k later))
    :: List.filter (fun kv => negb (String.eqb (fst kv) k)) later.

Fixpoint parse_value (fuel : nat) (s : string) {struct fuel}
    : option (json * string) :=
  match fuel with
  | O => None
  | S fuel' =>
      match skip_blank s with
      | "" => None
      | String c r =>
          if Ascii.eqb c "{" then
            if starts_with "}" (skip_blank r)
            then Some (JObj [], substring 1 (String.length r) (skip_blank r))
            else '(fields, rest) ← parse_members fuel' (skip_blank r);
                 Some (JObj fields, rest)
          else if Ascii.eqb c "[" then
            if starts_with "]" (skip_blank r)
            then Some (JArr [], substring 1 (String.length r) (skip_blank r))
            else '(items, rest) ← parse_elements fuel' r;
                 Some (JArr items, rest)
          else if Ascii.eqb c QUOTE then
            '(body, rest) ← plain_string r; Some (JStr body, rest)
          else
            match strip_prefix "true" (String c r),
                  strip_prefix "false" (String c r),
                  strip_prefix "null" (String c r) with
            | Some rest, _, _ => Some (JBool true, rest)
            | _, Some rest, _ => Some (JBool false, rest)
            | _, _, Some rest => Some (JNull, rest)
            | None, None, None => integer_literal (String c r)
            end
      end
  end
with parse_elements (fuel : nat) (s : string) {struct fuel}
    : option (list json * string) :=
  match fuel with
  | O => None
  | S fuel' =>
      '(v, rest) ← parse_value fuel' s;
      match skip_blank rest with
      | "" => None
      | String c r =>
          if Ascii.eqb c "," then
            '(vs, rest') ← parse_elements fuel' r; Some (v :: vs, rest')
          else if Ascii.eqb c "]" then Some ([v], r)
          else None
      end
  end
with parse_members (fuel : nat) (s : string) {struct fuel}
    : option (list (string * json) * string) :=
  match fuel with
  | O => None
  | S fuel' =>
      match s with
      | "" => None
      | String q s1 =>
          if negb (Ascii.eqb q QUOTE) then None
          else
            '(k, s2) ← plain_string s1;
            match skip_blank s2 with
            | "" => None
            | String colon s3 =>
                if negb (Ascii.eqb colon ":") then None
                else
                  '(v, s4) ← parse_value fuel' s3;
                  match skip_blank s4 with
                  | "" => None
                  | String c r =>
                      if Ascii.eqb c "," then
                        '(later, rest) ← parse_members fuel' (skip_blank r);
                        Some (add_field k v later, rest)
                      else if Ascii.eqb c "}" then Some ([(k, v)], r)
                      else None
                  end
            end
      end
  end.

Definition parse_json (s : string) : option json :=
  '(v, rest) ← parse_value (2 * String.length s + 2) s;
  if is_empty (skip_blank rest) then Some v else None.

(** ** More of [util.mjs], and the keyword fallback of the generator *)

(** *** [uniqueBy] *)

Section UniqueBy.
Context {A K : Type} `{Countable K}.

(** The callback of [items.filter] with the [Set] it fills: an item
    whose key has been seen is dropped, any other is kept and its key
    added.  Keys are compared as a [Set] compares them. *)
Fixpoint uniqueBy_from (getKey : A → K) (seen : gset K) (items : list A)
    : list A :=
  match items with
  | [] => []
  | item :: rest =>
      let key := getKey item in
      if bool_decide (key ∈ seen) then uniqueBy_from getKey seen rest
      else item :: uniqueBy_from getKey ({[key]} ∪ seen) rest
  end.

Definition uniqueBy (items : list A) (getKey : A → K) : list A :=
  uniqueBy_from getKey ∅ items.

End UniqueBy.

(** *** [i18nPick] *)

(** [name] as an array index: a decimal numeral without a leading zero. *)
Definition array_index (name : string) : option nat :=
  if negb (is_empty name) && all_digits name
     && (String.eqb name "0" || negb (starts_with "0" name))
  then Some (Z.to_nat (digits_value name))
  else None.

(** [obj[name]] when it is a string, for a value decoded from JSON: an
    own property of an object, an element of an array.  What an object
    or an array inherits ([constructor], [toString], [length], ...) is a
    function or a number, never a string. *)
Definition string_at (name : string) (obj : json) : option string :=
  match obj with
  | JObj fields =>
      match assoc name fields with
      | Some (JStr s) => Some s
      | _ => None
      end
  | JArr items =>
      match array_index name with
      | Some i =>
          match items !! i with
          | Some (JStr s) => Some s
          | _ => None
          end
      | None => None
      end
  | _ => None
  end.

(** The loop over [order]. *)
Fixpoint pick_text (obj : json) (order : list string) : string :=
  match order with
  | [] => ""
  | lang :: rest =>
      match string_at lang obj with
      | Some value =>
          if negb (is_empty (trim value)) then trim value
          else pick_text obj rest
      | None => pick_text obj rest
      end
  end.

Definition i18nPick (obj : json) (order : list string) : string :=
  match obj with
  | JObj _ | JArr _ => pick_text obj order
  | _ => ""
  end.

Definition default_order : list string := ["zh"; "en"; "es"].

(** The text [obj] has for [lang] is missing or blank. *)
Definition no_text (obj : json) (lang : string) : bool :=
  match string_at lang obj with
  | Some value => is_empty (trim value)
  | None => true
  end.

(** *** [slugify] *)

(** A letter A-Z in lower case, any other byte as it is. *)
Definition lower_byte (c : ascii) : ascii :=
  if (65 <=? nat_of_ascii c)%nat && (nat_of_ascii c <=? 90)%nat
  then ascii_of_nat (nat_of_ascii c + 32)
  else c.

(** [input.toLowerCase()], as far as the next step can tell: the letters
    A-Z become a-z; of the characters outside ASCII two have a lower
    case with an ASCII letter in it, U+0130 (an [i] and U+0307) and
    U+212A (a [k]); any other character outside ASCII is left as it is,
    its lower case being outside ASCII as well and removed by the next
    step just like the character itself. *)
Fixpoint toLowerCase_ascii (s : string) : string :=
  match s with
  | "" => ""
  | String "196" (String "176" r) =>
      String "i" (String "204" (String "135" (toLowerCase_ascii r)))
  | String "226" (String "132" (String "170" r)) =>
      String "k" (toLowerCase_ascii r)
  | String c r => String (lower_byte c) (toLowerCase_ascii r)
  end.

(** A character of [[a-z0-9-]]. *)
Definition slug_char (c : ascii) : bool :=
  ((97 <=? nat_of_ascii c)%nat && (nat_of_ascii c <=? 122)%nat)
  || is_digit c || Ascii.eqb c "-".

(** The head of [s] that [rest] is the rest of. *)
Definition head_of (s rest : string) : string :=
  substring 0 (String.length s - String.length rest) s.

(** [.replace(/[^a-z0-9\s-]/g, "")]: white-space characters and slug
    characters stay, every other byte goes. *)
Fixpoint keep_slug_in (fuel : nat) (s : string) : string :=
  match fuel with
  | O => ""
  | S fuel' =>
      match strip_space s with
      | Some rest => head_of s rest +:+ keep_slug_in fuel' rest
      | None =>
          match s with
          | "" => ""
          | String c r =>
              if slug_char c then String c (keep_slug_in fuel' r)
              else keep_slug_in fuel' r
          end
      end
  end.

Definition keep_slug (s : string) : string := keep_slug_in (String.length s) s.

(** [.replace(/\s+/g, mark)]: the mark for every run of white space. *)
Fixpoint replace_spaces_in (mark : ascii) (fuel : nat) (s : string) : string :=
  match fuel with
  | O => ""
  | S fuel' =>
      match strip_space s with
      | Some rest => String mark (replace_spaces_in mark fuel' (skip_spaces rest))
      | None =>
          match s with
          | "" => ""
          | String c r => String c (replace_spaces_in mark fuel' r)
          end
      end
  end.

Definition replace_spaces (mark : ascii) (s : string) : string :=
  replace_spaces_in mark (String.length s) s.

(** [.replace(/-+/g, "-")]: of a run of hyphens the last one stays. *)
Fixpoint squeeze_dashes (s : string) : string :=
  match s with
  | "" => ""
  | String c r =>
      if Ascii.eqb c "-" && starts_with "-" r then squeeze_dashes r
      else String c (squeeze_dashes r)
  end.

Definition slugify (input : string) : string :=
  squeeze_dashes
    (replace_spaces "-" (trim (keep_slug (toLowerCase_ascii input)))).


(** *** [loadDotEnv] *)

(** [raw.split(/\r?\n/)]: every line feed separates, and takes a
    carriage return just before it along. *)
Fixpoint split_env_lines (s : string) : list string :=
  match s with
  | "" => [""]
  | String c r =>
      let pieces := split_env_lines r in
      if Ascii.eqb c LF then "" :: pieces
      else if Ascii.eqb c CR && starts_with_lf r then pieces
      else
        match pieces with
        | p :: ps => String c p :: ps
        | [] => [String c ""]
        end
  end.

(** The head of [s] is a character of the class [[^=\s#]]. *)
Definition key_char_at (s : string) : bool :=
  match s with
  | "" => false
  | String c _ =>
      negb (Ascii.eqb c "=") && negb (Ascii.eqb c "#")
      && negb (bool_decide (is_Some (strip_space s)))
  end.

(** The longest run of such characters at the head of [s], and what
    follows it. *)
Fixpoint span_key (s : string) : string * string :=
  match s with
  | "" => ("", "")
  | String c r =>
      if key_char_at s
      then let '(key, rest) := span_key r in (String c key, rest)
      else ("", s)
  end.

(** The line terminators, which [.] does not match: U+000A, U+000D,
    U+2028, U+2029. *)
Definition line_terminators : list string :=
  [ String LF ""; String CR "";
    of_codes [226; 128; 168]%nat; of_codes [226; 128; 169]%nat ].

(** The longest run of characters other than line terminators at the
    head of [s], and what follows it. *)
Fixpoint span_dots (s : string) : string * string :=
  match s with
  | "" => ("", "")
  | String c r =>
      match strip_any line_terminators s with
      | Some _ => ("", s)
      | None => let '(value, rest) := span_dots r in (String c value, rest)
      end
  end.

(** [line.match(...)] with the pattern of an assignment: from the start
    of the line, white space, a key of one or more characters of
    [[^=\s#]], white space, [=], white space, a value of any characters
    but line terminators, white space, the end of the line; the result is
    the key and the value.  Each greedy part takes all it can, and
    giving back never helps: a shorter key is followed by a key
    character, not by [=]; a shorter value leaves the same text after
    the first line terminator to be white space. *)
Definition match_assignment (line : string) : option (string * string) :=
  let '(key, after_key) := span_key (skip_spaces line) in
  if is_empty key then None
  else
    match strip_prefix "=" (skip_spaces after_key) with
    | Some after_eq =>
        let '(value, rest) := span_dots (skip_spaces after_eq) in
        if all_spaces rest then Some (key, value) else None
    | None => None
    end.

(** [value.slice(0, value.search(/\s#/))] when the search finds a
    place. *)
Fixpoint strip_comment (s : string) : string :=
  match s with
  | "" => ""
  | String c r =>
      match strip_space s with
      | Some rest =>
          if starts_with "#" rest then "" else String c (strip_comment r)
      | None => String c (strip_comment r)
      end
  end.

Fixpoint ends_with (c : ascii) (s : string) : bool :=
  match s with
  | "" => false
  | String x "" => Ascii.eqb x c
  | String _ r => ends_with c r
  end.

(** [value.slice(1, -1)] when the value begins and ends with the same
    quote. *)
Definition unquote (value : string) : string :=
  if (starts_with QUOTE value && ends_with QUOTE value)
     || (starts_with "'" value && ends_with "'" value)
  then substring 1 (String.length value - 2) value
  else value.

(** What a line of the file assigns, if anything. *)
Definition env_entry (line : string) : option (string * string) :=
  if is_empty line || starts_with "#" (trim line) then None
  else
    '(key, value) ← match_assignment line;
    Some (key, unquote (trim (strip_comment value))).

(** The names [process.env] inherits from [Object.prototype]: reading
    one of them never yields [undefined]. *)
Definition inherited_names : list string :=
  [ "constructor"; "hasOwnProperty"; "isPrototypeOf"; "propertyIsEnumerable";
    "toLocaleString"; "toString"; "valueOf"; "__proto__";
    "__defineGetter__"; "__defineSetter__"; "__lookupGetter__";
    "__lookupSetter__" ].

(** [if (process.env[key] === undefined) process.env[key] = value]. *)
Definition set_if_undefined (vars : gmap string string) (key value : string)
    : gmap string string :=
  match vars !! key with
  | Some _ => vars
  | None => if bool_decide (key ∈ inherited_names) then vars
            else <[key := value]> vars
  end.

Definition load_line (vars : gmap string string) (line : string)
    : gmap string string :=
  match env_entry line with
  | Some (key, value) => set_if_undefined vars key value
  | None => vars
  end.

Definition ENV_LOADED : string := "__WEALTH_ENV_LOADED__".

(** [loadDotEnv()]: [file] is the text of [.env], [None] when there is
    no such file; [vars] is [process.env]. *)
Definition loadDotEnv (file : option string) (vars : gmap string string)
    : gmap string string :=
  if bool_decide (vars !! ENV_LOADED = Some "true") then vars
  else
    match file with
    | None => vars
    | Some raw =>
        <[ENV_LOADED := "true"]> (fold_left load_line (split_env_lines raw) vars)
    end.


(** *** [fallbackCandidate] *)

Definition FALLBACK_KEYWORDS : list string :=
  [ "预算"; "复利"; "通胀"; "风险"; "储蓄" ].

(** [s.includes(p)]. *)
Definition includes (s p : string) : bool :=
  match cut_at p s with
  | Some _ => true
  | None => false
  end.

(** The loop over the keywords. *)
Fixpoint fallback_by (keywords : list string) (candidates : list candidate)
    : option candidate :=
  match keywords with
  | [] => head candidates
  | keyword :: rest =>
      match List.find (fun c => includes (cand_title c) keyword) candidates with
      | Some found => Some found
      | None => fallback_by rest candidates
      end
  end.

Definition fallbackCandidate (candidates : list candidate) : option candidate :=
  fallback_by FALLBACK_KEYWORDS candidates.

(** Some title of the list includes the keyword. *)
Definition mentioned (candidates : list candidate) (keyword : string) : bool :=
  existsb (fun c => includes (cand_title c) keyword) candidates.

(** *** Notions the statements about these functions use *)

(** Only lower-case letters, digits and hyphens. *)
Definition slug_text (s : string) : bool :=
  forallb slug_char (list_ascii_of_string s).

(** Two hyphens in a row somewhere. *)
Fixpoint double_dash (s : string) : bool :=
  match s with
  | "" => false
  | String c r => (Ascii.eqb c "-" && starts_with "-" r) || double_dash r
  end.

(** A text of slug characters and white-space characters. *)
Inductive clean : string → Prop :=
| clean_nil : clean ""
| clean_char c r : slug_char c = true → clean r → clean (String c r)
| clean_space p r : p ∈ map of_codes space_codes → clean r → clean (p +:+ r).

(** The bytes that begin a white-space character. *)
Definition space_lead (c : ascii) : bool :=
  existsb (fun p => starts_with c p) (map of_codes space_codes).

(** A visible ASCII character (U+0021 to U+007E). *)
Definition visible (c : ascii) : bool :=
  (33 <=? nat_of_ascii c)%nat && (nat_of_ascii c <=? 126)%nat.

Definition key_text (s : string) : bool :=
  negb (is_empty s)
  && forallb (fun c => visible c && negb (Ascii.eqb c "=") && negb (Ascii.eqb c "#"))
       (list_ascii_of_string s).

Definition value_text (s : string) : bool :=
  forallb visible (list_ascii_of_string s)
  && negb (starts_with QUOTE s) && negb (starts_with "'" s).

(** Spaces and tabs only. *)
Definition blanks (s : string) : bool :=
  forallb (fun c => Ascii.eqb c " " || Ascii.eqb c (ascii_of_nat 9))
    (list_ascii_of_string s).

(** The assignments of a file, in the order of its lines. *)
Definition assignments (raw : string) : list (string * string) :=
  omap env_entry (split_env_lines raw).

(** *** [slice] and the archive directory *)

(** The lone first half of the surrogate pair that stands for a
    character of four bytes whose first three are [b0], [b1], [b2]: as
    three bytes, in the form of generalized UTF-8. *)
Definition high_surrogate (b0 b1 b2 : nat) : string :=
  let top := ((b0 mod 8) * 256 + (b1 mod 64) * 4 + (b2 mod 64) / 16 - 64)%nat in
  of_codes [237; 160 + top / 64; 128 + top mod 64]%nat.

Definition byte_at (i : nat) (s : string) : nat :=
  match String.get i s with
  | Some c => nat_of_ascii c
  | None => O
  end.

(** [s.slice(0, n)]: the first [n] UTF-16 code units of [s].  A
    character of one, two or three bytes is one unit, a character of
    four bytes is two; [pending] counts the bytes still to copy of the
    character being copied.  A cut between the two units of a character
    leaves a lone surrogate. *)
Fixpoint slice_units (n pending : nat) (s : string) : string :=
  match s with
  | "" => ""
  | String c r =>
      match pending with
      | S k => String c (slice_units n k r)
      | O =>
          match n with
          | O => ""
          | S n' =>
              let b := nat_of_ascii c in
              if (b <? 192)%nat then String c (slice_units n' 0 r)
              else if (b <? 224)%nat then String c (slice_units n' 1 r)
              else if (b <? 240)%nat then String c (slice_units n' 2 r)
              else
                match n' with
                | O => high_surrogate b (byte_at 0 r) (byte_at 1 r)
                | S n'' => String c (slice_units n'' 3 r)
                end
          end
      end
  end.

Definition DAILY_ARCH : string := "data/ai/wealth/finance-daily-archive".

(** *** [path.join] and file names, for the examples

    [posix_join] is [path.join] as Node has it on POSIX: the non-empty
    arguments joined by [/], then normalized (empty segments and [.]
    dropped, [..] taking back the segment before it).  [utf8_file] is
    the name a POSIX file system gets for a path: its UTF-8 bytes, U+FFFD
    standing for a lone surrogate. *)

Fixpoint split_at_slash (s : string) : list string :=
  match s with
  | "" => [""]
  | String c r =>
      if Ascii.eqb c "/" then "" :: split_at_slash r
      else
        match split_at_slash r with
        | p :: ps => String c p :: ps
        | [] => [String c ""]
        end
  end.

(** One segment more; [res] holds the segments kept so far, the last
    one first. *)
Definition add_segment (allowAboveRoot : bool) (res : list string)
    (segment : string) : list string :=
  if String.eqb segment "" || String.eqb segment "." then res
  else if String.eqb segment ".." then
    match res with
    | last :: before => if String.eqb last ".." then ".." :: res else before
    | [] => if allowAboveRoot then [".."] else []
    end
  else segment :: res.

Definition posix_normalize (path : string) : string :=
  if is_empty path then "."
  else
    let isAbsolute := starts_with "/" path in
    let trailingSeparator := ends_with "/" path in
    let segments :=
      rev (fold_left (add_segment (negb isAbsolute))
             (split_at_slash path) []) in
    let body := String.concat "/" segments in
    if is_empty body then
      if isAbsolute then "/" else if trailingSeparator then "./" else "."
    else
      (if isAbsolute then "/" else "") +:+ body
      +:+ (if trailingSeparator then "/" else "").

Definition posix_join (dir name : string) : string :=
  if is_empty dir then posix_normalize name
  else if is_empty name then posix_normalize dir
  else posix_normalize (dir +:+ "/" +:+ name).

Fixpoint utf8_file (path : string) : string :=
  match path with
  | String c (String c1 (String c2 r) as r1) =>
      if (nat_of_ascii c =? 237)%nat && (160 <=? nat_of_ascii c1)%nat
      then of_codes [239; 191; 189]%nat +:+ utf8_file r
      else String c (utf8_file r1)
  | String c r => String c (utf8_file r)
  | "" => ""
  end.

(** ** The program: what depends on the built-ins *)

Section Program.

Set Default Proof Using "Type".

(** [new Date(s).getTime()], [None] for [NaN]. *)
Variable Date_getTime : string → option Z.
(** [a.localeCompare(b)]. *)
Variable localeCompare : string → string → Z.
(** [JSON.parse], [None] when it throws. *)
Variable JSON_parse : string → option json.
(** [ToNumber] on a value that is not a number. *)
Variable ToNumber : json → float.
(** The content the backend answers to the [n]-th request, [None] when
    the request fails (transport, status, body). *)
Variable backend : nat → prompt → option string.
(** [crypto.randomUUID()], by the number of identifiers drawn before. *)
Variable randomUUID : nat → string.
(** [JSON.stringify(data, null, 2)]. *)
Variable JSON_stringify : json → string.
(** [process.pid], in decimal. *)
Variable pid : string.
(** [String(n)] for a number [n]. *)
Variable Number_toString : float → string.
(** [path.join(dir, name)]: the two joined and normalized, as the
    platform's [path] module does it. *)
Variable path_join : string → string → string.
(** The file that [fs] opens for a path.  Paths that differ can name one
    file: a lone surrogate in a path is written as U+FFFD in the file
    name, and the file system may fold case or follow links. *)
Variable file_at : string → string.

(** *** Candidate selector *)

(** The callback of [history.forEach]: [map.set(entry.meta.id,
    entry.date)] when [entry.meta && entry.meta.id]. *)
Definition remember (map : gmap string (option string)) (entry : entry)
    : gmap string (option string) :=
  match e_meta entry with
  | Some m => if is_empty (m_id m) then map else <[m_id m := e_date entry]> map
  | None => map
  end.

(** The [Map] from candidate id to the date stored for it. *)
Definition summarizeHistory (history : list entry)
    : gmap string (option string) :=
  fold_left remember history ∅.

Definition has (summary : gmap string (option string)) (c : candidate) : bool :=
  bool_decide (is_Some (summary !! cand_id c)).

(** [new Date(summary.get(id))] as a time. *)
Definition stored_time (summary : gmap string (option string)) (c : candidate)
    : option Z :=
  date ← summary !! cand_id c; d ← date; Date_getTime d.

(** [dateA - dateB]; [NaN] counts as [0] in a comparator.  When a
    stored date is missing or does not parse, the comparator is not
    consistent, and which candidate the sort then puts first is the
    engine's choice, which the model does not claim to follow. *)
Definition by_stored_time (summary : gmap string (option string))
    (a b : candidate) : Z :=
  match stored_time summary a, stored_time summary b with
  | Some ta, Some tb => ta - tb
  | _, _ => 0
  end.

Definition pickCandidate (candidates : list candidate) (history : list entry)
    : option candidate :=
  match candidates with
  | [] => None
  | _ =>
      let summary := summarizeHistory history in
      match List.find (fun c => negb (has summary c)) candidates with
      | Some c => Some c
      | None =>
          let usedCandidates := List.filter (has summary) candidates in
          match js_sort (by_stored_time summary) usedCandidates with
          | c :: _ => Some c
          | [] => head candidates
          end
      end
  end.

(** *** History store *)

(** [entry?.date?.slice(0, 7)]. *)
Definition pickMonth (e : entry) : option string := slice_units 7 0 <$> e_date e.

(** [(a.date || "").localeCompare(b.date || "")]. *)
Definition by_date (a b : entry) : Z :=
  localeCompare (default "" (e_date a)) (default "" (e_date b)).

(** The file of [path.join(archiveDir, `${month}.json`)]. *)
Definition archivePath (archiveDir month : string) : string :=
  file_at (path_join archiveDir (month +:+ ".json")).

(** One turn of the archival loop: skip an entry without a month; else
    read the file of the month (empty when absent), push, sort, write.
    The files are a map from file to entries: each is taken to hold a
    list of entries, and the file system not to fail. *)
Definition archive_entry (archiveDir : string)
    (files : gmap string (list entry)) (e : entry)
    : gmap string (list entry) :=
  match pickMonth e with
  | None => files
  | Some month =>
      if is_empty month then files
      else
        let file := archivePath archiveDir month in
        let archiveItems := default [] (files !! file) in
        <[file := js_sort by_date (archiveItems ++ [e])]> files
  end.

Definition rollWindowAndArchive (items : list entry) (limit : nat)
    (archiveDir : string) (files : gmap string (list entry))
    : list entry * gmap string (list entry) :=
  if (length items <=? limit)%nat then (items, files)
  else (take limit items,
        fold_left (archive_entry archiveDir) (drop limit items) files).

(** *** Generation pipeline *)

Definition apiKey (e : environment) : option string :=
  match LLM_API_KEY e with
  | Some k => if is_empty k then DEEPSEEK_API_KEY e else Some k
  | None => DEEPSEEK_API_KEY e
  end.

Definition log_request (p : prompt) (w : world) : world :=
  {| requests := requests w ++ [p]; slept := slept w; daily := daily w;
     archive := archive w; drawn := drawn w |}.

Definition callLLM (e : environment) (p : prompt) : M string :=
  fun w =>
    match apiKey e with
    | None => (Throw MissingKey, w)
    | Some k =>
        if is_empty k then (Throw MissingKey, w)
        else
          match backend (length (requests w)) p with
          | Some content => (Ok content, log_request p w)
          | None => (Throw ApiError, log_request p w)
          end
    end.

(** [raw.match(/```json([\s\S]*?)```/)]: the text between the first
    [```json] and the first [```] after it. *)
Definition fenced_json (raw : string) : option string :=
  '(_, after) ← cut_at "```json" raw;
  '(inner, _) ← cut_at "```" after;
  Some inner.

Definition parseJSON (raw : string) : result json :=
  match JSON_parse raw with
  | Some v => Ok v
  | None =>
      match fenced_json raw with
      | Some inner =>
          match JSON_parse inner with
          | Some v => Ok v
          | None => Throw SyntaxError
          end
      | None => Throw SyntaxError
      end
  end.

(** The number a value is read as, [undefined] as [NaN]. *)
Definition as_number (v : option json) : float :=
  match v with
  | None => PrimFloat.nan
  | Some (JNum n) => n
  | Some v => ToNumber v
  end.

(** [score < 9] once the score is a primitive: both sides as numbers. *)
Definition below_9 (score : option json) : bool :=
  PrimFloat.ltb (as_number score) 9%float.

(** [critique.score < 9]: the comparison first makes a primitive of the
    score, which can throw. *)
Definition less_than_9 (score : option json) : result bool :=
  if opt_converts score then Ok (below_9 score) else Throw TypeError.

(** [buildRevisePrompt(draft, critique)]: the template literal makes
    texts of [critique.critique] and of [critique.score], which can
    throw; [JSON.stringify(draft, null, 2)] does not. *)
Definition buildRevisePrompt (draft critique : json) : result prompt :=
  rbind (get "critique" critique) (fun text =>
  rbind (get "score" critique) (fun score =>
    if opt_converts text && opt_converts score
    then Ok (RevisePrompt draft critique)
    else Throw TypeError)).

Definition generateLesson (e : environment) (candidate : candidate)
    (history : list entry) : M json :=
  blueprintRaw <- callLLM e (BlueprintPrompt candidate) ;;
  blueprint <- lift (parseJSON blueprintRaw) ;;
  draftRaw <- callLLM e (DraftPrompt candidate blueprint) ;;
  draft <- lift (parseJSON draftRaw) ;;
  critiqueRaw <- callLLM e (CritiquePrompt draft) ;;
  critique <- lift (parseJSON critiqueRaw) ;;
  score <- lift (get "score" critique) ;;
  below <- lift (less_than_9 score) ;;
  if below then
    revisePrompt <- lift (buildRevisePrompt draft critique) ;;
    revisedRaw <- callLLM e revisePrompt ;;
    lift (parseJSON revisedRaw)
  else ret draft.

(** What follows the critique, up to the revise request: the prompt to
    send, [None] when the draft is kept. *)
Definition revise_request (draft critique : json) : result (option prompt) :=
  rbind (get "score" critique) (fun score =>
  rbind (less_than_9 score) (fun below =>
    if below
    then rbind (buildRevisePrompt draft critique) (fun p => Ok (Some p))
    else Ok None)).

(** The stages by name: the first three, which yield the draft and its
    critique, and the fourth. *)
Definition draft_and_critique (e : environment) (candidate : candidate)
    : M (json * json) :=
  blueprintRaw <- callLLM e (BlueprintPrompt candidate) ;;
  blueprint <- lift (parseJSON blueprintRaw) ;;
  draftRaw <- callLLM e (DraftPrompt candidate blueprint) ;;
  draft <- lift (parseJSON draftRaw) ;;
  critiqueRaw <- callLLM e (CritiquePrompt draft) ;;
  critique <- lift (parseJSON critiqueRaw) ;;
  ret (draft, critique).

Definition revise_stage (e : environment) (draft critique : json) : M json :=
  revisePrompt <- lift (buildRevisePrompt draft critique) ;;
  revisedRaw <- callLLM e revisePrompt ;;
  lift (parseJSON revisedRaw).

(** One stage: a request and the decoding of its answer. *)
Definition stage (e : environment) (p : prompt) : M json :=
  raw <- callLLM e p ;;
  lift (parseJSON raw).

Definition draw_uuid : M string :=
  fun w =>
    (Ok (randomUUID (drawn w)),
     {| requests := requests w; slept := slept w; daily := daily w;
        archive := archive w; drawn := S (drawn w) |}).

Definition lesson_meta (candidate : candidate) : meta :=
  {| m_id := cand_id candidate;
     m_category := cand_category candidate;
     m_difficulty := cand_difficulty candidate;
     m_level := cand_level candidate;
     m_related := cand_related candidate;
     m_tags := List.filter (fun t => negb (is_empty t))
                 [cand_category candidate;
                  mapDifficultyLabel (cand_difficulty candidate)] |}.

Definition coerceLesson (candidate : candidate) (lesson : json)
    (date : string) : M entry :=
  sources <- lift (rbind (get "sources" lesson) normalizeSources) ;;
  practice <- lift (rbind (get "practice" lesson) normalizePractice) ;;
  id <- draw_uuid ;;
  topic <- lift (get "topic" lesson) ;;
  summary <- lift (get "summary" lesson) ;;
  key_points <- lift (get "key_points" lesson) ;;
  risk_notes <- lift (get "risk_notes" lesson) ;;
  ret {| e_id := id;
         e_date := Some date;
         e_topic := or_else topic (JStr (cand_title candidate));
         e_summary := or_else summary (JStr "");
         e_key_points := or_else key_points (JArr []);
         e_practice := practice;
         e_risk_notes := or_else risk_notes (JStr "");
         e_sources := sources;
         e_meta := Some (lesson_meta candidate) |}.

(** *** Orchestrator *)

Definition sleep (ms : Z) (w : world) : world :=
  {| requests := requests w; slept := slept w ++ [ms]; daily := daily w;
     archive := archive w; drawn := drawn w |}.

Definition write_archive (files : gmap string (list entry)) (w : world) : world :=
  {| requests := requests w; slept := slept w; daily := daily w;
     archive := files; drawn := drawn w |}.

Definition write_daily (items : list entry) (w : world) : world :=
  {| requests := requests w; slept := slept w; daily := items;
     archive := archive w; drawn := drawn w |}.

(** The body of the [try] block. *)
Definition attempt (cfg : config) (candidate : candidate)
    (history : list entry) : M entry :=
  content <- generateLesson (env cfg) candidate history ;;
  coerceLesson candidate content (todayStr cfg).

(** How the retry loop ends: [break] with a lesson, the loop condition
    turning false, [process.exit], or the model's fuel running out. *)
Inductive loop_end :=
| Break (lesson : entry)
| Fallthrough
| ExitLoop (code : Z)
| OutOfFuel.

(** [while (attempts <= maxRetries) { try ... catch ... }]. *)
Fixpoint retry_loop (fuel : nat) (cfg : config) (candidate : candidate)
    (history : list entry) (attempts : Z) (w : world) : loop_end * world :=
  if attempts <=? maxRetries (dryRun cfg) then
    match fuel with
    | O => (OutOfFuel, w)
    | S fuel' =>
        match attempt cfg candidate history w with
        | (Ok lesson, w') => (Break lesson, w')
        | (Throw _, w') =>
            let attempts' := attempts + 1 in
            if attempts' >? maxRetries (dryRun cfg) then (ExitLoop 1, w')
            else
              let delay := backoff (attempts' - 1) in
              retry_loop fuel' cfg candidate history attempts' (sleep delay w')
        end
    end
  else (Fallthrough, w).

(** How the process ends. *)
Inductive ending :=
| Returned          (* [main] resolved: exit code 0 *)
| Exited (code : Z) (* [process.exit(code)] *)
| Unfinished.       (* the model's fuel ran out *)

Definition exit_code (e : ending) : option Z :=
  match e with
  | Returned => Some 0
  | Exited c => Some c
  | Unfinished => None
  end.

(** Feeding the selector its own choices: [n] runs from [history], the
    entry of run [k] for candidate [c] being [lesson c k], put in front
    of the history as [main] does. *)
Fixpoint selections (lesson : candidate → nat → entry)
    (candidates : list candidate) (n : nat) (history : list entry)
    : list (option candidate) :=
  match n with
  | O => []
  | S n' =>
      match pickCandidate candidates history with
      | Some c =>
          Some c
          :: selections lesson candidates n'
               (lesson c (length history) :: history)
      | None => [None]
      end
  end.

(** The guard [history.length > 0 && history[0].date === todayStr]. *)
Definition generated_today (history : list entry) (today : string) : bool :=
  match history with
  | e :: _ => bool_decide (e_date e = Some today)
  | [] => false
  end.

(** [main().catch(() => process.exit(1))], the files read on the way
    being [topicsRaw] and the live history. *)
Definition main (cfg : config) (w : world) : ending * world :=
  match flattenTopics (topicsRaw cfg) with
  | Throw _ => (Exited 1, w)
  | Ok candidates =>
      let history := daily w in
      if generated_today history (todayStr cfg) && negb (dryRun cfg)
      then (Returned, w)
      else
        match pickCandidate candidates history with
        | None => (Exited 1, w)
        | Some candidate =>
            match retry_loop 3 cfg candidate history 0 w with
            | (Break lesson, w1) =>
                let newHistory := lesson :: history in
                let '(kept, files) :=
                  rollWindowAndArchive newHistory 60 DAILY_ARCH (archive w1) in
                let w2 := write_archive files w1 in
                if dryRun cfg then (Returned, w2)
                else (Returned, write_daily kept w2)
            | (Fallthrough, w1) => (Exited 1, w1)
            | (ExitLoop code, w1) => (Exited code, w1)
            | (OutOfFuel, w1) => (Unfinished, w1)
            end
        end
  end.

(** *** Files: [readJSON] and [writeJSON]

    The files are a map from path to text.  Reading a path that is not
    in the map fails with [ENOENT]; other failures of the file system
    (a directory in the way, a permission) are not part of the model. *)

(** [readJSON(filePath, fallback)]. *)
Definition readJSON (files : gmap string string) (filePath : string)
    (fallback : json) : result json :=
  match files !! filePath with
  | None => Ok fallback
  | Some raw =>
      if is_empty (trim raw) then Ok fallback
      else
        match JSON_parse raw with
        | Some v => Ok v
        | None => Throw SyntaxError
        end
  end.

(** [fs.writeFile(path, text)]. *)
Definition writeFile (path text : string) (files : gmap string string)
    : gmap string string :=
  <[path := text]> files.

(** [fs.rename(oldPath, newPath)]. *)
Definition rename (oldPath newPath : string) (files : gmap string string)
    : gmap string string :=
  match files !! oldPath with
  | Some text => <[newPath := text]> (delete oldPath files)
  | None => files
  end.

Definition tmp_path (filePath : string) : string :=
  filePath +:+ "." +:+ pid +:+ ".tmp".

(** The text [writeJSON] writes. *)
Definition file_text (data : json) : string :=
  JSON_stringify data +:+ String LF "".

(** [writeJSON(filePath, data)]: the text goes to a temporary file, which
    is then renamed. *)
Definition writeJSON (files : gmap string string) (filePath : string)
    (data : json) : gmap string string :=
  let tmp := tmp_path filePath in
  rename tmp filePath (writeFile tmp (file_text data) files).

(** *** The scoring function: [daysBetween] and [scoreCandidate] *)

Definition cooldownDays : Z := 45.

(** [daysBetween(dateA, dateB)], [None] for [NaN].  Times are whole
    milliseconds; the floor of the double quotient is the floor of the
    exact one as long as the two times are less than 2^53 ms apart, and
    on which side of [cooldownDays] it lies is exact for every pair of
    times. *)
Definition daysBetween (dateA dateB : string) : option Z :=
  a ← Date_getTime dateA; b ← Date_getTime dateB;
  Some ((a - b) / (1000 * 60 * 60 * 24)).

(** A number of entries as a double. *)
Definition count_number (n : nat) : float :=
  PrimFloat.of_uint63 (Uint63.of_Z (Z.of_nat n)).

(** [Math.max(a, b)] and [Math.min(a, b)]: [NaN] when an argument is
    [NaN]; of two zeros the positive one is the larger. *)
Definition Math_max (a b : float) : float :=
  if PrimFloat.is_nan a || PrimFloat.is_nan b then PrimFloat.nan
  else if PrimFloat.ltb a b then b
  else if PrimFloat.ltb b a then a
  else if PrimFloat.get_sign a then b else a.

Definition Math_min (a b : float) : float :=
  if PrimFloat.is_nan a || PrimFloat.is_nan b then PrimFloat.nan
  else if PrimFloat.ltb a b then a
  else if PrimFloat.ltb b a then b
  else if PrimFloat.get_sign a then a else b.

(** [summary.get(id)] when it is truthy. *)
Definition lastUsed (summary : gmap string (option string)) (c : candidate)
    : option string :=
  match summary !! cand_id c with
  | Some (Some date) => if is_empty date then None else Some date
  | _ => None
  end.

#[warnings="-inexact-float"]
Definition progressScore (summary : gmap string (option string))
    (c : candidate) : float :=
  match lastUsed summary c with
  | Some _ => 0.3%float
  | None => 1%float
  end.

(** [entry.meta?.category === candidate.category]. *)
Definition same_category (c : candidate) (e : entry) : bool :=
  match e_meta e with
  | Some m => String.eqb (m_category m) (cand_category c)
  | None => false
  end.

Definition categoryCount (c : candidate) (history : list entry) : nat :=
  length (List.filter (same_category c) (take 7 history)).

Definition coverageScore (c : candidate) (history : list entry) : float :=
  (1 - Math_min (count_number (categoryCount c history) / 7) 1)%float.

(** [history.slice(0, 2).map(entry => entry.meta?.related || []).flat()]. *)
Definition recentRelated (history : list entry) : list string :=
  concat (map (fun e => match e_meta e with
                        | Some m => m_related m
                        | None => []
                        end) (take 2 history)).

#[warnings="-inexact-float"]
Definition relationScore (c : candidate) (history : list entry) : float :=
  if existsb (fun item => bool_decide (item ∈ recentRelated history))
       (cand_related c)
  then 1%float else 0.4%float.

(** [history[0]?.meta?.category]. *)
Definition lastCategory (history : list entry) : option string :=
  e ← head history; m ← e_meta e; Some (m_category m).

#[warnings="-inexact-float"]
Definition diversityScore (c : candidate) (history : list entry) : float :=
  match lastCategory history with
  | Some category =>
      if negb (is_empty category)
         && negb (String.eqb category (cand_category c))
      then 1%float else 0.4%float
  | None => 0.4%float
  end.

Definition cooldownPenalty (todayStr : string)
    (summary : gmap string (option string)) (c : candidate) : float :=
  match lastUsed summary c with
  | Some date =>
      match daysBetween todayStr date with
      | Some days => if days <? cooldownDays then (-5)%float else 0%float
      | None => 0%float
      end
  | None => 0%float
  end.

(** [Math.abs((history[0]?.meta?.difficulty ?? candidate.difficulty)
    - candidate.difficulty)], [None] for [NaN]. *)
Definition difficultyGap (c : candidate) (history : list entry) : option Z :=
  let last := e ← head history; m ← e_meta e; m_difficulty m in
  let before := match last with Some d => Some d | None => cand_difficulty c end in
  a ← before; b ← cand_difficulty c; Some (Z.abs (a - b)).

Definition difficultyPenalty (c : candidate) (history : list entry) : float :=
  match difficultyGap c history with
  | Some gap => if gap >? 1 then (-2)%float else 0%float
  | None => 0%float
  end.

(** [scoreCandidate(candidate, history, summary)], [todayStr] being
    [today()]. *)
#[warnings="-inexact-float"]
Definition scoreCandidate (todayStr : string) (c : candidate)
    (history : list entry) (summary : gmap string (option string)) : float :=
  (progressScore summary c * 0.5 + coverageScore c history * 0.2
   + relationScore c history * 0.2 + diversityScore c history * 0.1
   + cooldownPenalty todayStr summary c + difficultyPenalty c history)%float.

(** The score as a function of its six components. *)
#[warnings="-inexact-float"]
Definition total (progress coverage relation diversity cooldown difficulty : float)
    : float :=
  (progress * 0.5 + coverage * 0.2 + relation * 0.2 + diversity * 0.1
   + cooldown + difficulty)%float.

(** The candidate was used, on a valid date, fewer than [cooldownDays]
    days before today. *)
Definition in_cooldown (todayStr : string)
    (summary : gmap string (option string)) (c : candidate) : Prop :=
  ∃ date days, lastUsed summary c = Some date
     ∧ daysBetween todayStr date = Some days ∧ days < cooldownDays.

(** *** The search proxy: [clampNumber], [cleanSnippet] and
    [normalizeBraveResults] *)

(** [Number.isFinite(n)]. *)
Definition is_finite (n : float) : bool :=
  negb (PrimFloat.is_nan n) && negb (PrimFloat.is_infinity n).

(** The text with the letters A-Z in lower case. *)
Fixpoint ascii_lower (s : string) : string :=
  match s with
  | "" => ""
  | String c r => String (lower_byte c) (ascii_lower r)
  end.

(** [/^https?:/i.test(text)]. *)
Definition starts_http (text : string) : bool :=
  match strip_prefix "http:" (ascii_lower text),
        strip_prefix "https:" (ascii_lower text) with
  | None, None => false
  | _, _ => true
  end.

(** [v && v.name], when it is truthy. *)
Definition truthy_at (name : string) (v : json) : option json :=
  if truthy v then
    match field name v with
    | Some x => if truthy x then Some x else None
    | None => None
    end
  else None.

(** One entry of [results]. *)
Record search_result := {
  r_title : json;
  r_url : json;
  r_snippet : string;
  r_source : json;
  r_publishedAt : json;
  r_score : json;
  r_language : json
}.

(** What [normalizeBraveResults] returns. *)
Record normalized := {
  n_results : list search_result;
  n_total : json;
  n_took : json
}.

(** [String(v)] for a value decoded from JSON.  An array is its elements
    joined by commas, [null] counting as the empty text; an object is
    [[object Object]], unless it has a property [toString] of its own,
    which is then not a function: the conversion throws. *)
Fixpoint to_string (v : json) : result string :=
  match v with
  | JNull => Ok "null"
  | JBool b => Ok (if b then "true" else "false")
  | JNum n => Ok (Number_toString n)
  | JStr s => Ok s
  | JArr items =>
      rbind
        ((fix each (l : list json) : result (list string) :=
            match l with
            | [] => Ok []
            | x :: rest =>
                rbind (match x with JNull => Ok "" | _ => to_string x end)
                  (fun s => rbind (each rest) (fun ss => Ok (s :: ss)))
            end) items)
        (fun parts => Ok (String.concat "," parts))
  | JObj fields =>
      match assoc "toString" fields with
      | Some _ => Throw TypeError
      | None => Ok "[object Object]"
      end
  end.

(** [clampNumber(value, min, max, fallback)]. *)
Definition clampNumber (value : option json) (min max fallback : float)
    : float :=
  let num := as_number value in
  if negb (is_finite num) then fallback
  else Math_min (Math_max num min) max.


(** [cleanSnippet(value)]. *)
Definition cleanSnippet (value : json) : result string :=
  if negb (truthy value) then Ok ""
  else rbind (to_string value) (fun text => Ok (trim (replace_spaces " " text))).

(** The object literal pushed for an item that has passed the tests. *)
Definition search_result_of (item url : json) : result search_result :=
  rbind (cleanSnippet
           (or_else (field "description" item)
              (or_else (field "snippet" item) (JStr ""))))
    (fun snippet =>
       Ok {| r_title := or_else (field "title" item) (JStr "");
             r_url := url;
             r_snippet := snippet;
             r_source :=
               match truthy_at "meta_url" item with
               | Some meta_url => or_else (field "hostname" meta_url) (JStr "")
               | None => JStr ""
               end;
             r_publishedAt :=
               match truthy_at "age" item with
               | Some age => or_else (field "iso8601" age) JNull
               | None => JNull
               end;
             r_score :=
               match field "score" item with
               | Some (JNum n) => JNum n
               | _ => JNull
               end;
             r_language := or_else (field "language" item) JNull |}).

(** The loop: [items] is what is left of [webResults], [results] what
    has been pushed. *)
Fixpoint collect (limit : float) (items : list json)
    (results : list search_result) : result (list search_result) :=
  match items with
  | [] => Ok results
  | item :: rest =>
      if negb (PrimFloat.ltb (count_number (length results)) limit)
      then Ok results
      else
        match truthy_at "url" item with
        | None => collect limit rest results
        | Some url =>
            rbind (to_string url) (fun text =>
              if negb (starts_http text) then collect limit rest results
              else
                rbind (search_result_of item url) (fun r =>
                  collect limit rest (results ++ [r])))
        end
  end.

(** [data.web.results] when it is an array, else the empty list. *)
Definition webResults (data : json) : list json :=
  match truthy_at "web" data with
  | Some web =>
      match field "results" web with
      | Some (JArr items) => items
      | _ => []
      end
  | None => []
  end.

Definition normalizeBraveResults (data : json) (maxResults : option json)
    : result normalized :=
  let limit := clampNumber maxResults 1 10 6 in
  rbind (collect limit (webResults data) []) (fun results =>
    Ok {| n_results := results;
          n_total :=
            match truthy_at "web" data with
            | Some web =>
                match field "total" web with
                | Some (JNum n) => JNum n
                | _ => JNull
                end
            | None => JNull
            end;
          n_took :=
            match truthy_at "query" data with
            | Some query =>
                match truthy_at "timings" query with
                | Some timings => or_else (field "request" timings) JNull
                | None => JNull
                end
            | None => JNull
            end |}).

(** The url of a result has passed the tests of the loop. *)
Definition url_accepted (r : search_result) : Prop :=
  truthy (r_url r) = true
  ∧ ∃ text, to_string (r_url r) = Ok text ∧ starts_http text = true.

(** Every white-space character of the text is a space that no
    white-space character follows. *)
Definition single_spaced (text : string) : Prop :=
  ∀ before after rest,
    text = before +:+ after → strip_space after = Some rest →
    after = String " " rest ∧ strip_space rest = None.

(** The number is [NaN]. *)
Definition sf_nan (x : spec_float) : bool :=
  match x with
  | S754_nan => true
  | _ => false
  end.


(** *** Notions the statements use *)

(** The id an entry records, if any. *)
Definition recorded (e : entry) : option string :=
  match e_meta e with
  | Some m => if is_empty (m_id m) then None else Some (m_id m)
  | None => None
  end.

(** The archival loop writes the entry to [file]. *)
Definition filed_under (archiveDir file : string) (e : entry) : bool :=
  match pickMonth e with
  | Some month =>
      negb (is_empty month) && String.eqb (archivePath archiveDir month) file
  | None => false
  end.

(** The critique makes [generateLesson] send the revise request: it is
    not [null], its score converts to a primitive that is below 9, and
    its text converts as well. *)
Definition revises (critique : json) : bool :=
  match critique with
  | JNull => false
  | _ =>
      opt_converts (field "score" critique)
      && below_9 (field "score" critique)
      && opt_converts (field "critique" critique)
  end.

(** A usable credential: one of the two variables is set and not empty,
    as [callLLM] reads them. *)
Definition has_credential (e : environment) : bool :=
  match apiKey e with
  | Some k => negb (is_empty k)
  | None => false
  end.

(** A computation is quiet when it leaves the files and the delays as
    they are and only adds to the requests. *)
Definition quiet {A} (m : M A) : Prop :=
  ∀ w r w', m w = (r, w') →
    slept w' = slept w ∧ daily w' = daily w ∧ archive w' = archive w
    ∧ ∃ sent, requests w' = requests w ++ sent.

(** A computation aborts on a rejected answer when, as soon as one of
    the requests it sends is answered by content that does not decode,
    it sends nothing more and throws [SyntaxError]. *)
Definition aborts_on_reject {A} (m : M A) : Prop :=
  ∀ w r w', m w = (r, w') →
    ∀ i p content,
      (length (requests w) ≤ i)%nat →
      requests w' !! i = Some p →
      backend i p = Some content →
      parseJSON content = Throw SyntaxError →
      r = Throw SyntaxError ∧ length (requests w') = S i.

(** A computation sends at most [n] requests. *)
Definition sends {A} (n : nat) (m : M A) : Prop :=
  ∀ w r w', m w = (r, w') →
    ∃ sent, requests w' = requests w ++ sent ∧ (length sent ≤ n)%nat.

(** The stored time of a candidate, [0] standing for none. *)
Definition stored_or_zero (history : list entry) (c : candidate) : Z :=
  default 0 (stored_time (summarizeHistory history) c).

(** * Properties *)

(** ** Texts *)

Lemma append_cons (c : ascii) (a b : string) :
  String c a +:+ b = String c (a +:+ b).
Proof. reflexivity. Qed.

Lemma append_nil (b : string) : "" +:+ b = b.
Proof. reflexivity. Qed.

Lemma append_empty (s : string) : s +:+ "" = s.
Proof. induction s as [|c s IH]; [done|]. by rewrite append_cons, IH. Qed.

(** ** The sort *)

Section JsSortFacts.
Context {A : Type} (cmp : A → A → Z).

Lemma js_insert_perm (x : A) (l : list A) : js_insert cmp x l ≡ₚ x :: l.
Proof.
  induction l as [|y l IH]; simpl; [done|].
  destruct (cmp x y <=? 0); [done|].
  rewrite IH. apply perm_swap.
Qed.

Lemma js_sort_perm (l : list A) : js_sort cmp l ≡ₚ l.
Proof.
  induction l as [|x l IH]; simpl; [done|].
  by rewrite js_insert_perm, IH.
Qed.

Lemma js_sort_length (l : list A) : length (js_sort cmp l) = length l.
Proof. apply Permutation_length, js_sort_perm. Qed.

Lemma consistent_everywhere (l : list A) : consistent cmp → consistent_on cmp l.
Proof.
  intros [Htotal Htrans]. split.
  - intros a b _ _. apply Htotal.
  - intros a b c _ _ _. apply Htrans.
Qed.

(** Consistency on a list is about its elements, not their places. *)
Lemma consistent_on_incl (l l' : list A) :
  (∀ x, x ∈ l' → x ∈ l) → consistent_on cmp l → consistent_on cmp l'.
Proof.
  intros Hincl [Htotal Htrans]. split.
  - intros a b Ha Hb. apply Htotal; by apply Hincl.
  - intros a b c Ha Hb Hc. apply Htrans; by apply Hincl.
Qed.

Lemma js_insert_sorted_on (x : A) (l : list A) :
  consistent_on cmp (x :: l) → StronglySorted (not_after cmp) l →
  StronglySorted (not_after cmp) (js_insert cmp x l).
Proof.
  intros Hc Hl.
  induction Hl as [|y l Hl IH Hy]; simpl.
  - repeat constructor.
  - destruct Hc as [Htotal Htrans].
    destruct (Z.leb_spec (cmp x y) 0) as [Hxy|Hxy].
    + constructor; [by constructor|].
      constructor; [done|].
      apply Forall_forall. intros z Hz.
      rewrite Forall_forall in Hy.
      apply (Htrans x y z); [by left|by right; left|by right; right|done|].
      by apply Hy.
    + constructor.
      * apply IH. eapply consistent_on_incl; [|split; [exact Htotal|exact Htrans]].
        intros z Hz. apply elem_of_cons in Hz as [->|Hz]; [by left|by right; right].
      * rewrite js_insert_perm. constructor; [|done].
        destruct (Htotal x y); [by left|by right; left|lia|done].
Qed.

Lemma js_sort_sorted_on (l : list A) :
  consistent_on cmp l → StronglySorted (not_after cmp) (js_sort cmp l).
Proof.
  induction l as [|x l IH]; intros Hc; simpl; [constructor|].
  apply js_insert_sorted_on.
  - eapply consistent_on_incl; [|exact Hc].
    intros z Hz. apply elem_of_cons in Hz as [->|Hz]; [by left|].
    right. by rewrite js_sort_perm in Hz.
  - apply IH. eapply consistent_on_incl; [|exact Hc]. intros z Hz. by right.
Qed.

Lemma js_insert_sorted (x : A) (l : list A) :
  consistent cmp → StronglySorted (not_after cmp) l →
  StronglySorted (not_after cmp) (js_insert cmp x l).
Proof. intros Hc. by apply js_insert_sorted_on, consistent_everywhere. Qed.

Lemma js_sort_sorted (l : list A) :
  consistent cmp → StronglySorted (not_after cmp) (js_sort cmp l).
Proof. intros Hc. by apply js_sort_sorted_on, consistent_everywhere. Qed.

(** Stability: the elements a predicate selects keep their order,
    provided the sort never moves a selected element past another one,
    that is, selected elements compare as equal. *)
Lemma js_insert_filter (P : A → bool) (x : A) (l : list A) :
  (P x = true → ∀ y, y ∈ l → P y = true → cmp x y ≤ 0) →
  List.filter P (js_insert cmp x l) = List.filter P (x :: l).
Proof.
  induction l as [|y l IH]; intros Hx; simpl; [done|].
  destruct (Z.leb_spec (cmp x y) 0) as [Hxy|Hxy]; simpl; [done|].
  rewrite IH by (intros Px z Hz; apply Hx; [done|by right]).
  simpl. destruct (P x) eqn:Px; [|done].
  destruct (P y) eqn:Py; [|done].
  assert (cmp x y ≤ 0) by (apply Hx; [done|by left|done]). lia.
Qed.

Lemma js_sort_filter (P : A → bool) (l : list A) :
  (∀ x y, x ∈ l → y ∈ l → P x = true → P y = true → cmp x y ≤ 0) →
  List.filter P (js_sort cmp l) = List.filter P l.
Proof.
  induction l as [|x l IH]; intros HP; simpl; [done|].
  rewrite js_insert_filter.
  - simpl. rewrite IH; [done|].
    intros a b Ha Hb. apply HP; by right.
  - intros Px y Hy Py. rewrite js_sort_perm in Hy.
    apply HP; [by left|by right|done|done].
Qed.

(** The comparator matters on the elements of the list only. *)
Lemma js_insert_ext (cmp' : A → A → Z) (x : A) (l : list A) :
  (∀ y, y ∈ l → cmp x y = cmp' x y) →
  js_insert cmp x l = js_insert cmp' x l.
Proof.
  induction l as [|y l IH]; intros H; simpl; [done|].
  rewrite (H y) by (by left). rewrite IH; [done|].
  intros z Hz. apply H. by right.
Qed.

Lemma js_sort_ext (cmp' : A → A → Z) (l : list A) :
  (∀ x y, x ∈ l → y ∈ l → cmp x y = cmp' x y) →
  js_sort cmp l = js_sort cmp' l.
Proof.
  induction l as [|x l IH]; intros H; simpl; [done|].
  rewrite <- IH by (intros a b Ha Hb; apply H; by right).
  apply js_insert_ext. intros y Hy.
  rewrite js_sort_perm in Hy. apply H; [by left|by right].
Qed.

(** The first element of the sorted list is the first of the least
    elements of the list. *)
Lemma js_sort_head_on (l : list A) :
  consistent_on cmp l →
  head (js_sort cmp l) = head (List.filter (least_in cmp l) l).
Proof.
  intros Hc.
  rewrite <- (js_sort_filter (least_in cmp l) l).
  - pose proof (js_sort_sorted_on l Hc) as Hsorted.
    pose proof (js_sort_perm l) as Hperm.
    destruct (js_sort cmp l) as [|c rest]; [done|]. simpl.
    assert (least_in cmp l c = true) as ->; [|done].
    assert (c ∈ l) as Hcl by (rewrite <- Hperm; by left).
    apply forallb_forall. intros d Hd. apply Z.leb_le.
    apply list_elem_of_In in Hd. rewrite <- Hperm in Hd.
    apply StronglySorted_inv in Hsorted as [_ Hrest].
    apply elem_of_cons in Hd as [->|Hd].
    + destruct Hc as [Htotal _]. by destruct (Htotal c c Hcl Hcl).
    + rewrite Forall_forall in Hrest. by apply Hrest.
  - intros x y _ Hy Hx _. unfold least_in in Hx.
    rewrite forallb_forall in Hx. apply Z.leb_le, Hx.
    by apply list_elem_of_In.
Qed.

Lemma js_sort_head (l : list A) :
  consistent cmp →
  head (js_sort cmp l) = head (List.filter (least_in cmp l) l).
Proof. intros Hc. by apply js_sort_head_on, consistent_everywhere. Qed.

End JsSortFacts.

(** ** Doubles

    Comparison of doubles, from the specification of the primitive
    floats. *)

Lemma SFcompare_swap (a b : spec_float) :
  SFcompare b a = CompOpp <$> SFcompare a b.
Proof.
  destruct a as [sa|sa| |sa ma ea], b as [sb|sb| |sb mb eb]; simpl;
    try done; try (by destruct sa); try (by destruct sb);
    try (by destruct sa, sb).
  pose proof (Pos.compare_cont_antisym ma mb Eq) as Hm. simpl in Hm.
  destruct sa, sb; simpl; try done;
    rewrite (Z.compare_antisym ea eb);
    destruct (ea ?= eb); simpl; try done;
    rewrite <- Hm; by destruct (Pos.compare_cont Eq ma mb).
Qed.

Lemma SFcompare_nan_r (x : spec_float) : SFcompare x S754_nan = None.
Proof. by destruct x. Qed.

Lemma SFcompare_refl (x : spec_float) :
  SFcompare x x = None ∨ SFcompare x x = Some Eq.
Proof.
  destruct x as [s|s| |s m e]; simpl.
  - by right.
  - right. by destruct s.
  - by left.
  - right. rewrite Z.compare_refl.
    assert (Pos.compare_cont Eq m m = Eq) as -> by apply Pos.compare_cont_refl.
    by destruct s.
Qed.

Lemma ltb_irrefl (a : float) : (a <? a)%float = false.
Proof.
  rewrite ltb_spec. unfold SFltb.
  by destruct (SFcompare_refl (Prim2SF a)) as [-> | ->].
Qed.

Lemma ltb_asym (a b : float) : (a <? b)%float = true → (b <? a)%float = false.
Proof.
  rewrite !ltb_spec. unfold SFltb.
  rewrite (SFcompare_swap (Prim2SF a) (Prim2SF b)).
  by destruct (SFcompare (Prim2SF a) (Prim2SF b)) as [[]|].
Qed.

Lemma ltb_nan_r (a : float) : (a <? PrimFloat.nan)%float = false.
Proof.
  rewrite ltb_spec. unfold SFltb.
  change (Prim2SF PrimFloat.nan) with S754_nan.
  by rewrite SFcompare_nan_r.
Qed.

Lemma SFcompare_same (x : spec_float) :
  SFcompare x x = if sf_nan x then None else Some Eq.
Proof.
  destruct x as [s|s| |s m e]; simpl; try done.
  - by destruct s.
  - rewrite Z.compare_refl.
    assert (Pos.compare_cont Eq m m = Eq) as -> by apply Pos.compare_cont_refl.
    by destruct s.
Qed.

Lemma is_nan_spec (a : float) : PrimFloat.is_nan a = sf_nan (Prim2SF a).
Proof.
  unfold PrimFloat.is_nan. rewrite FloatAxioms.eqb_spec. unfold SFeqb.
  rewrite SFcompare_same. by destruct (sf_nan _).
Qed.

Lemma compare_total (a b : float) :
  PrimFloat.is_nan a = false → PrimFloat.is_nan b = false →
  ∃ c, SFcompare (Prim2SF a) (Prim2SF b) = Some c.
Proof.
  rewrite !is_nan_spec.
  destruct (Prim2SF a) as [sa|sa| |sa ma ea], (Prim2SF b) as [sb|sb| |sb mb eb];
    try done; by eexists.
Qed.

Lemma leb_not_nan (a b : float) :
  (a <=? b)%float = true →
  PrimFloat.is_nan a = false ∧ PrimFloat.is_nan b = false.
Proof.
  rewrite leb_spec, !is_nan_spec. unfold SFleb.
  by destruct (Prim2SF a) as [sa|sa| |sa ma ea],
              (Prim2SF b) as [sb|sb| |sb mb eb].
Qed.

Lemma ltb_leb (a b : float) : (a <? b)%float = true → (a <=? b)%float = true.
Proof.
  rewrite ltb_spec, leb_spec. unfold SFltb, SFleb.
  by destruct (SFcompare _ _) as [[]|].
Qed.

Lemma leb_refl (a : float) : PrimFloat.is_nan a = false → (a <=? a)%float = true.
Proof.
  rewrite is_nan_spec, leb_spec. unfold SFleb. intros Ha.
  by rewrite SFcompare_same, Ha.
Qed.

(** Of two numbers neither of which is below the other, each is at most
    the other. *)
Lemma leb_of_not_ltb (a b : float) :
  PrimFloat.is_nan a = false → PrimFloat.is_nan b = false →
  (b <? a)%float = false → (a <=? b)%float = true.
Proof.
  intros Ha Hb. destruct (compare_total a b Ha Hb) as [c Hc].
  rewrite ltb_spec, leb_spec. unfold SFltb, SFleb.
  rewrite (SFcompare_swap (Prim2SF a) (Prim2SF b)), Hc. by destruct c.
Qed.

(** A number that is at least another is not below it. *)
Lemma at_least_not_below (n m : float) :
  (m <=? n)%float = true → (n <? m)%float = false.
Proof.
  rewrite leb_spec, ltb_spec. unfold SFleb, SFltb.
  rewrite (SFcompare_swap (Prim2SF m) (Prim2SF n)).
  by destruct (SFcompare (Prim2SF m) (Prim2SF n)) as [[]|].
Qed.

Lemma SFleb_trans (x y z : spec_float) :
  SFleb x y = true → SFleb y z = true → SFleb x z = true.
Proof.
  unfold SFleb.
  destruct x as [sx|sx| |sx mx ex], y as [sy|sy| |sy my ey],
           z as [sz|sz| |sz mz ez]; simpl; try done;
    repeat match goal with s : bool |- _ => destruct s end; simpl; try done;
    change (Pos.compare_cont Eq) with Pos.compare;
    destruct (Z.compare_spec ex ey), (Z.compare_spec ey ez),
             (Z.compare_spec ex ez); subst; simpl; try done; try lia;
    destruct (Pos.compare_spec mx my), (Pos.compare_spec my mz),
             (Pos.compare_spec mx mz); subst; simpl; try done; try lia.
Qed.

Lemma leb_trans (a b c : float) :
  (a <=? b)%float = true → (b <=? c)%float = true → (a <=? c)%float = true.
Proof. rewrite !leb_spec. apply SFleb_trans. Qed.

(** Two numbers that are equal are each at most the other. *)
Lemma eqb_leb (a b : float) :
  (a =? b)%float = true → (a <=? b)%float = true ∧ (b <=? a)%float = true.
Proof.
  rewrite FloatAxioms.eqb_spec, !leb_spec. unfold SFeqb, SFleb.
  rewrite (SFcompare_swap (Prim2SF a) (Prim2SF b)).
  by destruct (SFcompare (Prim2SF a) (Prim2SF b)) as [[]|].
Qed.

(** *** The sign of a difference *)

Lemma digits2_size (p : positive) : digits2_pos p = Pos.size p.
Proof. induction p as [p IH|p IH|]; simpl; by rewrite ?IH. Qed.

Lemma iter_pos_nat {A} (f : A → A) (p : positive) (x : A) :
  SpecFloat.iter_pos f p x = Nat.iter (Pos.to_nat p) f x.
Proof.
  revert x. induction p as [p IH|p IH|]; intros x; [| |done].
  - cbn [SpecFloat.iter_pos]. rewrite !IH, Pos2Nat.inj_xI.
    replace (S (2 * Pos.to_nat p))%nat with (Pos.to_nat p + S (Pos.to_nat p))%nat
      by lia.
    rewrite Nat.iter_add. f_equal. by rewrite Nat.iter_succ_r.
  - cbn [SpecFloat.iter_pos]. rewrite !IH, Pos2Nat.inj_xO.
    replace (2 * Pos.to_nat p)%nat with (Pos.to_nat p + Pos.to_nat p)%nat by lia.
    by rewrite Nat.iter_add.
Qed.

(** Shifting a mantissa right by fewer places than it has digits leaves
    a positive mantissa. *)
Lemma shr_1_iter_pos (k : nat) (m : positive) (r s : bool) :
  (Z.of_nat k < Z.pos (digits2_pos m)) →
  ∃ m', shr_m (Nat.iter k shr_1 {| shr_m := Z.pos m; shr_r := r; shr_s := s |})
        = Z.pos m'.
Proof.
  revert m r s. induction k as [|k IH]; intros m r s Hk.
  - by exists m.
  - rewrite Nat.iter_succ_r.
    destruct m as [p|p|]; simpl in Hk; [| |lia]; simpl; apply IH; lia.
Qed.

(** Arithmetic on the exponents of the double format. *)
Ltac exponents :=
  unfold fexp, SpecFloat.emin in *;
  change emax with 1024 in *; change prec with 53 in *; lia.

Lemma shr_fexp_positive (m : positive) (e : Z) (l : location) :
  emin ≤ e →
  ∃ m', shr_m (shr_fexp prec emax (Z.pos m) e l).1 = Z.pos m'
        ∧ emin ≤ (shr_fexp prec emax (Z.pos m) e l).2.
Proof.
  intros He. unfold shr_fexp, shr. simpl Zdigits2.
  destruct (fexp prec emax (Z.pos (digits2_pos m) + e) - e) as [|n|n] eqn:Hn;
    simpl.
  - exists m. by destruct l as [|[]].
  - rewrite iter_pos_nat.
    assert (Z.of_nat (Pos.to_nat n) < Z.pos (digits2_pos m)) as Hlt.
    { rewrite positive_nat_Z, <- Hn. exponents. }
    destruct l as [|[]]; simpl;
      match goal with
      | |- context [Build_shr_record _ ?r ?s] =>
          destruct (shr_1_iter_pos _ m r s Hlt) as [m' Hm']; exists m';
          split; [exact Hm'|lia]
      end.
  - exists m. by destruct l as [|[]].
Qed.

(** Rounding a positive mantissa with an exponent that is not below the
    least one yields a number of the given sign that is not zero. *)
Lemma binary_round_aux_signed (s : bool) (m : positive) (e : Z) (l : location) :
  emin ≤ e → let x := binary_round_aux prec emax s (Z.pos m) e l in
  x = S754_infinity s ∨ ∃ m' e', x = S754_finite s m' e'.
Proof.
  intros He. unfold binary_round_aux.
  destruct (shr_fexp_positive m e l He) as (m1 & Hm1 & He1).
  destruct (shr_fexp prec emax (Z.pos m) e l) as [mrs1 e1]. simpl in Hm1, He1.
  rewrite Hm1.
  assert (∃ m2, round_nearest_even (Z.pos m1) (loc_of_shr_record mrs1) = Z.pos m2)
    as [m2 ->].
  { unfold round_nearest_even.
    destruct (loc_of_shr_record mrs1) as [|[]]; try by eexists.
    destruct (Z.even (Z.pos m1)); by eexists. }
  destruct (shr_fexp_positive m2 e1 loc_Exact He1) as (m3 & Hm3 & _).
  destruct (shr_fexp prec emax (Z.pos m2) e1 loc_Exact) as [mrs2 e2].
  simpl in Hm3. rewrite Hm3.
  destruct (e2 <=? emax - prec); [right; by eexists _, _|by left].
Qed.

Lemma binary_normalize_signed (M e : Z) :
  emin ≤ e → M ≠ 0 →
  let x := binary_normalize prec emax M e false in
  x = S754_infinity (M <? 0) ∨ ∃ m' e', x = S754_finite (M <? 0) m' e'.
Proof.
  intros He HM. unfold binary_normalize, binary_round.
  destruct M as [|m|m]; [done| |];
    (destruct (shl_align m e _) as [mz ez] eqn:Halign;
     apply binary_round_aux_signed;
     unfold shl_align in Halign;
     destruct (_ - e) eqn:Hd in Halign; injection Halign as <- <-;
     try done; exponents).
Qed.


Lemma iter_xO_value (m d : positive) :
  Z.pos (Pos.iter xO m d) = Z.pos m * 2 ^ Z.pos d.
Proof.
  induction d as [|d IH] using Pos.peano_ind.
  - simpl. lia.
  - rewrite Pos.iter_succ, Pos2Z.inj_xO, IH, Pos2Z.inj_succ, Z.pow_succ_r; lia.
Qed.

Lemma shl_align_value (m : positive) (e e' : Z) :
  e' ≤ e → Z.pos (shl_align m e e').1 = Z.pos m * 2 ^ (e - e').
Proof.
  intros He. unfold shl_align.
  destruct (e' - e) as [|d|d] eqn:Hd; simpl.
  - replace (e - e') with 0 by lia. lia.
  - lia.
  - rewrite iter_xO_value. f_equal. f_equal. lia.
Qed.

(** What validity says of a finite double: its exponent is not below
    the least one, its mantissa has at most 53 digits, and exactly 53
    unless the exponent is the least one. *)
Lemma bounded_digits (m : positive) (e : Z) :
  bounded prec emax m e = true →
  emin ≤ e
  ∧ Z.pos m < 2 ^ 53
  ∧ (emin < e → 2 ^ 52 ≤ Z.pos m).
Proof.
  unfold bounded, canonical_mantissa, fexp. rewrite digits2_size.
  intros H. apply andb_prop in H as [H _]. apply Z.eqb_eq in H.
  change prec with 53 in *.
  pose proof (Pos.size_gt m) as Hgt. pose proof (Pos.size_le m) as Hle.
  apply Pos2Z.pos_lt_pos in Hgt. apply Pos2Z.pos_le_pos in Hle.
  rewrite Pos2Z.inj_pow in Hgt, Hle. rewrite Pos2Z.inj_xO in Hle.
  split; [lia|]. split.
  - eapply Z.lt_le_trans; [exact Hgt|]. apply Z.pow_le_mono_r; lia.
  - intros He. assert (Z.pos (Pos.size m) = 53) as Hsize by lia.
    rewrite Hsize in Hle. change (2 ^ 53) with (2 * 2 ^ 52) in Hle. lia.
Qed.

(** The mantissas of two valid doubles, brought to the lesser of the
    two exponents, compare as the doubles' magnitudes do. *)
Lemma aligned_compare (mx my : positive) (ex ey : Z) :
  bounded prec emax mx ex = true → bounded prec emax my ey = true →
  (Z.pos (shl_align mx ex (Z.min ex ey)).1
   ?= Z.pos (shl_align my ey (Z.min ex ey)).1)
  = match ex ?= ey with
    | Lt => Lt
    | Gt => Gt
    | Eq => Pos.compare_cont Eq mx my
    end.
Proof.
  intros Hx Hy.
  apply bounded_digits in Hx as (Hex & Hmx & Hnx).
  apply bounded_digits in Hy as (Hey & Hmy & Hny).
  rewrite !shl_align_value by lia.
  destruct (Z.compare_spec ex ey) as [->|Hlt|Hgt].
  - rewrite Z.min_id, Z.sub_diag. rewrite !Z.mul_1_r. done.
  - rewrite Z.min_l by lia. rewrite Z.sub_diag, Z.mul_1_r.
    apply Z.compare_lt_iff.
    assert (2 ≤ 2 ^ (ey - ex)) by (apply (Z.pow_le_mono_r 2 1); lia).
    specialize (Hny ltac:(lia)). change (2 ^ 53) with (2 * 2 ^ 52) in Hmx. nia.
  - rewrite Z.min_r by lia. rewrite Z.sub_diag, Z.mul_1_r.
    apply Z.compare_gt_iff.
    assert (2 ≤ 2 ^ (ex - ey)) by (apply (Z.pow_le_mono_r 2 1); lia).
    specialize (Hnx ltac:(lia)). change (2 ^ 53) with (2 * 2 ^ 52) in Hmy. nia.
Qed.

(** A number of a given sign that is not zero compares with zero by its
    sign. *)
Lemma signed_compare (s : bool) (x : spec_float) :
  x = S754_infinity s ∨ (∃ m e, x = S754_finite s m e) →
  SFcompare x (S754_zero false) = Some (if s then Lt else Gt)
  ∧ SFcompare (S754_zero false) x = Some (if s then Gt else Lt).
Proof. intros [->|(m & e & ->)]; by destruct s. Qed.

(** The difference of two doubles is below zero exactly when the first
    is below the second, and above zero exactly when the second is below
    the first; in every other case it is zero or [NaN]. *)
Lemma SFsub_sign (x y : spec_float) :
  valid_binary x = true → valid_binary y = true →
  SFltb (SFsub prec emax x y) (S754_zero false) = SFltb x y
  ∧ SFltb (S754_zero false) (SFsub prec emax x y) = SFltb y x.
Proof.
  intros Hx Hy. unfold SFltb.
  destruct x as [sx|sx| |sx mx ex], y as [sy|sy| |sy my ey];
    try done; try (by destruct sx); try (by destruct sy);
    try (by destruct sx, sy).
  simpl in Hx, Hy.
  pose proof (aligned_compare mx my ex ey Hx Hy) as Hcmp.
  pose proof (aligned_compare my mx ey ex Hy Hx) as Hcmp'.
  rewrite (Z.min_comm ey ex) in Hcmp'.
  destruct (bounded_digits _ _ Hx) as (Hex & _), (bounded_digits _ _ Hy) as (Hey & _).
  unfold SFsub.
  set (ez := Z.min ex ey) in *.
  set (a := Z.pos (shl_align mx ex ez).1) in *.
  set (b := Z.pos (shl_align my ey ez).1) in *.
  set (M := cond_Zopp sx a - cond_Zopp sy b).
  assert (0 < a ∧ 0 < b) as [Ha Hb] by (unfold a, b; lia).
  assert (emin ≤ ez) as Hez by (unfold ez; lia).
  clearbody a b ez.
  assert ((M ?= 0)
          = match sx, sy with
            | true, false => Lt
            | false, true => Gt
            | false, false => a ?= b
            | true, true => b ?= a
            end) as HM.
  { unfold M. destruct sx, sy; unfold cond_Zopp.
    - rewrite (Z.compare_sub b a). f_equal. lia.
    - apply Z.compare_lt_iff. lia.
    - apply Z.compare_gt_iff. lia.
    - by rewrite (Z.compare_sub a b). }
  assert (SFcompare (S754_finite sx mx ex) (S754_finite sy my ey)
          = Some (M ?= 0)
          ∧ SFcompare (S754_finite sy my ey) (S754_finite sx mx ex)
            = Some (CompOpp (M ?= 0))) as [-> ->].
  { rewrite HM. simpl.
    pose proof (Z.compare_antisym ey ex) as Hanti.
    pose proof (Pos.compare_cont_antisym mx my Eq) as Hpos. simpl in Hpos.
    destruct sx, sy; try done.
    - rewrite Hcmp', Hanti.
      destruct (ey ?= ex); simpl; by rewrite ?Hpos.
    - rewrite Hcmp, Hanti.
      destruct (ey ?= ex); simpl; by rewrite <- ?Hpos. }
  destruct (Z.eq_dec M 0) as [HM0|HM0].
  - fold M. rewrite HM0. done.
  - pose proof (binary_normalize_signed M ez Hez HM0) as Hs.
    apply signed_compare in Hs as [-> ->].
    destruct (Z.compare_spec M 0) as [?|Hneg|Hpos]; [done| |].
    + by rewrite (proj2 (Z.ltb_lt M 0) Hneg).
    + by rewrite (proj2 (Z.ltb_ge M 0)) by lia.
Qed.

Lemma sign_of_sub (x y : float) :
  sign_of (x - y)
  = if (x <? y)%float then -1 else if (y <? x)%float then 1 else 0.
Proof.
  unfold sign_of. rewrite !ltb_spec, sub_spec. unfold SF64sub.
  change (Prim2SF 0) with (S754_zero false).
  by destruct (SFsub_sign (Prim2SF x) (Prim2SF y)
                 (Prim2SF_valid x) (Prim2SF_valid y)) as [-> ->].
Qed.

(** ** Topic flattening *)

(** What the comparator of [flattenTopics] returns, by comparison of the
    two orders. *)
Lemma by_order_spec (a b : candidate) :
  by_order a b
  = if (cand_order a <? cand_order b)%float then -1
    else if (cand_order b <? cand_order a)%float then 1 else 0.
Proof. apply sign_of_sub. Qed.

Lemma by_order_not_after (a b : candidate) :
  by_order a b ≤ 0 ↔ (cand_order b <? cand_order a)%float = false.
Proof.
  rewrite by_order_spec.
  destruct (cand_order a <? cand_order b)%float eqn:Hab.
  - rewrite (ltb_asym _ _ Hab). split; [done|lia].
  - destruct (cand_order b <? cand_order a)%float; split; try done; lia.
Qed.

Lemma by_order_leb (a b : candidate) :
  PrimFloat.is_nan (cand_order a) = false →
  PrimFloat.is_nan (cand_order b) = false →
  by_order a b ≤ 0 ↔ (cand_order a <=? cand_order b)%float = true.
Proof.
  intros Ha Hb. rewrite by_order_not_after.
  split; [by apply leb_of_not_ltb|apply at_least_not_below].
Qed.

(** On candidates none of whose orders is [NaN] the comparator is
    consistent. *)
Lemma by_order_consistent (l : list candidate) :
  Forall (fun c => PrimFloat.is_nan (cand_order c) = false) l →
  consistent_on by_order l.
Proof.
  rewrite Forall_forall. intros Hl. split.
  - intros a b _ _. rewrite !by_order_not_after.
    destruct (cand_order b <? cand_order a)%float eqn:Hba; [right|by left].
    by apply ltb_asym.
  - intros a b c Ha Hb Hc. rewrite !by_order_leb by (by apply Hl).
    apply leb_trans.
Qed.

(** Candidates whose orders equal one number compare as equal. *)
Lemma by_order_same (a b : candidate) (k : float) :
  (cand_order a =? k)%float = true → (cand_order b =? k)%float = true →
  by_order a b ≤ 0.
Proof.
  intros Ha Hb. apply by_order_not_after, at_least_not_below.
  apply eqb_leb in Ha as [Ha _]. apply eqb_leb in Hb as [_ Hb].
  by apply (leb_trans _ k).
Qed.

(** The level number is the number that the first run of digits of the
    name writes. *)
Lemma match_digits_first (before digits after : string) :
  digit_free before = true → digits ≠ "" → all_digits digits = true →
  no_digit_ahead after = true →
  match_digits (before +:+ digits +:+ after) = Some digits.
Proof.
  intros Hbefore Hne Hdigits Hafter.
  induction before as [|c before IH].
  - rewrite append_nil.
    assert (span_digits (digits +:+ after) = (digits, after)) as Hspan.
    { clear Hne. induction digits as [|d digits IH].
      - rewrite append_nil. destruct after as [|a after]; [done|].
        simpl in *. by destruct (is_digit a).
      - unfold all_digits in Hdigits. simpl in Hdigits.
        apply andb_prop in Hdigits as [Hd Hrest].
        rewrite append_cons. simpl. rewrite Hd. by rewrite IH. }
    destruct digits as [|d digits]; [done|].
    unfold all_digits in Hdigits. simpl in Hdigits.
    apply andb_prop in Hdigits as [Hd _].
    rewrite append_cons in Hspan |- *. cbn [match_digits].
    by rewrite Hd, Hspan.
  - unfold digit_free in Hbefore. simpl in Hbefore.
    apply andb_prop in Hbefore as [Hc Hrest].
    rewrite append_cons. cbn [match_digits].
    destruct (is_digit c); [done|]. by apply IH.
Qed.

Lemma match_digits_none (name : string) :
  digit_free name = true → match_digits name = None.
Proof.
  induction name as [|c name IH]; [done|].
  unfold digit_free. simpl. intros H. apply andb_prop in H as [Hc Hrest].
  destruct (is_digit c); [done|]. by apply IH.
Qed.

Lemma for_topics_named lv cat tps items :
  (tps = [] ∨ is_Some (l_level lv)) →
  for_topics lv cat tps items
  = Ok (items ++ map (fun tp => candidate_of (lv, cat, tp)) tps).
Proof.
  intros [->|[name Hname]]; simpl.
  - by rewrite app_nil_r.
  - revert items. induction tps as [|tp tps IH]; intros items; simpl.
    + by rewrite app_nil_r.
    + unfold push_topic. rewrite Hname. simpl. rewrite IH.
      rewrite <- app_assoc. simpl. by rewrite Hname.
Qed.

Lemma for_topics_nameless lv cat tp tps items :
  l_level lv = None → for_topics lv cat (tp :: tps) items = Throw TypeError.
Proof. intros H. simpl. unfold push_topic. by rewrite H. Qed.

Lemma for_categories_named lv cats items :
  Forall has_name (topics_of_categories lv cats) →
  for_categories lv cats items
  = Ok (items ++ map candidate_of (topics_of_categories lv cats)).
Proof.
  revert items. induction cats as [|cat cats IH]; intros items H; simpl.
  - by rewrite app_nil_r.
  - simpl in H. apply Forall_app in H as [Hcat Hcats].
    destruct (c_topics cat) as [tps|] eqn:Htps; simpl in *.
    + rewrite for_topics_named.
      * simpl. rewrite IH by done.
        by rewrite map_app, app_assoc, map_map.
      * destruct tps as [|tp tps]; [by left|right].
        by inversion Hcat.
    + by apply IH.
Qed.

Lemma for_levels_named levels items :
  Forall has_name (nested_topics levels) →
  for_levels levels items = Ok (items ++ map candidate_of (nested_topics levels)).
Proof.
  revert items. induction levels as [|lv levels IH]; intros items H; simpl.
  - by rewrite app_nil_r.
  - simpl in H. apply Forall_app in H as [Hlv Hlevels].
    destruct (l_categories lv) as [cats|] eqn:Hcats; simpl in *.
    + rewrite for_categories_named by done.
      simpl. rewrite IH by done.
      by rewrite map_app, app_assoc.
    + by apply IH.
Qed.

(** A level without a name that has a topic makes the load throw. *)
Lemma for_categories_nameless lv cats items :
  l_level lv = None → topics_of_categories lv cats ≠ [] →
  for_categories lv cats items = Throw TypeError.
Proof.
  intros Hname. revert items.
  induction cats as [|cat cats IH]; intros items H; simpl in *; [done|].
  destruct (c_topics cat) as [[|tp tps]|] eqn:Htps; simpl in *.
  - by apply IH.
  - unfold push_topic. by rewrite Hname.
  - by apply IH.
Qed.

Lemma for_levels_nameless levels items :
  Exists (fun x => ¬ has_name x) (nested_topics levels) →
  for_levels levels items = Throw TypeError.
Proof.
  revert items. induction levels as [|lv levels IH]; intros items H; simpl in *.
  - inversion H.
  - apply Exists_app in H.
    destruct (l_categories lv) as [cats|] eqn:Hcats; simpl in *.
    + destruct (decide (Forall has_name (topics_of_categories lv cats)))
        as [Hall|Hnot].
      * rewrite for_categories_named by done. simpl. apply IH.
        destruct H as [H|H]; [|done].
        apply Exists_exists in H as (x & Hx & Hn).
        rewrite Forall_forall in Hall. destruct Hn. apply Hall. exact Hx.
      * rewrite for_categories_nameless; [done| |].
        -- apply not_Forall_Exists in Hnot; [|intros x; apply _].
           apply Exists_exists in Hnot as (x & Hx & Hn).
           unfold topics_of_categories in Hx.
           apply list_elem_of_In, in_flat_map in Hx as (cat & _ & Hx).
           apply in_map_iff in Hx as (tp & <- & _).
           unfold has_name in Hn. simpl in Hn.
           by destruct (l_level lv); [destruct Hn|].
        -- intros Hnil. rewrite Hnil in Hnot. by destruct Hnot.
    + destruct H as [H|H]; [inversion H|by apply IH].
Qed.

Lemma StronglySorted_mono {A} (R S : A → A → Prop) (l : list A) :
  (∀ a b, R a b → S a b) → StronglySorted R l → StronglySorted S l.
Proof.
  intros HRS. induction 1 as [|x l Hl IH Hx]; constructor; [done|].
  eapply Forall_impl; [exact Hx|]. intros y. apply HRS.
Qed.

Lemma candidate_of_order (x : level * category * topic) :
  cand_order (candidate_of x) = order_key x.
Proof. by destruct x as [[lv cat] tp]. Qed.

(** C9, amended.  When every level that has a topic has a name,
    [flattenTopics] returns the candidates of the nested traversal: the
    order of each is level number x 1000 + recommended order x 100 +
    topic order in double arithmetic, a missing number (and a name
    without digits) counting as 0, the level number being the number
    that the first run of digits of the level name writes; when no order
    is [NaN] the result is sorted ascending by order, and candidates of
    equal order keep their traversal order.  When some level that has a
    topic has no name, the load throws. *)
Theorem flattenTopics_ordered (levels : list level) :
  (Forall has_name (nested_topics levels) →
   ∃ items,
     flattenTopics levels = Ok items
     ∧ items ≡ₚ map candidate_of (nested_topics levels)
     ∧ map cand_order (map candidate_of (nested_topics levels))
       = map order_key (nested_topics levels)
     ∧ (Forall (fun x => PrimFloat.is_nan (order_key x) = false)
          (nested_topics levels) →
        StronglySorted
          (fun a b => (cand_order a <=? cand_order b)%float = true) items
        ∧ ∀ k, List.filter (fun c => (cand_order c =? k)%float) items
               = List.filter (fun c => (cand_order c =? k)%float)
                   (map candidate_of (nested_topics levels))))
  ∧ (¬ Forall has_name (nested_topics levels) →
     flattenTopics levels = Throw TypeError)
  ∧ (∀ before digits after,
       digit_free before = true → digits ≠ "" → all_digits digits = true →
       no_digit_ahead after = true →
       level_number (before +:+ digits +:+ after)
       = Z_number (digits_value digits))
  ∧ (∀ name, digit_free name = true → level_number name = 0%float)
  ∧ or_zero None = 0%float
  ∧ (∀ v, or_zero (Some v)
          = if PrimFloat.is_zero v || PrimFloat.is_nan v then 0%float else v).
Proof.
  split; [|split; [|split; [|split; [|split]]]].
  - intros Hnamed. eexists. unfold flattenTopics.
    rewrite for_levels_named by done. simpl.
    split; [done|]. split; [apply js_sort_perm|].
    split; [rewrite map_map; apply map_ext, candidate_of_order|].
    intros Hnan.
    assert (Forall (fun c => PrimFloat.is_nan (cand_order c) = false)
              (map candidate_of (nested_topics levels))) as Hnan'.
    { rewrite Forall_map. eapply Forall_impl; [exact Hnan|].
      intros x Hx. simpl. by rewrite candidate_of_order. }
    split.
    + pose proof (js_sort_sorted_on by_order _
                    (by_order_consistent _ Hnan')) as Hsorted.
      rewrite <- (js_sort_perm by_order) in Hnan'.
      revert Hnan' Hsorted.
      generalize (js_sort by_order (map candidate_of (nested_topics levels))).
      intros items Hitems Hsorted.
      induction Hsorted as [|c items Hsorted IH Hfirst]; [constructor|].
      apply Forall_cons in Hitems as [Hc0 Hitems].
      constructor; [by apply IH|].
      rewrite Forall_forall in Hfirst, Hitems |- *. intros d Hd.
      apply by_order_leb; [done|by apply Hitems|by apply Hfirst].
    + intros k. apply js_sort_filter. intros x y _ _ Hx Hy.
      by apply (by_order_same x y k).
  - intros Hnot. unfold flattenTopics.
    rewrite for_levels_nameless; [done|].
    apply not_Forall_Exists in Hnot; [done|].
    intros x. apply _.
  - intros before digits after Hbefore Hne Hdigits Hafter.
    unfold level_number. by rewrite match_digits_first.
  - intros name Hname. unfold level_number. by rewrite match_digits_none.
  - done.
  - done.
Qed.

(** ** Candidate selector *)

Lemma is_empty_true (s : string) : is_empty s = true ↔ s = "".
Proof. by destruct s. Qed.

Lemma remember_lookup map e i :
  remember map e !! i
  = if decide (recorded e = Some i) then Some (e_date e) else map !! i.
Proof.
  unfold remember, recorded.
  destruct (e_meta e) as [m|]; [|by case_decide].
  destruct (is_empty (m_id m)); [by case_decide|].
  case_decide as H.
  - injection H as ->. apply lookup_insert_eq.
  - apply lookup_insert_ne. congruence.
Qed.

Lemma fold_remember_is_Some h map i :
  is_Some (fold_left remember h map !! i)
  ↔ is_Some (map !! i) ∨ Exists (fun e => recorded e = Some i) h.
Proof.
  revert map. induction h as [|e h IH]; intros map; simpl.
  - rewrite Exists_nil. split; [by left|by intros [?|[]]].
  - rewrite IH, remember_lookup, Exists_cons.
    case_decide as He.
    + split; [by right; left|]. intros _. left. eauto.
    + split.
      * intros [?|?]; [by left|by right; right].
      * intros [?|[?|?]]; [by left|done|by right].
Qed.

Lemma summary_is_Some h i :
  is_Some (summarizeHistory h !! i) ↔ Exists (fun e => recorded e = Some i) h.
Proof.
  unfold summarizeHistory. rewrite fold_remember_is_Some, lookup_empty.
  split; [|by right]. intros [[? [=]]|]; done.
Qed.

(** The date the map keeps for an id is the one of the last entry of the
    list that records it: a later [set] overwrites an earlier one. *)
Lemma summary_last_wins h e i :
  recorded e = Some i →
  Forall (fun e' => recorded e' ≠ Some i) h →
  ∀ h0, summarizeHistory (h0 ++ e :: h) !! i = Some (e_date e).
Proof.
  intros He Hh h0. unfold summarizeHistory.
  rewrite fold_left_app. simpl.
  generalize (fold_left remember h0 ∅). intros map.
  assert (remember map e !! i = Some (e_date e)) as Hstart.
  { rewrite remember_lookup. by case_decide. }
  revert Hstart. generalize (remember map e). clear map.
  induction Hh as [|e' h He' Hh IH]; intros map Hmap; simpl; [done|].
  apply IH. rewrite remember_lookup. by case_decide.
Qed.

Lemma has_true summary c :
  has summary c = true ↔ is_Some (summary !! cand_id c).
Proof. unfold has. apply bool_decide_eq_true. Qed.

Lemma find_skip {A} (P : A → bool) (skipped rest : list A) :
  Forall (fun x => P x = false) skipped →
  List.find P (skipped ++ rest) = List.find P rest.
Proof.
  induction 1 as [|x l Hx _ IH]; simpl; [done|]. by rewrite Hx.
Qed.

(** The primary rule: the first candidate whose id the history does not
    record is the one picked. *)
Lemma pickCandidate_first_unused used c rest history :
  Forall (fun d => Exists (fun e => recorded e = Some (cand_id d)) history) used →
  ¬ Exists (fun e => recorded e = Some (cand_id c)) history →
  pickCandidate (used ++ c :: rest) history = Some c.
Proof.
  intros Hused Hc.
  assert (List.find (fun d => negb (has (summarizeHistory history) d))
            (used ++ c :: rest) = Some c) as Hfind.
  { rewrite find_skip.
    - simpl. destruct (has _ c) eqn:Hhas; [|done].
      apply has_true, summary_is_Some in Hhas. by destruct Hc.
    - eapply Forall_impl; [exact Hused|]. intros d Hd. simpl in Hd.
      apply negb_false_iff, has_true, summary_is_Some, Hd. }
  unfold pickCandidate. rewrite Hfind. by destruct used.
Qed.

Lemma lesson_meta_recorded e c :
  e_meta e = Some (lesson_meta c) → cand_id c ≠ "" →
  recorded e = Some (cand_id c).
Proof.
  intros Hmeta Hid. unfold recorded. rewrite Hmeta. simpl.
  destruct (is_empty (cand_id c)) eqn:Hempty; [|done].
  by apply is_empty_true in Hempty.
Qed.

Lemma selections_from lesson candidates :
  NoDup (map cand_id candidates) →
  Forall (fun c => cand_id c ≠ "") candidates →
  (∀ c k, e_meta (lesson c k) = Some (lesson_meta c)) →
  ∀ rest used history,
    candidates = used ++ rest →
    (∀ i, Exists (fun e => recorded e = Some i) history
          ↔ i ∈ map cand_id used) →
    selections lesson candidates (length rest) history = map Some rest.
Proof.
  intros Hnodup Hids Hlesson.
  induction rest as [|c rest IH]; intros used history Hsplit Hhist; [done|].
  simpl. subst candidates.
  rewrite pickCandidate_first_unused.
  - f_equal. apply (IH (used ++ [c])); [by rewrite <- app_assoc|].
    intros i. rewrite Exists_cons, Hhist, map_app, elem_of_app. simpl.
    rewrite list_elem_of_singleton, (lesson_meta_recorded _ c);
      [|done|].
    { split; intros [H|H]; [right; congruence|by left|by right|left; congruence]. }
    rewrite Forall_app, Forall_cons in Hids. by destruct Hids as [_ [? _]].
  - apply Forall_forall. intros d Hd. apply Hhist.
    by apply list_elem_of_fmap_2.
  - rewrite Hhist. rewrite map_app in Hnodup. simpl in Hnodup.
    apply NoDup_app in Hnodup as (_ & Hnotin & _).
    intros Hin. apply (Hnotin _ Hin). by left.
Qed.

(** C1, amended.  For a catalog of candidates whose ids are distinct and
    not empty, and an empty history, running the selector once per
    candidate, each choice being put in front of the history as an entry
    carrying the candidate's id, selects the candidates in catalog order,
    each exactly once. *)
Theorem sequential_coverage lesson candidates :
  NoDup (map cand_id candidates) →
  Forall (fun c => cand_id c ≠ "") candidates →
  (∀ c k, e_meta (lesson c k) = Some (lesson_meta c)) →
  selections lesson candidates (length candidates) [] = map Some candidates.
Proof.
  intros Hnodup Hids Hlesson.
  apply (selections_from lesson candidates Hnodup Hids Hlesson candidates []);
    [done|].
  intros i. rewrite Exists_nil. simpl. by rewrite elem_of_nil.
Qed.

(** X3.  The fallback rule as the code has it: when the history records
    every candidate and every stored date is a valid one, the candidate
    picked is the first, in catalog order, of those whose stored date is
    the least.  The stored date is the one [summarizeHistory] keeps. *)
Lemma pickCandidate_recycles candidates history :
  candidates ≠ [] →
  Forall (fun c => is_Some (stored_time (summarizeHistory history) c))
    candidates →
  pickCandidate candidates history
  = head (List.filter
            (least_in (fun a b => stored_or_zero history a
                                  - stored_or_zero history b) candidates)
            candidates).
Proof.
  intros Hne Hvalid. unfold pickCandidate.
  destruct candidates as [|c0 rest] eqn:Hlist; [done|]. rewrite <- Hlist in *.
  clear Hne.
  assert (Forall (fun c => has (summarizeHistory history) c = true) candidates)
    as Hused.
  { eapply Forall_impl; [exact Hvalid|]. intros c [t Ht]. simpl.
    apply has_true. unfold stored_time in Ht.
    by destruct (summarizeHistory history !! cand_id c). }
  assert (List.find (fun c => negb (has (summarizeHistory history) c))
            candidates = None) as ->.
  { clear -Hused. induction Hused as [|c l Hc _ IH]; [done|].
    simpl. by rewrite Hc. }
  assert (List.filter (has (summarizeHistory history)) candidates = candidates)
    as ->.
  { clear -Hused. induction Hused as [|c l Hc _ IH]; [done|].
    simpl. by rewrite Hc, IH. }
  rewrite (js_sort_ext _
             (fun a b => stored_or_zero history a - stored_or_zero history b)).
  - rewrite <- js_sort_head by (split; intros; lia).
    destruct (js_sort _ candidates) as [|c sorted] eqn:Hsorted; [|done].
    apply (f_equal length) in Hsorted.
    rewrite js_sort_length, Hlist in Hsorted. done.
  - intros a b Ha Hb. rewrite Forall_forall in Hvalid.
    destruct (Hvalid a Ha) as [ta Hta], (Hvalid b Hb) as [tb Htb].
    unfold by_stored_time, stored_or_zero. by rewrite Hta, Htb.
Qed.

(** ** History store *)

Lemma filed_under_spec archiveDir file e :
  filed_under archiveDir file e = true
  ↔ ∃ month, pickMonth e = Some month ∧ month ≠ ""
             ∧ file = archivePath archiveDir month.
Proof.
  unfold filed_under. destruct (pickMonth e) as [m|]; [|split; [done|]].
  - rewrite andb_true_iff, negb_true_iff, String.eqb_eq. split.
    + intros [Hm <-]. exists m. split; [done|]. split; [|done].
      intros ->. done.
    + intros (month & [= <-] & Hne & ->). split; [|done].
      by destruct m.
  - by intros (month & [=] & _).
Qed.

Lemma archive_entry_lookup archiveDir files e file :
  archive_entry archiveDir files e !! file
  = if filed_under archiveDir file e
    then Some (js_sort by_date (default [] (files !! file) ++ [e]))
    else files !! file.
Proof.
  unfold archive_entry, filed_under.
  destruct (pickMonth e) as [m|] eqn:Hm; [|done].
  destruct (is_empty m) eqn:Hempty; [done|]. simpl.
  destruct (String.eqb_spec (archivePath archiveDir m) file) as [<-|Hne].
  - by rewrite lookup_insert_eq.
  - by rewrite lookup_insert_ne.
Qed.

Lemma archive_fold_perm archiveDir evicted files file :
  default [] (fold_left (archive_entry archiveDir) evicted files !! file)
  ≡ₚ default [] (files !! file)
     ++ List.filter (filed_under archiveDir file) evicted.
Proof.
  revert files. induction evicted as [|e evicted IH]; intros files; simpl.
  - by rewrite app_nil_r.
  - rewrite IH, archive_entry_lookup.
    destruct (filed_under archiveDir file e); simpl; [|done].
    rewrite js_sort_perm. by rewrite <- app_assoc.
Qed.

Lemma archive_fold_untouched archiveDir evicted files file :
  Forall (fun e => filed_under archiveDir file e = false) evicted →
  fold_left (archive_entry archiveDir) evicted files !! file = files !! file.
Proof.
  intros H. revert files.
  induction H as [|e evicted He _ IH]; intros files; simpl; [done|].
  by rewrite IH, archive_entry_lookup, He.
Qed.

Lemma by_date_consistent : consistent localeCompare → consistent by_date.
Proof.
  intros [Htotal Htrans]. split; unfold by_date.
  - intros a b. apply Htotal.
  - intros a b c. apply Htrans.
Qed.

Lemma archive_fold_sorted archiveDir evicted files file :
  consistent localeCompare →
  StronglySorted (not_after by_date) (default [] (files !! file))
  ∨ Exists (fun e => filed_under archiveDir file e = true) evicted →
  StronglySorted (not_after by_date)
    (default [] (fold_left (archive_entry archiveDir) evicted files !! file)).
Proof.
  intros Hc. revert files.
  induction evicted as [|e evicted IH]; intros files H; simpl.
  - destruct H as [H|H]; [done|inversion H].
  - apply IH. rewrite archive_entry_lookup.
    destruct (filed_under archiveDir file e) eqn:He; simpl.
    + left. by apply js_sort_sorted, by_date_consistent.
    + destruct H as [H|H]; [by left|].
      right. inversion H; subst; [congruence|done].
Qed.

(** What is kept is the first [limit] entries. *)
Lemma roll_kept items limit archiveDir files :
  (rollWindowAndArchive items limit archiveDir files).1 = take limit items.
Proof.
  unfold rollWindowAndArchive.
  destruct (Nat.leb_spec (length items) limit); simpl; [|done].
  by rewrite take_ge.
Qed.

(** C3, amended.  [rollWindowAndArchive] keeps the first [limit] entries
    (all of them when there are no more), so at most [limit]; every
    evicted entry whose date has a non-empty year-month prefix (its
    first seven UTF-16 code units) is added once to one archive file,
    the one that the path [<year-month>.json] joined to the archive
    directory by [path.join] names, and to no other file (two prefixes
    whose paths name one file share it); an evicted entry without such a
    prefix goes to no file; a file that received an entry is sorted
    ascending by date (whenever [localeCompare] is a consistent order),
    and every other file is left as it was. *)
Theorem roll_keeps_and_archives items limit archiveDir files :
  let kept := (rollWindowAndArchive items limit archiveDir files).1 in
  let files' := (rollWindowAndArchive items limit archiveDir files).2 in
  kept = take limit items
  ∧ ((length items ≤ limit)%nat → kept = items ∧ files' = files)
  ∧ (length kept ≤ limit)%nat
  ∧ (∀ file,
       default [] (files' !! file)
       ≡ₚ default [] (files !! file)
          ++ List.filter (filed_under archiveDir file) (drop limit items))
  ∧ (∀ file,
       Forall (fun e => filed_under archiveDir file e = false)
         (drop limit items) →
       files' !! file = files !! file)
  ∧ (consistent localeCompare →
     ∀ file,
       Exists (fun e => filed_under archiveDir file e = true)
         (drop limit items) →
       StronglySorted (not_after by_date) (default [] (files' !! file)))
  ∧ (∀ e date file,
       e_date e = Some date →
       filed_under archiveDir file e = true
       ↔ slice_units 7 0 date ≠ ""
         ∧ file = file_at (path_join archiveDir
                             (slice_units 7 0 date +:+ ".json")))
  ∧ (∀ e file, e_date e = None → filed_under archiveDir file e = false).
Proof.
  assert (∀ e date file,
            e_date e = Some date →
            filed_under archiveDir file e = true
            ↔ slice_units 7 0 date ≠ ""
              ∧ file = file_at (path_join archiveDir
                                  (slice_units 7 0 date +:+ ".json")))
    as Hdated.
  { intros e date file Hdate. rewrite filed_under_spec.
    unfold pickMonth, archivePath. rewrite Hdate. simpl. split.
    - by intros (month & [= <-] & Hne & ->).
    - intros [Hne ->]. by eexists. }
  assert (∀ e file, e_date e = None → filed_under archiveDir file e = false)
    as Hundated.
  { intros e file Hdate. unfold filed_under, pickMonth. by rewrite Hdate. }
  unfold rollWindowAndArchive.
  destruct (Nat.leb_spec (length items) limit) as [Hle|Hgt]; simpl.
  - rewrite take_ge, drop_ge by done. simpl.
    split; [done|]. split; [done|]. split; [done|].
    split; [intros file; by rewrite app_nil_r|].
    split; [done|].
    split; [|done].
    intros _ file H. inversion H.
  - split; [done|]. split; [lia|].
    split; [rewrite length_take; lia|].
    split; [intros file; apply archive_fold_perm|].
    split; [intros file; apply archive_fold_untouched|].
    split; [|done].
    intros Hc file H. apply archive_fold_sorted; [done|by right].
Qed.

(** ** Generation pipeline *)

Lemma callLLM_no_key e p w :
  has_credential e = false → callLLM e p w = (Throw MissingKey, w).
Proof.
  unfold has_credential, callLLM. destruct (apiKey e) as [k|]; [|done].
  by destruct (is_empty k).
Qed.

Lemma callLLM_with_key e p w :
  has_credential e = true →
  callLLM e p w
  = (match backend (length (requests w)) p with
     | Some content => Ok content
     | None => Throw ApiError
     end, log_request p w).
Proof.
  unfold has_credential, callLLM. destruct (apiKey e) as [k|]; [|done].
  destruct (is_empty k); [done|]. by destruct (backend _ p).
Qed.

Lemma callLLM_ok e p w content w' :
  callLLM e p w = (Ok content, w') →
  has_credential e = true
  ∧ backend (length (requests w)) p = Some content
  ∧ w' = log_request p w.
Proof.
  destruct (has_credential e) eqn:Hkey.
  - rewrite callLLM_with_key by done.
    destruct (backend _ p); intros [= <- <-]; done.
  - by rewrite callLLM_no_key.
Qed.

Lemma stage_with_key e p w :
  has_credential e = true →
  stage e p w
  = (match backend (length (requests w)) p with
     | Some content => parseJSON content
     | None => Throw ApiError
     end, log_request p w).
Proof.
  intros Hkey. unfold stage, bind, lift. rewrite callLLM_with_key by done.
  by destruct (backend _ p).
Qed.

Lemma stage_no_key e p w :
  has_credential e = false → stage e p w = (Throw MissingKey, w).
Proof.
  intros Hkey. unfold stage, bind. by rewrite callLLM_no_key.
Qed.

Lemma generateLesson_no_key e c h w :
  has_credential e = false → generateLesson e c h w = (Throw MissingKey, w).
Proof.
  intros Hkey. unfold generateLesson, bind. by rewrite callLLM_no_key.
Qed.

Lemma quiet_ret {A} (a : A) : quiet (ret a).
Proof. intros w r w' [= <- <-]. repeat split. exists []. by rewrite app_nil_r. Qed.

Lemma quiet_lift {A} (r : result A) : quiet (lift r).
Proof. intros w r' w' [= <- <-]. repeat split. exists []. by rewrite app_nil_r. Qed.

Lemma quiet_bind {A B} (m : M A) (k : A → M B) :
  quiet m → (∀ a, quiet (k a)) → quiet (bind m k).
Proof.
  intros Hm Hk w r w'. unfold bind.
  destruct (m w) as [[a|e] w1] eqn:Hmw.
  - intros Hkw. apply Hm in Hmw as (Hs1 & Hd1 & Ha1 & sent1 & Hsent1).
    apply Hk in Hkw as (Hs2 & Hd2 & Ha2 & sent2 & Hsent2).
    split; [congruence|]. split; [congruence|]. split; [congruence|].
    exists (sent1 ++ sent2). by rewrite Hsent2, Hsent1, app_assoc.
  - intros [= <- <-]. by apply Hm in Hmw.
Qed.

Lemma quiet_callLLM e p : quiet (callLLM e p).
Proof.
  intros w r w'. destruct (has_credential e) eqn:Hkey.
  - rewrite callLLM_with_key by done. intros [= <- <-].
    repeat split. by exists [p].
  - rewrite callLLM_no_key by done. intros [= <- <-].
    repeat split. exists []. by rewrite app_nil_r.
Qed.

Lemma quiet_draw_uuid : quiet draw_uuid.
Proof.
  intros w r w' [= <- <-]. repeat split. exists []. simpl. by rewrite app_nil_r.
Qed.

Lemma quiet_generateLesson e c h : quiet (generateLesson e c h).
Proof.
  unfold generateLesson.
  repeat (apply quiet_bind; [first [apply quiet_callLLM|apply quiet_lift]|intros ?]).
  match goal with |- quiet (if ?b then _ else _) => destruct b end;
    [|apply quiet_ret].
  repeat (apply quiet_bind; [first [apply quiet_callLLM|apply quiet_lift]|intros ?]).
  apply quiet_lift.
Qed.

Lemma quiet_coerceLesson c lesson date : quiet (coerceLesson c lesson date).
Proof.
  unfold coerceLesson.
  repeat (apply quiet_bind;
          [first [apply quiet_draw_uuid|apply quiet_lift]|intros ?]).
  apply quiet_ret.
Qed.

Lemma quiet_attempt cfg c h : quiet (attempt cfg c h).
Proof.
  unfold attempt. apply quiet_bind; [apply quiet_generateLesson|].
  intros content. apply quiet_coerceLesson.
Qed.

Lemma attempt_no_key cfg c h w :
  has_credential (env cfg) = false →
  attempt cfg c h w = (Throw MissingKey, w).
Proof.
  intros Hkey. unfold attempt, bind. by rewrite generateLesson_no_key.
Qed.

(** ** Orchestrator *)

(** The retry loop of a dry run: one attempt, no delay. *)
Lemma retry_loop_dry fuel cfg c h w :
  dryRun cfg = true →
  retry_loop (S fuel) cfg c h 0 w
  = match attempt cfg c h w with
    | (Ok lesson, w1) => (Break lesson, w1)
    | (Throw _, w1) => (ExitLoop 1, w1)
    end.
Proof.
  intros Hdry. simpl. rewrite Hdry. simpl.
  by destruct (attempt cfg c h w) as [[lesson|e] w1].
Qed.

(** The retry loop of a normal run: up to three attempts, a delay of
    2000 ms before the second and of 5000 ms before the third. *)
Lemma retry_loop_normal cfg c h w :
  dryRun cfg = false →
  retry_loop 3 cfg c h 0 w
  = match attempt cfg c h w with
    | (Ok lesson, w1) => (Break lesson, w1)
    | (Throw _, w1) =>
        match attempt cfg c h (sleep 2000 w1) with
        | (Ok lesson, w2) => (Break lesson, w2)
        | (Throw _, w2) =>
            match attempt cfg c h (sleep 5000 w2) with
            | (Ok lesson, w3) => (Break lesson, w3)
            | (Throw _, w3) => (ExitLoop 1, w3)
            end
        end
    end.
Proof.
  intros Hdry. simpl. rewrite Hdry. simpl.
  change (backoff (0 + 1 - 1)) with 2000.
  change (backoff (0 + 1 + 1 - 1)) with 5000.
  destruct (attempt cfg c h w) as [[lesson|e] w1]; [done|].
  destruct (attempt cfg c h (sleep 2000 w1)) as [[lesson|e2] w2]; [done|].
  by destruct (attempt cfg c h (sleep 5000 w2)) as [[lesson|e3] w3].
Qed.

(** The fuel [main] gives the loop is enough: the process always ends. *)
Lemma main_finishes cfg w : (main cfg w).1 ≠ Unfinished.
Proof.
  unfold main.
  destruct (flattenTopics _) as [candidates|]; [|done].
  destruct (_ && _); [done|].
  destruct (pickCandidate _ _) as [c|]; [|done].
  destruct (dryRun cfg) eqn:Hdry.
  - rewrite retry_loop_dry by done.
    destruct (attempt _ _ _ _) as [[lesson|e] w1]; [|done].
    by destruct (rollWindowAndArchive _ _ _ _).
  - rewrite retry_loop_normal by done.
    destruct (attempt _ _ _ w) as [[lesson|e] w1];
      [by destruct (rollWindowAndArchive _ _ _ _)|].
    destruct (attempt _ _ _ (sleep 2000 w1)) as [[lesson|e2] w2];
      [by destruct (rollWindowAndArchive _ _ _ _)|].
    destruct (attempt _ _ _ (sleep 5000 w2)) as [[lesson|e3] w3]; [|done].
    by destruct (rollWindowAndArchive _ _ _ _).
Qed.

(** What [main] does once a candidate is picked and the loop has ended
    with a lesson. *)
Lemma main_after_break cfg w candidates c lesson w1 :
  flattenTopics (topicsRaw cfg) = Ok candidates →
  generated_today (daily w) (todayStr cfg) && negb (dryRun cfg) = false →
  pickCandidate candidates (daily w) = Some c →
  retry_loop 3 cfg c (daily w) 0 w = (Break lesson, w1) →
  (main cfg w).1 = Returned
  ∧ slept (main cfg w).2 = slept w1
  ∧ requests (main cfg w).2 = requests w1
  ∧ daily (main cfg w).2
    = if dryRun cfg then daily w1 else take 60 (lesson :: daily w).
Proof.
  intros Hflat Hguard Hpick Hloop. unfold main.
  rewrite Hflat, Hguard, Hpick, Hloop.
  pose proof (roll_kept (lesson :: daily w) 60 DAILY_ARCH (archive w1)) as Hkept.
  destruct (rollWindowAndArchive _ _ _ _) as [kept files]. simpl in Hkept.
  destruct (dryRun cfg); simpl; by rewrite ?Hkept.
Qed.

(** The retry loop touches neither the history file nor the archive. *)
Lemma retry_loop_files fuel cfg c h attempts w :
  daily (retry_loop fuel cfg c h attempts w).2 = daily w
  ∧ archive (retry_loop fuel cfg c h attempts w).2 = archive w.
Proof.
  revert attempts w. induction fuel as [|fuel IH]; intros attempts w; simpl.
  - by destruct (attempts <=? maxRetries (dryRun cfg)).
  - destruct (attempts <=? maxRetries (dryRun cfg)); [|done].
    destruct (attempt cfg c h w) as [[lesson|e] w1] eqn:Hrun;
      apply quiet_attempt in Hrun as (_ & Hdaily & Harchive & _); [done|].
    destruct (attempts + 1 >? maxRetries (dryRun cfg)); [done|].
    destruct (IH (attempts + 1) (sleep (backoff (attempts + 1 - 1)) w1))
      as [-> ->]. done.
Qed.

(** X11.  Bounded history: a run leaves the history file as it was or
    writes at most 60 entries to it. *)
Lemma main_history_bounded cfg w :
  daily (main cfg w).2 = daily w ∨ (length (daily (main cfg w).2) ≤ 60)%nat.
Proof.
  unfold main.
  destruct (flattenTopics _) as [candidates|]; [|by left].
  destruct (_ && _); [by left|].
  destruct (pickCandidate _ _) as [c|]; [|by left].
  pose proof (retry_loop_files 3 cfg c (daily w) 0 w) as [Hdaily _].
  destruct (retry_loop 3 cfg c (daily w) 0 w) as [[lesson| |code|] w1];
    simpl in Hdaily; try by left.
  pose proof (roll_kept (lesson :: daily w) 60 DAILY_ARCH (archive w1)) as Hkept.
  destruct (rollWindowAndArchive _ _ _ _) as [kept files].
  change (kept = take 60 (lesson :: daily w)) in Hkept.
  destruct (dryRun cfg); [by left|].
  right. change (length kept ≤ 60)%nat. rewrite Hkept, length_take. lia.
Qed.

(** C4, amended.  When the newest history entry is dated today, a normal
    run sends no request, takes no delay and leaves the history file and
    every archive file as they are; it ends with exit code 0 when the
    topic catalog loads, and with exit code 1 when flattening it throws
    (the catalog is flattened before the guard is reached). *)
Theorem same_day_guard cfg w newest rest :
  dryRun cfg = false →
  daily w = newest :: rest →
  e_date newest = Some (todayStr cfg) →
  (main cfg w).2 = w
  ∧ exit_code (main cfg w).1
    = Some (if is_ok (flattenTopics (topicsRaw cfg)) then 0 else 1).
Proof.
  intros Hdry Hdaily Hdate. unfold main.
  destruct (flattenTopics _) as [candidates|]; [|done].
  rewrite Hdaily, Hdry. simpl.
  by rewrite bool_decide_eq_true_2.
Qed.

(** C8, amended.  Without a usable credential no request is sent and
    neither the history file nor an archive file is written; a run that
    gets as far as generating (the catalog loads, the same-day guard
    does not fire, a candidate is picked) ends with exit code 1 after
    every attempt the retry bound allows: a dry run makes one attempt
    and takes no delay, a normal run makes three and takes the delays
    2000 ms and 5000 ms between them. *)
Theorem missing_credential cfg w :
  has_credential (env cfg) = false →
  requests (main cfg w).2 = requests w
  ∧ daily (main cfg w).2 = daily w
  ∧ archive (main cfg w).2 = archive w
  ∧ (∀ candidates c,
       flattenTopics (topicsRaw cfg) = Ok candidates →
       generated_today (daily w) (todayStr cfg) && negb (dryRun cfg) = false →
       pickCandidate candidates (daily w) = Some c →
       (main cfg w).1 = Exited 1
       ∧ slept (main cfg w).2
         = slept w ++ (if dryRun cfg then [] else [2000; 5000])).
Proof.
  intros Hkey.
  assert (∀ candidates c,
    flattenTopics (topicsRaw cfg) = Ok candidates →
    generated_today (daily w) (todayStr cfg) && negb (dryRun cfg) = false →
    pickCandidate candidates (daily w) = Some c →
    main cfg w
    = (Exited 1, if dryRun cfg then w else sleep 5000 (sleep 2000 w)))
    as Hrun.
  { intros candidates c Hflat Hguard Hpick. unfold main.
    rewrite Hflat, Hguard, Hpick.
    destruct (dryRun cfg) eqn:Hdry.
    - rewrite retry_loop_dry by done. by rewrite attempt_no_key.
    - rewrite retry_loop_normal by done. by rewrite !attempt_no_key. }
  assert (requests (main cfg w).2 = requests w
          ∧ daily (main cfg w).2 = daily w
          ∧ archive (main cfg w).2 = archive w) as Hframe.
  { destruct (flattenTopics (topicsRaw cfg)) as [candidates|] eqn:Hflat;
      [|by unfold main; rewrite Hflat].
    destruct (generated_today (daily w) (todayStr cfg) && negb (dryRun cfg))
      eqn:Hguard; [by unfold main; rewrite Hflat, Hguard|].
    destruct (pickCandidate candidates (daily w)) as [c|] eqn:Hpick;
      [|by unfold main; rewrite Hflat, Hguard, Hpick].
    rewrite (Hrun candidates c) by done. by destruct (dryRun cfg). }
  destruct Hframe as (? & ? & ?). repeat split; try done.
  - by rewrite (Hrun candidates c).
  - rewrite (Hrun candidates c) by done.
    destruct (dryRun cfg); simpl; [by rewrite app_nil_r|].
    by rewrite <- app_assoc.
Qed.

(** C10.  The retry bound is 0 in a dry run and 2 otherwise; the delay
    is 2000 ms before the first retry and 5000 ms before any later one.
    In a dry run a failed attempt ends the process with exit code 1, no
    second attempt being made and no delay taken.  In a normal run a
    failed attempt is retried after 2000 ms, a second failure after
    5000 ms, and a third failure ends the process with exit code 1; when
    the third attempt succeeds the run completes with the lesson it
    produced. *)
Theorem dry_run_disables_retries :
  maxRetries true = 0 ∧ maxRetries false = 2
  ∧ backoff 0 = 2000 ∧ (∀ k, k ≠ 0 → backoff k = 5000)
  ∧ (∀ cfg w candidates c e w1,
       dryRun cfg = true →
       flattenTopics (topicsRaw cfg) = Ok candidates →
       pickCandidate candidates (daily w) = Some c →
       attempt cfg c (daily w) w = (Throw e, w1) →
       main cfg w = (Exited 1, w1) ∧ slept w1 = slept w)
  ∧ (∀ cfg w candidates c e1 w1 e2 w2,
       dryRun cfg = false →
       flattenTopics (topicsRaw cfg) = Ok candidates →
       generated_today (daily w) (todayStr cfg) = false →
       pickCandidate candidates (daily w) = Some c →
       attempt cfg c (daily w) w = (Throw e1, w1) →
       attempt cfg c (daily w) (sleep 2000 w1) = (Throw e2, w2) →
       (∀ e3 w3,
          attempt cfg c (daily w) (sleep 5000 w2) = (Throw e3, w3) →
          main cfg w = (Exited 1, w3) ∧ slept w3 = slept w ++ [2000; 5000])
       ∧ (∀ lesson w3,
            attempt cfg c (daily w) (sleep 5000 w2) = (Ok lesson, w3) →
            (main cfg w).1 = Returned
            ∧ slept (main cfg w).2 = slept w ++ [2000; 5000]
            ∧ daily (main cfg w).2 = take 60 (lesson :: daily w))).
Proof.
  split; [done|]. split; [done|]. split; [done|].
  split; [intros k Hk; unfold backoff; by destruct (Z.eqb_spec k 0)|].
  split.
  - intros cfg w candidates c e w1 Hdry Hflat Hpick Hfail.
    split.
    + unfold main. rewrite Hflat, Hdry, andb_false_r, Hpick.
      rewrite retry_loop_dry by done. by rewrite Hfail.
    + by apply quiet_attempt in Hfail as (-> & _).
  - intros cfg w candidates c e1 w1 e2 w2 Hdry Hflat Hguard Hpick H1 H2.
    assert (slept w1 = slept w) as Hs1
      by (by apply quiet_attempt in H1 as (-> & _)).
    assert (slept w2 = slept w ++ [2000]) as Hs2.
    { apply quiet_attempt in H2 as (-> & _). simpl. by rewrite Hs1. }
    split.
    + intros e3 w3 H3. split.
      * unfold main. rewrite Hflat, Hguard, andb_false_l, Hpick.
        rewrite retry_loop_normal by done. by rewrite H1, H2, H3.
      * apply quiet_attempt in H3 as (-> & _). simpl.
        by rewrite Hs2, <- app_assoc.
    + intros lesson w3 H3.
      assert (retry_loop 3 cfg c (daily w) 0 w = (Break lesson, w3)) as Hloop.
      { rewrite retry_loop_normal by done. by rewrite H1, H2, H3. }
      destruct (main_after_break cfg w candidates c lesson w3)
        as (Hend & Hslept & _ & Hdaily); [done|by rewrite Hguard|done|done|].
      rewrite Hdry in Hdaily. split; [done|]. split; [|done].
      rewrite Hslept. apply quiet_attempt in H3 as (-> & _). simpl.
      by rewrite Hs2, <- app_assoc.
Qed.

(** ** Revise gating *)

(** Walks through a pipeline, splitting on the outcome of each request,
    each decoding and each property read. *)
Ltac run_stages :=
  repeat match goal with
         | |- context [match ?x with _ => _ end] =>
             lazymatch x with
             | callLLM _ _ _ => destruct x as [[?|?] ?]
             | parseJSON _ => destruct x
             | get _ _ => destruct x
             | less_than_9 _ => destruct x as [[]|]
             | buildRevisePrompt _ _ => destruct x
             end; simpl; try done
         end.

Lemma generateLesson_stages e c h w :
  generateLesson e c h w
  = bind (draft_and_critique e c)
      (fun dc =>
         score <- lift (get "score" dc.2) ;;
         below <- lift (less_than_9 score) ;;
         if below then revise_stage e dc.1 dc.2 else ret dc.1) w.
Proof.
  unfold generateLesson, draft_and_critique, revise_stage, bind, lift, ret.
  run_stages.
Qed.

Lemma null_or_not (v : json) : v = JNull ∨ v ≠ JNull.
Proof. destruct v; first [by left|by right]. Qed.

(** Reading a property of a value that is not [null]. *)
Lemma get_field name v : v ≠ JNull → get name v = Ok (field name v).
Proof. by destruct v. Qed.

(** The revise request is sent exactly for the critiques that [revises]
    describes, and it is then the prompt built from the draft and the
    critique; when it is not sent, the draft is kept or [TypeError] is
    thrown. *)
Lemma revise_request_spec draft critique :
  revise_request draft critique
  = if revises critique then Ok (Some (RevisePrompt draft critique))
    else
      match critique with
      | JNull => Throw TypeError
      | _ =>
          if opt_converts (field "score" critique)
             && negb (below_9 (field "score" critique))
          then Ok None else Throw TypeError
      end.
Proof.
  unfold revise_request, revises, less_than_9, buildRevisePrompt.
  destruct (null_or_not critique) as [->|Hnull]; [done|].
  rewrite !get_field by done. simpl.
  assert (∀ A (x y : A),
            match critique with JNull => x | _ => y end = y) as Hcase
    by (intros; by destruct critique).
  rewrite !Hcase.
  destruct (opt_converts (field "score" critique)); [|done]. simpl.
  destruct (below_9 (field "score" critique)); [|done]. simpl.
  by destruct (opt_converts (field "critique" critique)).
Qed.

Lemma draft_and_critique_requests e c w draft critique w3 :
  draft_and_critique e c w = (Ok (draft, critique), w3) →
  has_credential e = true
  ∧ ∃ blueprint,
      requests w3
      = requests w
        ++ [BlueprintPrompt c; DraftPrompt c blueprint; CritiquePrompt draft].
Proof.
  unfold draft_and_critique, bind, lift, ret.
  destruct (callLLM e (BlueprintPrompt c) w) as [[raw1|?] w1] eqn:H1; [|done].
  apply callLLM_ok in H1 as (Hkey & _ & ->).
  destruct (parseJSON raw1) as [blueprint|]; [|done].
  destruct (callLLM e (DraftPrompt c blueprint) _) as [[raw2|?] w2] eqn:H2;
    [|done].
  apply callLLM_ok in H2 as (_ & _ & ->).
  destruct (parseJSON raw2) as [draft'|]; [|done].
  destruct (callLLM e (CritiquePrompt draft') _) as [[raw3|?] w3'] eqn:H3;
    [|done].
  apply callLLM_ok in H3 as (_ & _ & ->).
  destruct (parseJSON raw3) as [critique'|]; [|done].
  intros [= <- <- <-]. split; [done|]. exists blueprint. simpl.
  by rewrite <- !app_assoc.
Qed.

(** C5, amended.  In a run whose first three stages produced a draft
    and a critique, the revise request is sent exactly when the critique
    is not [null], its score converts to a primitive that is below 9,
    and its text converts to a primitive; it is then the fourth request,
    and the result is what the answer to it decodes to.  When the score
    converts and is not below 9 the result is the draft itself and three
    requests were sent.  In every other case (the critique is [null], or
    the score or, the score being below 9, the text is an object with a
    property [toString] of its own or an array holding one) the run
    throws [TypeError] after three requests.  So for a score that is a
    number and a text that converts, the revise request is sent exactly
    when the number is below 9. *)
Theorem revise_gating e c h w draft critique w3 :
  draft_and_critique e c w = (Ok (draft, critique), w3) →
  let score := field "score" critique in
  let text := field "critique" critique in
  (∃ blueprint,
     requests (generateLesson e c h w).2
     = requests w
       ++ [BlueprintPrompt c; DraftPrompt c blueprint; CritiquePrompt draft]
       ++ (if revises critique then [RevisePrompt draft critique] else []))
  ∧ (revises critique = true →
     (generateLesson e c h w).1
     = match backend (length (requests w3)) (RevisePrompt draft critique) with
       | Some revised => parseJSON revised
       | None => Throw ApiError
       end)
  ∧ (critique ≠ JNull → opt_converts score = true → below_9 score = false →
     generateLesson e c h w = (Ok draft, w3))
  ∧ (critique = JNull ∨ opt_converts score = false
     ∨ (below_9 score = true ∧ opt_converts text = false) →
     generateLesson e c h w = (Throw TypeError, w3))
  ∧ (∀ n, score = Some (JNum n) → opt_converts text = true →
       revises critique = (n <? 9)%float
       ∧ ((9 <=? n)%float = true → generateLesson e c h w = (Ok draft, w3)))
  ∧ (revises critique = true
     ↔ critique ≠ JNull ∧ opt_converts score = true ∧ below_9 score = true
       ∧ opt_converts text = true)
  ∧ (∀ fields, converts (JObj fields) = true ↔ assoc "toString" fields = None)
  ∧ (∀ items, converts (JArr items) = true ↔ Forall (fun v => converts v = true) items)
  ∧ (∀ v, (∀ fields, v ≠ JObj fields) → (∀ items, v ≠ JArr items) →
          converts v = true).
Proof.
  intros Hstages score text.
  pose proof (draft_and_critique_requests _ _ _ _ _ _ Hstages)
    as (Hkey & blueprint & Hsent).
  assert (generateLesson e c h w
          = match revise_request draft critique with
            | Ok (Some revisePrompt) => stage e revisePrompt w3
            | Ok None => (Ok draft, w3)
            | Throw err => (Throw err, w3)
            end) as Hrun.
  { rewrite generateLesson_stages. unfold bind at 1. rewrite Hstages.
    unfold revise_request, revise_stage, stage, bind, lift, ret. simpl.
    destruct (get "score" critique) as [s|]; simpl; [|done].
    destruct (less_than_9 s) as [[]|]; simpl; [|done|done].
    by destruct (buildRevisePrompt draft critique). }
  rewrite revise_request_spec in Hrun.
  assert (revises critique = true
          ↔ critique ≠ JNull ∧ opt_converts score = true
            ∧ below_9 score = true ∧ opt_converts text = true) as Hrevises.
  { unfold revises. destruct (null_or_not critique) as [->|Hnull].
    - split; [done|]. by intros [? _].
    - assert (∀ x y : bool,
                match critique with JNull => x | _ => y end = y) as ->
        by (intros; by destruct critique).
      fold score text. rewrite !andb_true_iff. split.
      + by intros [[? ?] ?].
      + by intros (_ & ? & ? & ?). }
  assert (critique ≠ JNull → opt_converts score = true →
          below_9 score = false → generateLesson e c h w = (Ok draft, w3))
    as Hkeep.
  { intros Hnull Hscore Hbelow. rewrite Hrun.
    assert (revises critique = false) as ->.
    { apply not_true_is_false. rewrite Hrevises. intros (_ & _ & ? & _).
      congruence. }
    fold score. rewrite Hscore, Hbelow. by destruct critique. }
  split; [|split; [|split; [done|split; [|split; [|split; [done|]]]]]].
  - exists blueprint. rewrite Hrun.
    destruct (revises critique).
    + rewrite stage_with_key by done. simpl. by rewrite Hsent, <- app_assoc.
    + destruct critique; simpl; try by rewrite Hsent.
      all: fold score; by destruct (_ && _); simpl; rewrite Hsent.
  - intros Hb. rewrite Hrun, Hb. by rewrite stage_with_key.
  - intros Hcases. rewrite Hrun.
    assert (revises critique = false) as ->.
    { apply not_true_is_false. rewrite Hrevises.
      intros (Hnull & Hscore & Hbelow & Htext).
      destruct Hcases as [?|[?|[_ ?]]]; congruence. }
    destruct (null_or_not critique) as [->|Hnull]; [done|].
    assert (opt_converts score && negb (below_9 score) = false) as Hnot.
    { destruct Hcases as [?|[->|[-> _]]]; [done|done|].
      by rewrite andb_false_r. }
    fold score. rewrite Hnot. by destruct critique.
  - intros n Hn Htext.
    assert (critique ≠ JNull) as Hnull.
    { intros ->. unfold score in Hn. done. }
    assert (opt_converts score = true) as Hscore by (by rewrite Hn).
    assert (below_9 score = (n <? 9)%float) as Hbelow by (by rewrite Hn).
    split.
    + apply eq_true_iff_eq. rewrite Hrevises, <- Hbelow. split.
      * by intros (_ & _ & ? & _).
      * done.
    + intros Hge. apply Hkeep; [done|done|].
      rewrite Hbelow. by apply at_least_not_below.
  - split; [|split].
    + intros fields. simpl. by destruct (assoc "toString" fields).
    + intros items. simpl. rewrite forallb_forall, Forall_forall.
      split; intros H v Hv; apply H; by apply list_elem_of_In.
    + intros v Hobj Harr. destruct v; try done.
      * by destruct (Harr items).
      * by destruct (Hobj fields).
Qed.

(** [String(v)] throws exactly when [ToPrimitive(v)] does: the two
    conversions of the model agree. *)
Lemma to_string_converts (v : json) :
  is_ok (to_string v) = converts v.
Proof.
  revert v. fix IH 1.
  intros [| b | n | s | items | fields];
    [reflexivity|reflexivity|reflexivity|reflexivity| |].
  - cbn [to_string converts].
    assert (∀ l,
      is_ok ((fix each (l : list json) : result (list string) :=
            match l with
            | [] => Ok []
            | x :: rest =>
                rbind (match x with JNull => Ok "" | _ => to_string x end)
                  (fun s => rbind (each rest) (fun ss => Ok (s :: ss)))
            end) l) = forallb converts l) as Heach.
    { fix IHl 1. intros [|x rest]; [reflexivity|].
      cbn [forallb]. rewrite <- (IH x), <- (IHl rest). clear IH IHl.
      set (first := match x with
                    | JNull => Ok ""
                    | _ => to_string x
                    end).
      assert (is_ok first = is_ok (to_string x)) as <-
        by (by destruct x).
      change (is_ok (rbind first
                (fun s => rbind
                   ((fix each (l : list json) : result (list string) :=
                       match l with
                       | [] => Ok []
                       | x :: rest =>
                           rbind (match x with
                                  | JNull => Ok ""
                                  | _ => to_string x
                                  end)
                             (fun s => rbind (each rest)
                                         (fun ss => Ok (s :: ss)))
                       end) rest)
                   (fun ss => Ok (s :: ss))))
              = is_ok first && is_ok
                  ((fix each (l : list json) : result (list string) :=
                       match l with
                       | [] => Ok []
                       | x :: rest =>
                           rbind (match x with
                                  | JNull => Ok ""
                                  | _ => to_string x
                                  end)
                             (fun s => rbind (each rest)
                                         (fun ss => Ok (s :: ss)))
                       end) rest)).
      destruct first; [|reflexivity]. simpl.
      by destruct ((fix each (l : list json) : result (list string) := _) rest). }
    specialize (Heach items). clear IH.
    destruct ((fix each (l : list json) : result (list string) := _) items);
      simpl in *; done.
  - clear IH. simpl. by destruct (assoc "toString" fields).
Qed.

(** ** Decoding a response *)

Lemma strip_prefix_Some p s rest :
  strip_prefix p s = Some rest ↔ s = p +:+ rest.
Proof.
  revert s. induction p as [|a p IH]; intros s; simpl.
  - rewrite append_nil. split; [by intros [= ->]|by intros ->].
  - rewrite append_cons. destruct s as [|b s]; [done|].
    destruct (Ascii.eqb_spec a b) as [->|Hab].
    + rewrite IH. split; [by intros ->|by intros [= ->]].
    + split; [done|]. intros [= -> _]. done.
Qed.

Lemma cut_at_Some p s before after :
  cut_at p s = Some (before, after) → s = before +:+ p +:+ after.
Proof.
  revert before after. induction s as [|c s IH]; intros before after; simpl.
  - destruct (strip_prefix p "") as [rest|] eqn:Hp; [|done].
    intros [= <- <-]. by apply strip_prefix_Some in Hp.
  - destruct (strip_prefix p (String c s)) as [rest|] eqn:Hp.
    + intros [= <- <-]. by apply strip_prefix_Some in Hp.
    + destruct (cut_at p s) as [[b a]|]; [|done].
      intros [= <- <-]. rewrite append_cons. f_equal. by apply IH.
Qed.

Lemma cut_at_None p s :
  cut_at p s = None → ∀ before after, s ≠ before +:+ p +:+ after.
Proof.
  induction s as [|c s IH]; simpl.
  - destruct (strip_prefix p "") as [rest|] eqn:Hp; [done|].
    intros _ before after Hs. destruct before; [|done].
    rewrite append_nil in Hs.
    apply strip_prefix_Some in Hs. congruence.
  - destruct (strip_prefix p (String c s)) as [rest|] eqn:Hp; [done|].
    destruct (cut_at p s) as [[b a]|] eqn:Hcut; [done|].
    intros _ before after Hs. destruct before as [|c' before].
    + rewrite append_nil in Hs. apply strip_prefix_Some in Hs. congruence.
    + rewrite append_cons in Hs. injection Hs as -> Hs.
      by apply (IH eq_refl before after).
Qed.

Lemma cut_at_first p s before after before' after' :
  cut_at p s = Some (before, after) →
  s = before' +:+ p +:+ after' →
  (String.length before ≤ String.length before')%nat.
Proof.
  revert before before'.
  induction s as [|c s IH]; intros before before'; simpl.
  - destruct (strip_prefix p "") as [rest|]; [|done].
    intros [= <- <-] _. simpl. lia.
  - destruct (strip_prefix p (String c s)) as [rest|] eqn:Hp.
    + intros [= <- <-] _. simpl. lia.
    + destruct (cut_at p s) as [[b a]|] eqn:Hcut; [|done].
      intros [= <- <-] Hs. destruct before' as [|c' before'].
      * rewrite append_nil in Hs. apply strip_prefix_Some in Hs. congruence.
      * rewrite append_cons in Hs. injection Hs as -> Hs. simpl.
        apply le_n_S. by apply (IH b before').
Qed.

(** The text [fenced_json] returns lies between a [```json] and a
    [```], and they are the first such pair: no [```json] begins
    earlier, and no [```] closes the block earlier. *)
Lemma fenced_json_first raw inner :
  fenced_json raw = Some inner →
  ∃ before after,
    raw = before +:+ "```json" +:+ inner +:+ "```" +:+ after
    ∧ (∀ before' rest',
         raw = before' +:+ "```json" +:+ rest' →
         (String.length before ≤ String.length before')%nat)
    ∧ (∀ inner' after',
         inner +:+ "```" +:+ after = inner' +:+ "```" +:+ after' →
         (String.length inner ≤ String.length inner')%nat).
Proof.
  unfold fenced_json.
  destruct (cut_at "```json" raw) as [[before rest]|] eqn:H1; [|done].
  simpl. destruct (cut_at "```" rest) as [[inner' after]|] eqn:H2; [|done].
  intros [= <-]. exists before, after.
  pose proof (cut_at_Some _ _ _ _ H1) as Hraw.
  pose proof (cut_at_Some _ _ _ _ H2) as Hrest.
  split; [by rewrite Hraw, Hrest|]. split.
  - intros before' rest' Hraw'. by apply (cut_at_first _ _ _ _ _ _ H1 Hraw').
  - intros i a Hsame. rewrite <- Hrest in Hsame.
    by apply (cut_at_first _ _ _ _ _ _ H2 Hsame).
Qed.

Lemma append_assoc (a b c : string) : (a +:+ b) +:+ c = a +:+ (b +:+ c).
Proof.
  induction a as [|x a IH]; [done|]. by rewrite !append_cons, IH.
Qed.

Lemma append_length (a b : string) :
  String.length (a +:+ b) = (String.length a + String.length b)%nat.
Proof.
  induction a as [|x a IH]; [done|]. rewrite append_cons. simpl. by rewrite IH.
Qed.

(** Two ways of cutting one text: the longer head extends the shorter. *)
Lemma append_eq_append (u v u' v' : string) :
  u +:+ v = u' +:+ v' →
  (String.length u ≤ String.length u')%nat →
  ∃ x, u' = u +:+ x ∧ v = x +:+ v'.
Proof.
  revert u'. induction u as [|c u IH]; intros u' Heq Hlen.
  - exists u'. by rewrite !append_nil in *.
  - destruct u' as [|c' u']; [simpl in Hlen; lia|].
    rewrite !append_cons in Heq. injection Heq as -> Heq.
    destruct (IH u' Heq) as (x & -> & ->); [simpl in Hlen; lia|].
    by exists x.
Qed.

Lemma fenced_json_None raw :
  fenced_json raw = None →
  ∀ before inner after,
    raw ≠ before +:+ "```json" +:+ inner +:+ "```" +:+ after.
Proof.
  unfold fenced_json. intros H before inner after Hraw.
  destruct (cut_at "```json" raw) as [[b rest]|] eqn:H1.
  - simpl in H. destruct (cut_at "```" rest) as [[i a]|] eqn:H2; [done|].
    pose proof (cut_at_first _ _ _ _ _ _ H1 Hraw) as Hfirst.
    apply cut_at_Some in H1. rewrite H1 in Hraw.
    rewrite <- (append_assoc b), <- (append_assoc before),
      <- (append_assoc (before +:+ _)) in Hraw.
    apply append_eq_append in Hraw as (x & _ & Hrest).
    + by apply (cut_at_None _ _ H2 x after).
    + rewrite !append_length. simpl. lia.
  - by apply (cut_at_None _ _ H1 before (inner +:+ "```" +:+ after)).
Qed.

Lemma generateLesson_by_stage e c h w :
  generateLesson e c h w
  = (blueprint <- stage e (BlueprintPrompt c) ;;
     draft <- stage e (DraftPrompt c blueprint) ;;
     critique <- stage e (CritiquePrompt draft) ;;
     request <- lift (revise_request draft critique) ;;
     match request with
     | Some revisePrompt => stage e revisePrompt
     | None => ret draft
     end) w.
Proof.
  unfold generateLesson, revise_request, stage, bind, lift, ret.
  run_stages.
Qed.

Lemma aborts_silent {A} (m : M A) :
  (∀ w, (m w).2 = w) → aborts_on_reject m.
Proof.
  intros Hm w r w' Hrun i p content Hi Hp.
  specialize (Hm w). rewrite Hrun in Hm. simpl in Hm. subst w'.
  apply lookup_lt_Some in Hp. lia.
Qed.

Lemma aborts_stage e p : aborts_on_reject (stage e p).
Proof.
  intros w r w' Hrun i q content Hi Hq Hanswer Hreject.
  destruct (has_credential e) eqn:Hkey.
  - rewrite stage_with_key in Hrun by done. injection Hrun as <- <-.
    simpl in *. rewrite length_app. simpl.
    assert (i = length (requests w)) as ->.
    { apply lookup_lt_Some in Hq. rewrite length_app in Hq. simpl in Hq. lia. }
    rewrite list_lookup_middle in Hq by done. injection Hq as <-.
    rewrite Hanswer. split; [done|lia].
  - rewrite stage_no_key in Hrun by done. injection Hrun as <- <-.
    apply lookup_lt_Some in Hq. lia.
Qed.

Lemma aborts_bind {A B} (m : M A) (k : A → M B) :
  quiet m → aborts_on_reject m →
  (∀ a, quiet (k a)) → (∀ a, aborts_on_reject (k a)) →
  aborts_on_reject (bind m k).
Proof.
  intros Hquiet Hm Hquietk Hk w r w' Hrun i p content Hi Hp Hanswer Hreject.
  unfold bind in Hrun. destruct (m w) as [[a|e] w1] eqn:Hmw.
  - destruct (Hquiet _ _ _ Hmw) as (_ & _ & _ & sent1 & Hsent1).
    destruct (Hquietk a _ _ _ Hrun) as (_ & _ & _ & sent2 & Hsent2).
    destruct (decide (i < length (requests w1))%nat) as [Hlt|Hge].
    + exfalso.
      rewrite Hsent2, lookup_app_l in Hp by done.
      by destruct (Hm _ _ _ Hmw i p content).
    + apply (Hk a _ _ _ Hrun i p content); try done. lia.
  - injection Hrun as <- <-.
    destruct (Hm _ _ _ Hmw i p content) as [[= ->] Hlen]; done.
Qed.

Lemma quiet_stage e p : quiet (stage e p).
Proof.
  unfold stage. apply quiet_bind; [apply quiet_callLLM|].
  intros raw. apply quiet_lift.
Qed.

Lemma aborts_generateLesson e c h : aborts_on_reject (generateLesson e c h).
Proof.
  intros w r w' Hrun. rewrite generateLesson_by_stage in Hrun.
  revert w r w' Hrun.
  change (aborts_on_reject
    (blueprint <- stage e (BlueprintPrompt c) ;;
     draft <- stage e (DraftPrompt c blueprint) ;;
     critique <- stage e (CritiquePrompt draft) ;;
     request <- lift (revise_request draft critique) ;;
     match request with
     | Some revisePrompt => stage e revisePrompt
     | None => ret draft
     end)).
  assert (∀ draft critique,
    let m := (request <- lift (revise_request draft critique) ;;
              match request with
              | Some revisePrompt => stage e revisePrompt
              | None => ret draft
              end) in
    quiet m ∧ aborts_on_reject m) as Hgate.
  { intros draft critique. split.
    - apply quiet_bind; [apply quiet_lift|]. intros request.
      destruct request; [apply quiet_stage|apply quiet_ret].
    - apply aborts_bind; [apply quiet_lift|by apply aborts_silent| |].
      + intros request.
        destruct request; [apply quiet_stage|apply quiet_ret].
      + intros request.
        destruct request; [apply aborts_stage|by apply aborts_silent]. }
  apply aborts_bind; [apply quiet_stage|apply aborts_stage| |];
    intros blueprint.
  - apply quiet_bind; [apply quiet_stage|]. intros draft.
    apply quiet_bind; [apply quiet_stage|]. intros critique. apply Hgate.
  - apply aborts_bind; [apply quiet_stage|apply aborts_stage| |];
      intros draft.
    + apply quiet_bind; [apply quiet_stage|]. intros critique. apply Hgate.
    + apply aborts_bind; [apply quiet_stage|apply aborts_stage| |];
        intros critique; apply Hgate.
Qed.

Lemma cut_at_head p rest : cut_at p (p +:+ rest) = Some ("", rest).
Proof.
  assert (strip_prefix p (p +:+ rest) = Some rest) as H
    by (by apply strip_prefix_Some).
  destruct (p +:+ rest); simpl; by rewrite H.
Qed.

Lemma fenced_json_wrapped inner after :
  cut_at "```" (inner +:+ "```" +:+ after) = Some (inner, after) →
  fenced_json ("```json" +:+ inner +:+ "```" +:+ after) = Some inner.
Proof.
  intros Hcut. unfold fenced_json.
  rewrite (cut_at_head "```json" (inner +:+ "```" +:+ after)). simpl.
  by rewrite Hcut.
Qed.

Lemma append_cancel_l (p a b : string) : p +:+ a = p +:+ b → a = b.
Proof.
  induction p as [|c p IH]; [done|].
  rewrite !append_cons. intros [= H]. by apply IH.
Qed.

(** The first occurrence of [p] in a text is where [cut_at] cuts. *)
Lemma cut_at_exact p before after :
  (∀ before' after',
     before +:+ p +:+ after = before' +:+ p +:+ after' →
     (String.length before ≤ String.length before')%nat) →
  cut_at p (before +:+ p +:+ after) = Some (before, after).
Proof.
  intros Hfirst.
  destruct (cut_at p (before +:+ p +:+ after)) as [[b a]|] eqn:Hcut.
  - pose proof (cut_at_Some _ _ _ _ Hcut) as Hs.
    pose proof (cut_at_first _ _ _ _ _ _ Hcut eq_refl) as Hle.
    pose proof (Hfirst b a Hs) as Hge.
    symmetry in Hs.
    apply append_eq_append in Hs as (x & -> & Hx); [|done].
    rewrite append_length in Hge.
    destruct x as [|c x]; [|simpl in Hge; lia].
    rewrite append_nil in Hx. apply append_cancel_l in Hx as ->.
    by rewrite append_empty.
  - by destruct (cut_at_None _ _ Hcut before after).
Qed.

(** The block [parseJSON] decodes: the text between the first
    [```json] and the first [```] after it. *)
Lemma fenced_json_exact before inner after :
  (∀ before' rest',
     before +:+ "```json" +:+ inner +:+ "```" +:+ after
     = before' +:+ "```json" +:+ rest' →
     (String.length before ≤ String.length before')%nat) →
  (∀ inner' after',
     inner +:+ "```" +:+ after = inner' +:+ "```" +:+ after' →
     (String.length inner ≤ String.length inner')%nat) →
  fenced_json (before +:+ "```json" +:+ inner +:+ "```" +:+ after)
  = Some inner.
Proof.
  intros Hopen Hclose. unfold fenced_json.
  rewrite (cut_at_exact "```json" before (inner +:+ "```" +:+ after)) by done.
  simpl. by rewrite (cut_at_exact "```" inner after).
Qed.

(** C7, amended.  [parseJSON] first decodes the text as it is.  When
    that fails and the text holds a block fenced with the tag [json]
    (a [```json] and a later [```]), wherever in the text, it answers
    what the text between the first [```json] and the first [```] after
    it decodes to; a fence without that tag is not looked for.  It
    throws exactly when the direct decoding fails and either there is no
    such block or its content does not decode.  As soon as an answer to
    a request of [generateLesson] does not decode, the run sends no
    further request and throws: it yields no content. *)
Theorem fenced_output_parsing :
  (∀ raw v, JSON_parse raw = Some v → parseJSON raw = Ok v)
  ∧ (∀ before inner after,
       let raw := before +:+ "```json" +:+ inner +:+ "```" +:+ after in
       JSON_parse raw = None →
       (∀ before' rest',
          raw = before' +:+ "```json" +:+ rest' →
          (String.length before ≤ String.length before')%nat) →
       (∀ inner' after',
          inner +:+ "```" +:+ after = inner' +:+ "```" +:+ after' →
          (String.length inner ≤ String.length inner')%nat) →
       parseJSON raw
       = match JSON_parse inner with
         | Some v => Ok v
         | None => Throw SyntaxError
         end)
  ∧ (∀ raw inner,
       fenced_json raw = Some inner →
       ∃ before after,
         raw = before +:+ "```json" +:+ inner +:+ "```" +:+ after
         ∧ (∀ before' rest',
              raw = before' +:+ "```json" +:+ rest' →
              (String.length before ≤ String.length before')%nat)
         ∧ (∀ inner' after',
              inner +:+ "```" +:+ after = inner' +:+ "```" +:+ after' →
              (String.length inner ≤ String.length inner')%nat))
  ∧ (∀ raw,
       fenced_json raw = None →
       ∀ before inner after,
         raw ≠ before +:+ "```json" +:+ inner +:+ "```" +:+ after)
  ∧ (∀ raw,
       parseJSON raw = Throw SyntaxError
       ↔ JSON_parse raw = None
         ∧ ∀ inner, fenced_json raw = Some inner → JSON_parse inner = None)
  ∧ (∀ e c h w i p content,
       (length (requests w) ≤ i)%nat →
       requests (generateLesson e c h w).2 !! i = Some p →
       backend i p = Some content →
       parseJSON content = Throw SyntaxError →
       (generateLesson e c h w).1 = Throw SyntaxError
       ∧ length (requests (generateLesson e c h w).2) = S i).
Proof.
  split; [|split; [|split; [|split; [|split]]]].
  - intros raw v Hv. unfold parseJSON. by rewrite Hv.
  - intros before inner after raw Hraw Hopen Hclose. unfold parseJSON.
    rewrite Hraw. unfold raw. by rewrite fenced_json_exact.
  - apply fenced_json_first.
  - apply fenced_json_None.
  - intros raw. unfold parseJSON.
    destruct (JSON_parse raw) as [v|]; [split; [done|by intros [[=] _]]|].
    destruct (fenced_json raw) as [inner|]; [|by split].
    destruct (JSON_parse inner) as [v|] eqn:Hinner.
    + split; [done|]. intros [_ H]. by rewrite (H inner eq_refl) in Hinner.
    + split; [|done]. intros _. split; [done|]. by intros ? [= <-].
  - intros e c h w i p content Hi Hp Hanswer Hreject.
    destruct (generateLesson e c h w) as [r w'] eqn:Hrun.
    by apply (aborts_generateLesson e c h w r w' Hrun i p content).
Qed.

(** ** Practice and sources *)

Lemma strip_any_Some ps s rest :
  strip_any ps s = Some rest → ∃ p, p ∈ ps ∧ s = p +:+ rest.
Proof.
  induction ps as [|p ps IH]; simpl; [done|].
  destruct (strip_prefix p s) as [r|] eqn:Hp.
  - intros [= <-]. exists p. split; [by left|]. by apply strip_prefix_Some.
  - intros H. destruct (IH H) as (q & Hq & ->). exists q. split; [by right|done].
Qed.

Lemma strip_any_extend ps s t :
  is_Some (strip_any ps s) → is_Some (strip_any ps (s +:+ t)).
Proof.
  induction ps as [|p ps IH]; simpl; [by intros [? [=]]|].
  destruct (strip_prefix p s) as [r|] eqn:Hp.
  - intros _. apply strip_prefix_Some in Hp as ->.
    rewrite append_assoc.
    by rewrite (proj2 (strip_prefix_Some p (p +:+ r +:+ t) (r +:+ t)) eq_refl).
  - intros H. destruct (strip_prefix p (s +:+ t)); [done|by apply IH].
Qed.

Lemma strip_space_shorter s rest :
  strip_space s = Some rest → (String.length rest < String.length s)%nat.
Proof.
  intros H. apply strip_any_Some in H as (p & Hp & ->).
  rewrite append_length.
  assert (Forall (fun p => (0 < String.length p)%nat)
            (map of_codes space_codes)) as Hall
    by (repeat constructor).
  rewrite Forall_forall in Hall. specialize (Hall p Hp). lia.
Qed.

Lemma skip_spaces_in_done fuel s :
  (String.length s ≤ fuel)%nat → strip_space (skip_spaces_in fuel s) = None.
Proof.
  revert s. induction fuel as [|fuel IH]; intros s Hlen; simpl.
  - by destruct s; [|simpl in Hlen; lia].
  - destruct (strip_space s) as [rest|] eqn:Hs; [|done].
    apply IH. apply strip_space_shorter in Hs. lia.
Qed.

(** After [\s*] no white space is left at the head. *)
Lemma skip_spaces_done s : strip_space (skip_spaces s) = None.
Proof. by apply skip_spaces_in_done. Qed.

Lemma trim_end_prefix s : ∃ t, s = trim_end s +:+ t.
Proof.
  induction s as [|c s [t IH]]; [by exists ""|].
  simpl. destruct (all_spaces (String c s)).
  - by exists (String c s).
  - exists t. by rewrite append_cons, <- IH.
Qed.

(** A trimmed text does not begin with white space. *)
Lemma trim_no_leading_space s : strip_space (trim s) = None.
Proof.
  unfold trim. pose proof (skip_spaces_done s) as Hhead.
  destruct (trim_end_prefix (skip_spaces s)) as [t Ht].
  destruct (strip_space (trim_end (skip_spaces s))) as [r|] eqn:Hr; [|done].
  assert (is_Some (strip_space (trim_end (skip_spaces s) +:+ t))) as [r' Hr'].
  { apply strip_any_extend. unfold strip_space in Hr. by rewrite Hr. }
  rewrite <- Ht in Hr'. congruence.
Qed.

(** Splitting leaves no line feed in a piece, and at least one piece. *)
Lemma split_lines_no_lf s :
  split_lines s ≠ [] ∧ Forall (fun piece => has_lf piece = false) (split_lines s).
Proof.
  induction s as [|c s [Hne IH]]; simpl; [by repeat constructor|].
  destruct (Ascii.eqb c LF) eqn:Hc.
  - destruct (starts_with_lf s); [done|]. split; [done|by constructor].
  - destruct (Ascii.eqb c CR && starts_with_lf s); [done|].
    destruct (split_lines s) as [|piece pieces]; [done|].
    split; [done|]. inversion IH; subst. constructor; [|done].
    simpl. by rewrite Hc.
Qed.

(** The steps cut from a text: at most six, none empty, none beginning
    with white space, each the trimmed rest of a line after its marker,
    in the order of the lines. *)
Lemma split_steps_facts text :
  (length (split_steps text) ≤ 6)%nat
  ∧ Forall (fun step => step ≠ "" ∧ strip_space step = None) (split_steps text)
  ∧ split_steps text
    `prefix_of` List.filter (fun l => negb (is_empty l))
                  (map (fun line => trim (strip_marker line)) (split_lines text)).
Proof.
  unfold split_steps. split; [rewrite length_take; lia|]. split.
  - apply Forall_take, Forall_forall. intros step Hstep.
    apply list_elem_of_In, filter_In in Hstep as [Hin Hne].
    apply in_map_iff in Hin as (line & <- & _). split.
    + intros Hempty. by rewrite Hempty in Hne.
    + apply trim_no_leading_space.
  - apply prefix_take.
Qed.

Lemma normalizePractice_item_spec item :
  normalizePractice_item item
  = if accepted_practice item then Ok (practice_of item) else Throw TypeError.
Proof.
  destruct item as [|b|n|s|xs|fields]; try done.
  unfold normalizePractice_item, accepted_practice, practice_of. simpl.
  destruct (assoc "steps" fields) as [[|b|n|s|ys|fs]|]; simpl; try done.
  - by destruct b.
  - unfold splitSteps. simpl.
    destruct (PrimFloat.is_zero n || PrimFloat.is_nan n) eqn:Hn; simpl;
      by rewrite ?Hn.
  - unfold splitSteps. simpl. by destruct s.
Qed.

Lemma normalizeSources_item_spec entry :
  normalizeSources_item entry
  = match entry with
    | JNull => Throw TypeError
    | _ => Ok (source_of entry)
    end.
Proof. by destruct entry. Qed.

Lemma map_result_all {A B} (f : A → result B) (g : A → B) (l : list A) :
  Forall (fun x => f x = Ok (g x)) l → map_result f l = Ok (map g l).
Proof.
  induction 1 as [|x l Hx _ IH]; simpl; [done|]. by rewrite Hx, IH.
Qed.

Lemma map_result_throw {A B} (f : A → result B) (e : exn) (l : list A) :
  Forall (fun x => is_ok (f x) = true ∨ f x = Throw e) l →
  Exists (fun x => f x = Throw e) l →
  map_result f l = Throw e.
Proof.
  intros Hall Hex. induction Hall as [|x l Hx Hall IH]; [inversion Hex|].
  simpl. destruct Hx as [Hx| ->]; [|done].
  destruct (f x) as [y|] eqn:Hfx; [|done]. simpl.
  rewrite IH; [done|]. inversion Hex; subst; [congruence|done].
Qed.

(** C6, amended.  A practice entry that is a plain string becomes
    [{title: that string, steps: []}].  An object entry whose [steps] is
    a string gets the steps cut from it: the lines of the string, each
    without its leading number or bullet and trimmed, the empty ones
    dropped, the first six kept.  A practice list none of whose entries
    is [null] or has for [steps] a non-zero number, [true] or an object
    is mapped entry by entry; a sources list without a [null] entry
    becomes its first six entries as [{title, url}], the title being
    "Source" when the entry has none.  A list with another entry makes
    the normalization throw; a [practice] or [sources] that is not a
    list yields the empty list. *)
Theorem practice_and_sources_normalized :
  (∀ s, normalizePractice_item (JStr s)
        = Ok {| p_title := JStr s; p_steps := [] |})
  ∧ (∀ fields text,
       assoc "steps" fields = Some (JStr text) →
       normalizePractice_item (JObj fields)
       = Ok {| p_title := or_else (assoc "title" fields) (JStr "");
               p_steps := map JStr (split_steps text) |}
       ∧ (length (split_steps text) ≤ 6)%nat
       ∧ Forall (fun step => step ≠ "" ∧ strip_space step = None)
           (split_steps text)
       ∧ split_steps text
         `prefix_of` List.filter (fun l => negb (is_empty l))
                       (map (fun line => trim (strip_marker line))
                          (split_lines text)))
  ∧ (∀ items,
       Forall (fun item => accepted_practice item = true) items →
       normalizePractice (Some (JArr items)) = Ok (map practice_of items))
  ∧ (∀ items,
       ¬ Forall (fun item => accepted_practice item = true) items →
       normalizePractice (Some (JArr items)) = Throw TypeError)
  ∧ (∀ items,
       Forall (fun entry => entry ≠ JNull) items →
       normalizeSources (Some (JArr items)) = Ok (take 6 (map source_of items))
       ∧ (length (take 6 (map source_of items)) ≤ 6)%nat)
  ∧ (∀ items,
       JNull ∈ items → normalizeSources (Some (JArr items)) = Throw TypeError)
  ∧ (∀ entry,
       field "title" entry = None → s_title (source_of entry) = JStr "Source")
  ∧ (∀ raw,
       (∀ items, raw ≠ Some (JArr items)) →
       normalizePractice raw = Ok [] ∧ normalizeSources raw = Ok []).
Proof.
  split; [done|].
  split.
  { intros fields text Hsteps. split; [|apply split_steps_facts].
    rewrite normalizePractice_item_spec.
    unfold accepted_practice, practice_of. simpl. by rewrite Hsteps. }
  split.
  { intros items Hall. simpl. apply map_result_all.
    eapply Forall_impl; [exact Hall|]. intros item Hitem. simpl in Hitem.
    by rewrite normalizePractice_item_spec, Hitem. }
  split.
  { intros items Hnot. simpl. apply map_result_throw.
    - apply Forall_forall. intros item _.
      rewrite normalizePractice_item_spec.
      destruct (accepted_practice item); [by left|by right].
    - apply not_Forall_Exists in Hnot; [|intros x; apply _].
      eapply Exists_impl; [exact Hnot|]. intros item Hitem. simpl in Hitem.
      rewrite normalizePractice_item_spec.
      by destruct (accepted_practice item). }
  split.
  { intros items Hall. split; [|rewrite length_take; lia].
    simpl. rewrite (map_result_all _ source_of); [done|].
    eapply Forall_impl; [exact Hall|]. intros entry Hentry. simpl in Hentry.
    rewrite normalizeSources_item_spec. by destruct entry. }
  split.
  { intros items Hnull. simpl. rewrite (map_result_throw _ TypeError); [done| |].
    - apply Forall_forall. intros entry _.
      rewrite normalizeSources_item_spec. destruct entry; first [by right|by left].
    - apply Exists_exists. by exists JNull. }
  split.
  { intros entry Htitle. unfold source_of. by rewrite Htitle. }
  intros raw Hraw. destruct raw as [[| | | |items|]|]; try done.
  by destruct (Hraw items).
Qed.

(** ** Further properties of the selector *)

Lemma last_cons_default {A} (x : A) (l : list A) :
  last (x :: l) = Some (default x (last l)).
Proof.
  revert x. induction l as [|y l IH]; intros x; [done|].
  change (last (x :: y :: l)) with (last (y :: l)). by rewrite IH.
Qed.

Lemma fold_remember_lookup h map i :
  fold_left remember h map !! i
  = match last (List.filter (fun e => bool_decide (recorded e = Some i)) h) with
    | Some e => Some (e_date e)
    | None => map !! i
    end.
Proof.
  revert map. induction h as [|e h IH]; intros map; simpl; [done|].
  rewrite IH, remember_lookup.
  case_bool_decide as He.
  - rewrite last_cons_default.
    destruct (last _) as [e'|]; simpl; [done|]. by case_decide.
  - destruct (last _) as [e'|]; [done|]. by case_decide.
Qed.

(** X1.  What [summarizeHistory] stores for an id is the date of the
    last entry of the list that records the id, and nothing when no entry
    records it: of two entries with one id, the one further down the list
    decides. *)
Theorem summarizeHistory_lookup history i :
  summarizeHistory history !! i
  = e_date <$> last (List.filter (fun e => bool_decide (recorded e = Some i))
                       history).
Proof.
  unfold summarizeHistory. rewrite fold_remember_lookup, lookup_empty.
  by destruct (last _).
Qed.

(** X2.  The selector answers [null] for the empty catalog only, and
    what it picks is a candidate of the catalog. *)
Theorem pickCandidate_member candidates history :
  (pickCandidate candidates history = None ↔ candidates = [])
  ∧ ∀ c, pickCandidate candidates history = Some c → c ∈ candidates.
Proof.
  destruct candidates as [|c0 rest]; [by split|].
  unfold pickCandidate.
  set (candidates := c0 :: rest).
  set (summary := summarizeHistory history).
  destruct (List.find _ candidates) as [c|] eqn:Hfind.
  { split; [by split|]. intros c' [= <-].
    apply find_some in Hfind as [Hin _]. by apply list_elem_of_In. }
  destruct (js_sort _ _) as [|c sorted] eqn:Hsort.
  { split; [by split|]. intros c [= <-]. by left. }
  split; [by split|]. intros c' [= <-].
  assert (c ∈ js_sort (by_stored_time summary)
                (List.filter (has summary) candidates)) as Hin
    by (rewrite Hsort; by left).
  rewrite js_sort_perm in Hin.
  apply list_elem_of_In, filter_In in Hin as [Hin _].
  by apply list_elem_of_In.
Qed.

(** X4.  With an empty history the candidate picked is the first of the
    flattened catalog; when no order is [NaN], that is, of the topics of
    the nested traversal, the first among those whose order is the
    least. *)
Theorem first_pick_least_order levels candidates :
  flattenTopics levels = Ok candidates →
  pickCandidate candidates [] = head candidates
  ∧ (Forall (fun x => PrimFloat.is_nan (order_key x) = false)
       (nested_topics levels) →
     head candidates
     = head (List.filter
               (least_in by_order (map candidate_of (nested_topics levels)))
               (map candidate_of (nested_topics levels)))).
Proof.
  intros Hflat. split.
  - destruct candidates as [|c rest]; [done|].
    unfold pickCandidate. simpl.
    assert (has (summarizeHistory []) c = false) as ->; [|done].
    apply bool_decide_eq_false_2. unfold summarizeHistory. simpl.
    rewrite lookup_empty. apply is_Some_None.
  - intros Hnan. unfold flattenTopics in Hflat.
    destruct (decide (Forall has_name (nested_topics levels))) as [Hall|Hnot].
    + rewrite for_levels_named in Hflat by done. simpl in Hflat.
      injection Hflat as <-. apply js_sort_head_on, by_order_consistent.
      rewrite Forall_map. eapply Forall_impl; [exact Hnan|].
      intros x Hx. simpl. by rewrite candidate_of_order.
    + rewrite for_levels_nameless in Hflat; [done|].
      apply not_Forall_Exists in Hnot; [done|]. intros x. apply _.
Qed.

(** ** Further properties of the orchestrator *)

Lemma sends_silent {A} (m : M A) n :
  (∀ w r w', m w = (r, w') → requests w' = requests w) → sends n m.
Proof.
  intros Hm w r w' Hrun. exists []. rewrite app_nil_r.
  split; [by apply (Hm w r w')|simpl; lia].
Qed.

Lemma sends_bind {A B} (m : M A) (k : A → M B) n1 n2 :
  sends n1 m → (∀ a, sends n2 (k a)) → sends (n1 + n2) (bind m k).
Proof.
  intros Hm Hk w r w'. unfold bind.
  destruct (m w) as [[a|e] w1] eqn:Hmw.
  - intros Hkw. apply Hm in Hmw as (sent1 & Hsent1 & Hlen1).
    apply Hk in Hkw as (sent2 & Hsent2 & Hlen2).
    exists (sent1 ++ sent2). rewrite length_app, Hsent2, Hsent1, app_assoc.
    split; [done|lia].
  - intros [= <- <-]. apply Hm in Hmw as (sent1 & Hsent1 & Hlen1).
    exists sent1. split; [done|lia].
Qed.

Lemma sends_callLLM e p : sends 1 (callLLM e p).
Proof.
  intros w r w'. destruct (has_credential e) eqn:Hkey.
  - rewrite callLLM_with_key by done. intros [= <- <-]. by exists [p].
  - rewrite callLLM_no_key by done. intros [= <- <-].
    exists []. rewrite app_nil_r. split; [done|simpl; lia].
Qed.

Lemma sends_stage e p : sends 1 (stage e p).
Proof.
  unfold stage. apply (sends_bind _ _ 1 0); [apply sends_callLLM|].
  intros raw. apply sends_silent. by intros w r w' [= _ <-].
Qed.

Lemma sends_generateLesson e c h : sends 4 (generateLesson e c h).
Proof.
  intros w r w'. rewrite generateLesson_by_stage. revert w r w'.
  apply (sends_bind _ _ 1 3); [apply sends_stage|]. intros blueprint.
  apply (sends_bind _ _ 1 2); [apply sends_stage|]. intros draft.
  apply (sends_bind _ _ 1 1); [apply sends_stage|]. intros critique.
  apply (sends_bind _ _ 0 1).
  { apply sends_silent. by intros w r w' [= _ <-]. }
  intros request. destruct request; [apply sends_stage|].
  apply sends_silent. by intros w r w' [= _ <-].
Qed.

Lemma coerceLesson_requests c lesson date w r w' :
  coerceLesson c lesson date w = (r, w') → requests w' = requests w.
Proof.
  unfold coerceLesson, bind, lift, draw_uuid, ret.
  destruct (rbind (get "sources" lesson) normalizeSources); [|by intros [= _ <-]].
  destruct (rbind (get "practice" lesson) normalizePractice);
    [|by intros [= _ <-]].
  simpl.
  destruct (get "topic" lesson); [|by intros [= _ <-]].
  destruct (get "summary" lesson); [|by intros [= _ <-]].
  destruct (get "key_points" lesson); [|by intros [= _ <-]].
  destruct (get "risk_notes" lesson); by intros [= _ <-].
Qed.

Lemma sends_attempt cfg c h : sends 4 (attempt cfg c h).
Proof.
  unfold attempt. apply (sends_bind _ _ 4 0); [apply sends_generateLesson|].
  intros content. apply sends_silent. apply coerceLesson_requests.
Qed.

Lemma attempt_effort cfg c h w r w' :
  attempt cfg c h w = (r, w') →
  slept w' = slept w
  ∧ ∃ sent, requests w' = requests w ++ sent ∧ (length sent ≤ 4)%nat.
Proof.
  intros Hrun. split; [by apply quiet_attempt in Hrun as (? & _)|].
  by apply sends_attempt in Hrun.
Qed.

(** What the loop costs, and how it ends. *)
Lemma retry_loop_effort cfg c h w :
  ∃ sent delays,
    requests (retry_loop 3 cfg c h 0 w).2 = requests w ++ sent
    ∧ slept (retry_loop 3 cfg c h 0 w).2 = slept w ++ delays
    ∧ (length sent ≤ if dryRun cfg then 4 else 12)%nat
    ∧ (delays = []
       ∨ dryRun cfg = false ∧ (delays = [2000] ∨ delays = [2000; 5000]))
    ∧ ((∃ lesson, (retry_loop 3 cfg c h 0 w).1 = Break lesson)
       ∨ (retry_loop 3 cfg c h 0 w).1 = ExitLoop 1).
Proof.
  destruct (dryRun cfg) eqn:Hdry.
  - rewrite retry_loop_dry by done.
    destruct (attempt cfg c h w) as [r w1] eqn:H1.
    apply attempt_effort in H1 as (Hs1 & sent1 & Hr1 & Hlen1).
    exists sent1, []. rewrite app_nil_r.
    destruct r as [lesson|e]; simpl;
      (split; [done|]; split; [done|]; split; [done|]; split; [by left|]);
      [left; by exists lesson|by right].
  - rewrite retry_loop_normal by done.
    destruct (attempt cfg c h w) as [r1 w1] eqn:H1.
    apply attempt_effort in H1 as (Hs1 & sent1 & Hr1 & Hlen1).
    destruct r1 as [lesson|e1].
    { exists sent1, []. rewrite app_nil_r. simpl.
      split; [done|]. split; [done|]. split; [lia|]. split; [by left|].
      left. by exists lesson. }
    destruct (attempt cfg c h (sleep 2000 w1)) as [r2 w2] eqn:H2.
    apply attempt_effort in H2 as (Hs2 & sent2 & Hr2 & Hlen2).
    simpl in Hs2, Hr2. rewrite Hs1 in Hs2. rewrite Hr1 in Hr2.
    destruct r2 as [lesson|e2].
    { exists (sent1 ++ sent2), [2000]. simpl.
      rewrite app_assoc, length_app.
      split; [done|]. split; [done|]. split; [lia|].
      split; [right; split; [done|by left]|]. left. by exists lesson. }
    destruct (attempt cfg c h (sleep 5000 w2)) as [r3 w3] eqn:H3.
    apply attempt_effort in H3 as (Hs3 & sent3 & Hr3 & Hlen3).
    simpl in Hs3, Hr3. rewrite Hs2, <- app_assoc in Hs3. rewrite Hr2 in Hr3.
    exists (sent1 ++ sent2 ++ sent3), [2000; 5000].
    rewrite <- !app_assoc in Hr3. rewrite !length_app.
    destruct r3 as [lesson|e3]; simpl;
      (split; [done|]; split; [done|]; split; [lia|];
       split; [right; split; [done|by right]|]);
      [left; by exists lesson|by right].
Qed.

(** X5.  What a run costs at most: a dry run sends at most 4 requests
    and takes no delay; a normal run sends at most 12 requests and its
    delays are none, 2000 ms, or 2000 ms and then 5000 ms.  Every run
    ends, with exit code 0 or with exit code 1. *)
Theorem main_effort cfg w :
  ∃ sent delays,
    requests (main cfg w).2 = requests w ++ sent
    ∧ slept (main cfg w).2 = slept w ++ delays
    ∧ (length sent ≤ if dryRun cfg then 4 else 12)%nat
    ∧ (delays = []
       ∨ dryRun cfg = false ∧ (delays = [2000] ∨ delays = [2000; 5000]))
    ∧ (exit_code (main cfg w).1 = Some 0 ∨ exit_code (main cfg w).1 = Some 1).
Proof.
  assert (∀ e, (e = Returned ∨ e = Exited 1) →
    ∃ sent delays,
      requests w = requests w ++ sent
      ∧ slept w = slept w ++ delays
      ∧ (length sent ≤ if dryRun cfg then 4 else 12)%nat
      ∧ (delays = []
         ∨ dryRun cfg = false ∧ (delays = [2000] ∨ delays = [2000; 5000]))
      ∧ (exit_code e = Some 0 ∨ exit_code e = Some 1)) as Hidle.
  { intros e He. exists [], []. rewrite !app_nil_r.
    split; [done|]. split; [done|].
    split; [destruct (dryRun cfg); simpl; lia|]. split; [by left|].
    destruct He as [->| ->]; [by left|by right]. }
  unfold main.
  destruct (flattenTopics _) as [candidates|]; [|apply Hidle; by right].
  destruct (_ && _); [apply Hidle; by left|].
  destruct (pickCandidate _ _) as [c|]; [|apply Hidle; by right].
  destruct (retry_loop_effort cfg c (daily w) w)
    as (sent & delays & Hsent & Hslept & Hlen & Hdelays & Hend).
  exists sent, delays.
  destruct (retry_loop 3 cfg c (daily w) 0 w) as [[lesson| |code|] w1];
    simpl in *.
  - destruct (rollWindowAndArchive _ _ _ _) as [kept files].
    destruct (dryRun cfg); simpl;
      (split; [done|]; split; [done|]; split; [done|]; split; [done|by left]).
  - by destruct Hend as [[? [=]]|[=]].
  - destruct Hend as [[? [=]]|[= ->]].
    split; [done|]. split; [done|]. split; [done|]. split; [done|by right].
  - by destruct Hend as [[? [=]]|[=]].
Qed.

Lemma normalizeSources_length raw l :
  normalizeSources raw = Ok l → (length l ≤ 6)%nat.
Proof.
  destruct raw as [[| | | |items|]|]; simpl; try (intros [= <-]; simpl; lia).
  destruct (map_result _ items) as [l'|]; [|done].
  simpl. intros [= <-]. rewrite length_take. lia.
Qed.

(** The entry [coerceLesson] builds. *)
Lemma coerceLesson_entry c lesson date w e w' :
  coerceLesson c lesson date w = (Ok e, w') →
  e_date e = Some date
  ∧ e_meta e = Some (lesson_meta c)
  ∧ (length (e_sources e) ≤ 6)%nat
  ∧ e_id e = randomUUID (drawn w).
Proof.
  unfold coerceLesson, bind, lift, draw_uuid, ret.
  destruct (rbind (get "sources" lesson) normalizeSources) as [sources|] eqn:Hs;
    [|done].
  destruct (rbind (get "practice" lesson) normalizePractice); [|done].
  simpl.
  destruct (get "topic" lesson); [|done].
  destruct (get "summary" lesson); [|done].
  destruct (get "key_points" lesson); [|done].
  destruct (get "risk_notes" lesson); [|done].
  intros [= <- <-]. simpl. split; [done|]. split; [done|]. split; [|done].
  destruct (get "sources" lesson) as [raw|]; [|done].
  by apply (normalizeSources_length raw).
Qed.

Lemma attempt_entry cfg c h w e w' :
  attempt cfg c h w = (Ok e, w') →
  e_date e = Some (todayStr cfg) ∧ e_meta e = Some (lesson_meta c)
  ∧ (length (e_sources e) ≤ 6)%nat.
Proof.
  unfold attempt, bind.
  destruct (generateLesson _ _ _ _) as [[content|] w1]; [|done].
  intros Hrun. apply coerceLesson_entry in Hrun as (? & ? & ? & _). done.
Qed.

(** A lesson the loop ends with is one an attempt produced. *)
Lemma retry_loop_break fuel cfg c h attempts w lesson w1 :
  retry_loop fuel cfg c h attempts w = (Break lesson, w1) →
  ∃ w0, attempt cfg c h w0 = (Ok lesson, w1).
Proof.
  revert attempts w. induction fuel as [|fuel IH]; intros attempts w; simpl.
  - by destruct (attempts <=? maxRetries (dryRun cfg)).
  - destruct (attempts <=? maxRetries (dryRun cfg)); [|done].
    destruct (attempt cfg c h w) as [[lesson'|e] w'] eqn:Hrun.
    + intros [= <- <-]. by exists w.
    + destruct (attempts + 1 >? maxRetries (dryRun cfg)); [done|]. apply IH.
Qed.

(** How a run that returns has gone: either the same-day guard fired, or
    a candidate was picked, an attempt produced a lesson dated today for
    it, the archive was written, and (unless the run is dry) the history
    file. *)
Lemma main_returned cfg w :
  (main cfg w).1 = Returned →
  (generated_today (daily w) (todayStr cfg) && negb (dryRun cfg) = true
   ∧ (main cfg w).2 = w)
  ∨ ∃ candidates c lesson,
      generated_today (daily w) (todayStr cfg) && negb (dryRun cfg) = false
      ∧ flattenTopics (topicsRaw cfg) = Ok candidates
      ∧ pickCandidate candidates (daily w) = Some c
      ∧ e_date lesson = Some (todayStr cfg)
      ∧ e_meta lesson = Some (lesson_meta c)
      ∧ (length (e_sources lesson) ≤ 6)%nat
      ∧ archive (main cfg w).2
        = (rollWindowAndArchive (lesson :: daily w) 60 DAILY_ARCH (archive w)).2
      ∧ daily (main cfg w).2
        = if dryRun cfg then daily w else take 60 (lesson :: daily w).
Proof.
  unfold main.
  destruct (flattenTopics _) as [candidates|]; [|done].
  destruct (_ && _) eqn:Hguard; [by left|].
  destruct (pickCandidate _ _) as [c|] eqn:Hpick; [|done].
  pose proof (retry_loop_files 3 cfg c (daily w) 0 w) as [Hdaily Harchive].
  destruct (retry_loop 3 cfg c (daily w) 0 w) as [[lesson| |code|] w1] eqn:Hloop;
    try done.
  simpl in Hdaily, Harchive. intros _. right. exists candidates, c, lesson.
  apply retry_loop_break in Hloop as [w0 Hrun].
  apply attempt_entry in Hrun as (Hdate & Hmeta & Hsources).
  rewrite Harchive.
  pose proof (roll_kept (lesson :: daily w) 60 DAILY_ARCH (archive w)) as Hkept.
  destruct (rollWindowAndArchive _ _ _ _) as [kept files].
  change (kept = take 60 (lesson :: daily w)) in Hkept.
  do 6 (split; [done|]).
  destruct (dryRun cfg); simpl; [done|]. by rewrite Hkept.
Qed.

(** X6.  A normal run that returns without the same-day guard having
    fired has picked a candidate of the catalog and put at the head of
    the history file a lesson dated today that records the candidate;
    behind it come the former entries, cut so that 60 are left at most;
    what was cut has gone through the archival loop. *)
Theorem main_success_entry cfg w :
  dryRun cfg = false →
  generated_today (daily w) (todayStr cfg) = false →
  (main cfg w).1 = Returned →
  ∃ candidates c lesson,
    flattenTopics (topicsRaw cfg) = Ok candidates
    ∧ pickCandidate candidates (daily w) = Some c
    ∧ e_date lesson = Some (todayStr cfg)
    ∧ e_meta lesson = Some (lesson_meta c)
    ∧ daily (main cfg w).2 = lesson :: take 59 (daily w)
    ∧ archive (main cfg w).2
      = (rollWindowAndArchive (lesson :: daily w) 60 DAILY_ARCH (archive w)).2.
Proof.
  intros Hdry Hguard Hend.
  apply main_returned in Hend
    as [[Hfired _]|(candidates & c & lesson & _ & Hflat & Hpick & Hdate & Hmeta
                    & _ & Harchive & Hdaily)].
  { by rewrite Hguard in Hfired. }
  exists candidates, c, lesson. rewrite Hdry in Hdaily. done.
Qed.

(** X7.  Running again on the same day changes nothing: after a normal
    run that returned, a second normal run with the same catalog and date
    returns at once and leaves the world as the first run left it. *)
Theorem main_rerun_same_day cfg w :
  dryRun cfg = false →
  (main cfg w).1 = Returned →
  main cfg (main cfg w).2 = (Returned, (main cfg w).2).
Proof.
  intros Hdry Hend.
  assert (is_ok (flattenTopics (topicsRaw cfg)) = true) as Hflat.
  { revert Hend. unfold main. by destruct (flattenTopics _). }
  assert (generated_today (daily (main cfg w).2) (todayStr cfg) = true)
    as Htoday.
  { apply main_returned in Hend
      as [[Hfired ->]|(candidates & c & lesson & _ & _ & _ & Hdate & _ & _ & _
                       & Hdaily)].
    - by apply andb_true_iff in Hfired as [? _].
    - rewrite Hdaily, Hdry. simpl. by apply bool_decide_eq_true_2. }
  generalize dependent (main cfg w).2. intros w' Htoday.
  unfold main. destruct (flattenTopics _); [|done].
  by rewrite Htoday, Hdry.
Qed.

(** X8.  A dry run never writes the history file, but it does run the
    archival loop: when it returns, the archive is what rolling the
    history with the new lesson in front leaves.  So with a history of 60
    entries a dry run that succeeds adds the oldest entry to the archive
    file of its month, though the entry stays in the history file. *)
Theorem dry_run_archives cfg w :
  dryRun cfg = true →
  daily (main cfg w).2 = daily w
  ∧ ((main cfg w).1 ≠ Returned → archive (main cfg w).2 = archive w)
  ∧ ((main cfg w).1 = Returned →
     (∃ lesson,
        e_date lesson = Some (todayStr cfg)
        ∧ archive (main cfg w).2
          = (rollWindowAndArchive (lesson :: daily w) 60 DAILY_ARCH (archive w)).2)
     ∧ ∀ oldest file,
         length (daily w) = 60%nat →
         last (daily w) = Some oldest →
         filed_under DAILY_ARCH file oldest = true →
         archive (main cfg w).2 !! file
         = Some (js_sort by_date (default [] (archive w !! file) ++ [oldest]))).
Proof.
  intros Hdry. split; [|split].
  - unfold main.
    destruct (flattenTopics _) as [candidates|]; [|done].
    destruct (_ && _); [done|].
    destruct (pickCandidate _ _) as [c|]; [|done].
    pose proof (retry_loop_files 3 cfg c (daily w) 0 w) as [Hdaily _].
    destruct (retry_loop 3 cfg c (daily w) 0 w) as [[lesson| |code|] w1];
      try done.
    simpl in Hdaily. destruct (rollWindowAndArchive _ _ _ _).
    by rewrite Hdry.
  - intros Hend. unfold main in *.
    destruct (flattenTopics _) as [candidates|]; [|done].
    destruct (_ && _); [done|].
    destruct (pickCandidate _ _) as [c|]; [|done].
    pose proof (retry_loop_files 3 cfg c (daily w) 0 w) as [_ Harchive].
    destruct (retry_loop 3 cfg c (daily w) 0 w) as [[lesson| |code|] w1];
      try done.
    simpl in Hend. destruct (rollWindowAndArchive _ _ _ _).
    by rewrite Hdry in Hend.
  - intros Hend.
    apply main_returned in Hend
      as [[Hfired _]|(candidates & c & lesson & _ & _ & _ & Hdate & _ & _
                      & Harchive & _)].
    { by rewrite Hdry, andb_false_r in Hfired. }
    split; [by exists lesson|].
    intros oldest file Hlen Hlast Hfiled. rewrite Harchive.
    apply last_Some in Hlast as [front Hfront].
    assert (length front = 59%nat) as Hfront_len.
    { rewrite Hfront, length_app in Hlen. simpl in Hlen. lia. }
    assert (drop 60 (lesson :: daily w) = [oldest]) as Hdrop.
    { change (drop 60 (lesson :: daily w)) with (drop 59 (daily w)).
      rewrite Hfront, <- Hfront_len. apply drop_app_length. }
    unfold rollWindowAndArchive.
    assert ((length (lesson :: daily w) <=? 60)%nat = false) as ->
      by (apply Nat.leb_gt; simpl; lia).
    rewrite Hdrop. simpl. by rewrite archive_entry_lookup, Hfiled.
Qed.

(** X9.  A catalog that holds no topic (an empty list, which is also
    what a missing catalog file is read as; levels without categories;
    categories without topics) flattens to no candidate, and the run then
    ends with exit code 1 without a request, a delay or a write, unless
    the same-day guard has ended it before. *)
Theorem empty_catalog_exits cfg w :
  nested_topics (topicsRaw cfg) = [] →
  flattenTopics (topicsRaw cfg) = Ok []
  ∧ main cfg w
    = (if generated_today (daily w) (todayStr cfg) && negb (dryRun cfg)
       then Returned else Exited 1, w).
Proof.
  intros Hnone.
  assert (flattenTopics (topicsRaw cfg) = Ok []) as Hflat.
  { unfold flattenTopics. rewrite for_levels_named, Hnone; [done|].
    rewrite Hnone. constructor. }
  split; [done|]. unfold main. rewrite Hflat.
  by destruct (_ && _).
Qed.

(** X10.  The tags of a lesson hold no empty text.  When the candidate
    has a difficulty the last tag is its label, one of the five, the
    difficulty being clamped to 1..5: anything below 1 is labelled as 1
    and anything above 5 as 5. *)
Theorem lesson_tags c :
  Forall (fun t => t ≠ "") (m_tags (lesson_meta c))
  ∧ ∀ v, cand_difficulty c = Some v →
      last (m_tags (lesson_meta c)) = Some (mapDifficultyLabel (Some v))
      ∧ mapDifficultyLabel (Some v) ∈ map DIFFICULTY_LABELS [1; 2; 3; 4; 5]
      ∧ (v ≤ 1 → mapDifficultyLabel (Some v) = DIFFICULTY_LABELS 1)
      ∧ (1 ≤ v ≤ 5 → mapDifficultyLabel (Some v) = DIFFICULTY_LABELS v)
      ∧ (5 ≤ v → mapDifficultyLabel (Some v) = DIFFICULTY_LABELS 5).
Proof.
  split.
  - unfold lesson_meta. cbn [m_tags]. apply Forall_forall. intros t Ht.
    apply list_elem_of_In, filter_In in Ht as [_ Ht]. by intros ->.
  - intros v Hv. unfold mapDifficultyLabel.
    assert (Z.max 1 (Z.min 5 v) = 1 ∨ Z.max 1 (Z.min 5 v) = 2
            ∨ Z.max 1 (Z.min 5 v) = 3 ∨ Z.max 1 (Z.min 5 v) = 4
            ∨ Z.max 1 (Z.min 5 v) = 5) as Hcases by lia.
    split; [|split; [|split; [|split]]].
    + unfold lesson_meta. cbn [m_tags]. rewrite Hv. unfold mapDifficultyLabel.
      assert (is_empty (DIFFICULTY_LABELS (Z.max 1 (Z.min 5 v))) = false)
        as Hne by (by destruct Hcases as [->|[->|[->|[->| ->]]]]).
      simpl. rewrite Hne. by destruct (is_empty (cand_category c)).
    + destruct Hcases as [->|[->|[->|[->| ->]]]]; simpl;
        repeat first [by left|right].
    + intros ?. f_equal. lia.
    + intros ?. f_equal. lia.
    + intros ?. f_equal. lia.
Qed.

(** ** Files *)

Lemma tmp_path_other filePath : tmp_path filePath ≠ filePath.
Proof.
  unfold tmp_path. intros Heq. apply (f_equal String.length) in Heq.
  rewrite !append_length in Heq. simpl in Heq. lia.
Qed.

(** X22.  [writeJSON] replaces a file in one step: writing the temporary
    file leaves the file itself as it was, and after the rename the file
    holds the whole new text, the temporary file is gone and no other
    file has changed.  Reading the file back yields the data written,
    provided the text written parses back to it. *)
Theorem writeJSON_then_readJSON files filePath data :
  writeFile (tmp_path filePath) (file_text data) files !! filePath
  = files !! filePath
  ∧ writeJSON files filePath data !! filePath = Some (file_text data)
  ∧ writeJSON files filePath data !! tmp_path filePath = None
  ∧ (∀ other, other ≠ filePath → other ≠ tmp_path filePath →
       writeJSON files filePath data !! other = files !! other)
  ∧ (∀ fallback,
       JSON_parse (file_text data) = Some data →
       trim (file_text data) ≠ "" →
       readJSON (writeJSON files filePath data) filePath fallback = Ok data).
Proof.
  pose proof (tmp_path_other filePath) as Htmp.
  assert (writeJSON files filePath data
          = <[filePath := file_text data]>
              (delete (tmp_path filePath)
                 (<[tmp_path filePath := file_text data]> files))) as Hwrite.
  { unfold writeJSON, rename, writeFile. by rewrite lookup_insert_eq. }
  assert (writeJSON files filePath data !! filePath = Some (file_text data))
    as Hfile by (by rewrite Hwrite, lookup_insert_eq).
  split; [by apply lookup_insert_ne|]. split; [done|]. split; [|split].
  - rewrite Hwrite, lookup_insert_ne by done. apply lookup_delete_eq.
  - intros other H1 H2.
    rewrite Hwrite, lookup_insert_ne, lookup_delete_ne, lookup_insert_ne; done.
  - intros fallback Hparse Hblank. unfold readJSON. rewrite Hfile, Hparse.
    by destruct (trim (file_text data)).
Qed.

(** ** The scoring function *)

Lemma categoryCount_bound c history : (categoryCount c history ≤ 7)%nat.
Proof.
  unfold categoryCount.
  pose proof (List.filter_length_le (same_category c) (take 7 history)) as Hle.
  rewrite length_take in Hle. lia.
Qed.

#[local] Set Warnings "-inexact-float".

Ltac score_cases :=
  repeat match goal with
         | H : _ ∨ _ |- _ => destruct H as [H|H]
         | H : _ ∈ _ :: _ |- _ => apply elem_of_cons in H as [H|H]
         | H : _ ∈ [] |- _ => by apply elem_of_nil in H
         end;
  subst; vm_compute; reflexivity.

Lemma total_range progress n relation diversity cooldown difficulty :
  progress = 0.3%float ∨ progress = 1%float →
  n ∈ [0; 1; 2; 3; 4; 5; 6; 7]%nat →
  relation = 1%float ∨ relation = 0.4%float →
  diversity = 1%float ∨ diversity = 0.4%float →
  cooldown = (-5)%float ∨ cooldown = 0%float →
  difficulty = (-2)%float ∨ difficulty = 0%float →
  let score :=
    total progress (1 - Math_min (count_number n / 7) 1)%float relation
      diversity cooldown difficulty in
  (score <=? 1)%float = true
  ∧ (-7 <=? score)%float = true
  ∧ (progress = 0.3%float → cooldown = (-5)%float → (score <? -4)%float = true)
  ∧ (progress = 1%float → cooldown = 0%float → difficulty = 0%float →
     (0.5 <=? score)%float = true).
Proof.
  intros Hp Hn Hr Hd Hc Hg. simpl. split; [score_cases|].
  split; [score_cases|]. split.
  - intros -> ->. clear Hp Hc. score_cases.
  - intros -> -> ->. clear Hp Hc Hg. score_cases.
Qed.

(** X13.  The score of a candidate is at most 1 and at least -7.  A
    candidate used fewer than 45 days ago scores below -4; a candidate
    never used whose difficulty penalty is zero scores at least 0.5, so
    above any candidate in its cooldown. *)
Theorem scoreCandidate_range todayStr c history summary :
  let score := scoreCandidate todayStr c history summary in
  (score <=? 1)%float = true
  ∧ (-7 <=? score)%float = true
  ∧ (in_cooldown todayStr summary c → (score <? -4)%float = true)
  ∧ (lastUsed summary c = None → difficultyPenalty c history = 0%float →
     (0.5 <=? score)%float = true).
Proof.
  pose proof (categoryCount_bound c history) as Hcount.
  assert (categoryCount c history ∈ [0; 1; 2; 3; 4; 5; 6; 7]%nat) as Hn.
  { destruct (categoryCount c history) as [|[|[|[|[|[|[|[|n]]]]]]]];
      [repeat first [by left|right]..|lia]. }
  assert (progressScore summary c = 0.3%float
          ∨ progressScore summary c = 1%float) as Hp.
  { unfold progressScore. destruct (lastUsed summary c); [by left|by right]. }
  assert (relationScore c history = 1%float
          ∨ relationScore c history = 0.4%float) as Hr.
  { unfold relationScore. destruct (existsb _ _); [by left|by right]. }
  assert (diversityScore c history = 1%float
          ∨ diversityScore c history = 0.4%float) as Hd.
  { unfold diversityScore. destruct (lastCategory history); [|by right].
    destruct (_ && _); [by left|by right]. }
  assert (cooldownPenalty todayStr summary c = (-5)%float
          ∨ cooldownPenalty todayStr summary c = 0%float) as Hc.
  { unfold cooldownPenalty. destruct (lastUsed summary c); [|by right].
    destruct (daysBetween _ _) as [days|]; [|by right].
    destruct (days <? cooldownDays); [by left|by right]. }
  assert (difficultyPenalty c history = (-2)%float
          ∨ difficultyPenalty c history = 0%float) as Hg.
  { unfold difficultyPenalty. destruct (difficultyGap c history) as [gap|];
      [|by right].
    destruct (gap >? 1); [by left|by right]. }
  destruct (total_range _ _ _ _ _ _ Hp Hn Hr Hd Hc Hg)
    as (Hmax & Hmin & Hcool & Hfresh).
  split; [exact Hmax|]. split; [exact Hmin|]. split.
  - intros (date & days & Hused & Hdays & Hlt). apply Hcool.
    + unfold progressScore. by rewrite Hused.
    + unfold cooldownPenalty. rewrite Hused, Hdays.
      by rewrite (proj2 (Z.ltb_lt _ _) Hlt).
  - intros Hunused Hgap. apply Hfresh; [| |done].
    + unfold progressScore. by rewrite Hunused.
    + unfold cooldownPenalty. by rewrite Hunused.
Qed.

(** ** The search proxy *)

(** The minimum is not above its second argument. *)
Lemma Math_min_not_above (a b : float) : (b <? Math_min a b)%float = false.
Proof.
  unfold Math_min.
  destruct (PrimFloat.is_nan a || PrimFloat.is_nan b); [apply ltb_nan_r|].
  destruct (a <? b)%float eqn:Hab; [by apply ltb_asym|].
  destruct (b <? a)%float eqn:Hba; [apply ltb_irrefl|].
  destruct (PrimFloat.get_sign a); [done|apply ltb_irrefl].
Qed.

Lemma clampNumber_not_above value min max fallback :
  (max <? fallback)%float = false →
  (max <? clampNumber value min max fallback)%float = false.
Proof.
  intros Hfallback. unfold clampNumber.
  destruct (negb (is_finite _)); [done|]. apply Math_min_not_above.
Qed.

Lemma Math_max_bounds (a b : float) :
  PrimFloat.is_nan a = false → PrimFloat.is_nan b = false →
  PrimFloat.is_nan (Math_max a b) = false
  ∧ (a <=? Math_max a b)%float = true ∧ (b <=? Math_max a b)%float = true.
Proof.
  intros Ha Hb. unfold Math_max. rewrite Ha, Hb. simpl.
  destruct (a <? b)%float eqn:Hab.
  { split; [done|]. split; [by apply ltb_leb|by apply leb_refl]. }
  destruct (b <? a)%float eqn:Hba.
  { split; [done|]. split; [by apply leb_refl|by apply ltb_leb]. }
  destruct (PrimFloat.get_sign a);
    (split; [done|]; split; first [by apply leb_refl|by apply leb_of_not_ltb]).
Qed.

Lemma Math_min_bounds (a b : float) :
  PrimFloat.is_nan a = false → PrimFloat.is_nan b = false →
  (Math_min a b = a ∨ Math_min a b = b)
  ∧ (Math_min a b <=? a)%float = true ∧ (Math_min a b <=? b)%float = true.
Proof.
  intros Ha Hb. unfold Math_min. rewrite Ha, Hb. simpl.
  destruct (a <? b)%float eqn:Hab.
  { split; [by left|]. split; [by apply leb_refl|by apply ltb_leb]. }
  destruct (b <? a)%float eqn:Hba.
  { split; [by right|]. split; [by apply ltb_leb|by apply leb_refl]. }
  destruct (PrimFloat.get_sign a);
    (split; [first [by left|by right]|];
     split; first [by apply leb_refl|by apply leb_of_not_ltb]).
Qed.

(** X23.  [clampNumber] answers the fallback when the value is not a
    finite number; for a finite number and bounds in order the answer
    lies between the bounds; when a bound is [NaN] the answer for a
    finite number is [NaN]. *)
Theorem clampNumber_range value min max fallback :
  let num := as_number value in
  (is_finite num = false → clampNumber value min max fallback = fallback)
  ∧ (is_finite num = true → (min <=? max)%float = true →
     (min <=? clampNumber value min max fallback)%float = true
     ∧ (clampNumber value min max fallback <=? max)%float = true)
  ∧ (is_finite num = true →
     PrimFloat.is_nan min || PrimFloat.is_nan max = true →
     PrimFloat.is_nan (clampNumber value min max fallback) = true).
Proof.
  simpl. unfold clampNumber. split; [by intros ->|]. split.
  - intros Hfinite Hle. rewrite Hfinite. simpl.
    apply leb_not_nan in Hle as Hnan. destruct Hnan as [Hmin Hmax].
    assert (PrimFloat.is_nan (as_number value) = false) as Hnum.
    { unfold is_finite in Hfinite.
      apply andb_true_iff in Hfinite as [Hfinite _]. by apply negb_true_iff. }
    destruct (Math_max_bounds _ _ Hnum Hmin) as (Hx & _ & Hminx).
    destruct (Math_min_bounds _ _ Hx Hmax) as (Hcase & _ & Hrmax).
    split; [|done]. by destruct Hcase as [-> | ->].
  - intros Hfinite Hnan. rewrite Hfinite. simpl.
    unfold Math_min, Math_max.
    destruct (PrimFloat.is_nan min) eqn:Hmin.
    + by rewrite orb_true_r.
    + simpl in Hnan. rewrite Hnan, !orb_true_r. reflexivity.
Qed.

Lemma search_result_of_url item url r :
  search_result_of item url = Ok r → r_url r = url.
Proof.
  unfold search_result_of. destruct (cleanSnippet _); [|done].
  by intros [= <-].
Qed.

Lemma collect_bounded limit items results out :
  (10 <? limit)%float = false →
  (length results ≤ 10)%nat →
  Forall url_accepted results →
  collect limit items results = Ok out →
  (length out ≤ 10)%nat
  ∧ Forall url_accepted out
  ∧ ∃ added,
      out = results ++ added
      ∧ map r_url added `sublist_of` omap (truthy_at "url") items.
Proof.
  intros Hlimit. revert results.
  induction items as [|item rest IH]; intros results Hlen Hurls; simpl.
  { intros [= <-]. split; [done|]. split; [done|].
    exists []. by rewrite app_nil_r. }
  destruct (count_number (length results) <? limit)%float eqn:Htest; simpl.
  2:{ intros [= <-]. split; [done|]. split; [done|].
      exists []. rewrite app_nil_r. split; [done|]. apply sublist_nil_l. }
  assert (length results ≠ 10%nat) as Hroom.
  { intros Hfull. rewrite Hfull in Htest.
    change (count_number 10) with 10%float in Htest. congruence. }
  destruct (truthy_at "url" item) as [url|] eqn:Hurl.
  2:{ intros Hrun. by apply IH. }
  destruct (to_string url) as [text|] eqn:Htext; [|done]. simpl.
  destruct (starts_http text) eqn:Hhttp; simpl.
  2:{ intros Hrun.
      destruct (IH results Hlen Hurls Hrun) as (? & ? & added & ? & Hsub).
      split; [done|]. split; [done|]. exists added. split; [done|].
      by apply sublist_cons. }
  destruct (search_result_of item url) as [r|] eqn:Hr; [|done]. simpl.
  intros Hrun. apply search_result_of_url in Hr as Hrurl.
  destruct (IH (results ++ [r])) as (? & ? & added & -> & Hsub); [| |done|].
  - rewrite length_app. simpl. lia.
  - apply Forall_app. split; [done|]. constructor; [|done].
    unfold url_accepted. rewrite Hrurl. split; [|by exists text].
    unfold truthy_at in Hurl. destruct (truthy item); [|done].
    destruct (field "url" item) as [x|]; [|done].
    destruct (truthy x) eqn:Hx; [|done]. by injection Hurl as <-.
  - split; [done|]. split; [done|]. exists (r :: added).
    rewrite <- app_assoc. split; [done|]. simpl. rewrite Hrurl.
    by apply sublist_skip.
Qed.

(** X24.  Whatever the upstream answer and whatever limit is asked for,
    the normalizer returns at most 10 results; the url of each is truthy
    and its text begins with [http:] or [https:] (in any case of the
    letters); and the urls are urls of the upstream results, in the
    upstream order. *)
Theorem normalizeBraveResults_bounded data maxResults out :
  normalizeBraveResults data maxResults = Ok out →
  (length (n_results out) ≤ 10)%nat
  ∧ Forall url_accepted (n_results out)
  ∧ map r_url (n_results out)
    `sublist_of` omap (truthy_at "url") (webResults data).
Proof.
  unfold normalizeBraveResults.
  destruct (collect _ _ []) as [results|] eqn:Hrun; [|done].
  simpl. intros [= <-]. simpl.
  apply collect_bounded in Hrun as (? & ? & added & -> & ?);
    [done| |simpl; lia|constructor].
  by apply clampNumber_not_above.
Qed.

End Program.

(** * Properties of the helpers *)

(** ** White space *)

(** A white-space character at the head is stripped whatever follows. *)
Lemma strip_space_code p rest :
  p ∈ map of_codes space_codes → strip_space (p +:+ rest) = Some rest.
Proof.
  intros Hp. unfold space_codes in Hp. simpl in Hp.
  repeat (apply elem_of_cons in Hp as [->|Hp]; [reflexivity|]).
  by apply elem_of_nil in Hp.
Qed.

Lemma strip_space_Some s rest :
  strip_space s = Some rest ↔ ∃ p, p ∈ map of_codes space_codes ∧ s = p +:+ rest.
Proof.
  split.
  - apply strip_any_Some.
  - intros (p & Hp & ->). by apply strip_space_code.
Qed.

Lemma strip_space_app s rest t :
  strip_space s = Some rest → strip_space (s +:+ t) = Some (rest +:+ t).
Proof.
  intros (p & Hp & ->)%strip_space_Some.
  rewrite append_assoc. by apply strip_space_code.
Qed.

Lemma skip_spaces_in_fuel f1 f2 s :
  (String.length s ≤ f1)%nat → (String.length s ≤ f2)%nat →
  skip_spaces_in f1 s = skip_spaces_in f2 s.
Proof.
  revert f2 s. induction f1 as [|f1 IH]; intros f2 s H1 H2.
  - destruct s; [|simpl in H1; lia]. by destruct f2.
  - destruct f2 as [|f2]; [destruct s; [done|simpl in H2; lia]|].
    simpl. destruct (strip_space s) as [rest|] eqn:Hs; [|done].
    apply strip_space_shorter in Hs. apply IH; lia.
Qed.

Lemma skip_spaces_in_enough fuel s :
  (String.length s ≤ fuel)%nat → skip_spaces_in fuel s = skip_spaces s.
Proof. intros Hlen. by apply skip_spaces_in_fuel. Qed.

Lemma skip_spaces_step s rest :
  strip_space s = Some rest → skip_spaces s = skip_spaces rest.
Proof.
  intros Hs. pose proof (strip_space_shorter _ _ Hs) as Hshort.
  unfold skip_spaces at 1. destruct s as [|c s]; [done|].
  cbn [String.length skip_spaces_in]. rewrite Hs.
  apply skip_spaces_in_enough. simpl in Hshort. lia.
Qed.

Lemma skip_spaces_stop s : strip_space s = None → skip_spaces s = s.
Proof.
  intros Hs. unfold skip_spaces. destruct s as [|c s]; [done|].
  cbn [String.length skip_spaces_in]. by rewrite Hs.
Qed.

Lemma all_spaces_app a b :
  all_spaces a = true → skip_spaces (a +:+ b) = skip_spaces b.
Proof.
  remember (String.length a) as n eqn:Hn. revert a Hn.
  induction n as [n IH] using lt_wf_ind. intros a Hn Hall.
  destruct (strip_space a) as [rest|] eqn:Hs.
  - pose proof (strip_space_shorter _ _ Hs) as Hshort.
    rewrite (skip_spaces_step _ _ (strip_space_app _ _ b Hs)).
    apply (IH (String.length rest)); [lia|done|].
    unfold all_spaces in *. by rewrite <- (skip_spaces_step _ _ Hs).
  - unfold all_spaces in Hall. rewrite skip_spaces_stop in Hall by done.
    by destruct a.
Qed.

Lemma trim_end_split s : ∃ t, s = trim_end s +:+ t ∧ all_spaces t = true.
Proof.
  induction s as [|c s (t & IH & Ht)]; [by exists ""|].
  simpl. destruct (all_spaces (String c s)) eqn:Hall.
  - by exists (String c s).
  - exists t. by rewrite append_cons, <- IH.
Qed.

Lemma trim_end_idem s : trim_end (trim_end s) = trim_end s.
Proof.
  induction s as [|c s IH]; [done|]. simpl.
  destruct (all_spaces (String c s)) eqn:Hall; [done|].
  simpl. rewrite IH.
  destruct (all_spaces (String c (trim_end s))) eqn:Hall'; [|done].
  destruct (trim_end_split s) as (t & Hs & Ht).
  assert (all_spaces (String c s) = true); [|congruence].
  rewrite Hs at 1. rewrite <- append_cons. unfold all_spaces.
  rewrite all_spaces_app by done. exact Ht.
Qed.

(** Trimming what is trimmed changes nothing. *)
Lemma trim_idem s : trim (trim s) = trim s.
Proof.
  unfold trim at 1. rewrite (skip_spaces_stop _ (trim_no_leading_space s)).
  unfold trim. apply trim_end_idem.
Qed.

Lemma trim_blank s : all_spaces s = true → trim s = "".
Proof.
  unfold trim, all_spaces. intros H. by destruct (skip_spaces s).
Qed.
Lemma strip_space_visible c r : visible c = true → strip_space (String c r) = None.
Proof.
  intros Hc. destruct (strip_space (String c r)) as [rest|] eqn:Hs; [|done].
  apply strip_any_Some in Hs as (p & Hp & Heq). exfalso.
  unfold space_codes in Hp. simpl in Hp.
  repeat (apply elem_of_cons in Hp as [->|Hp];
          [injection Heq as -> _; discriminate Hc|]).
  by apply elem_of_nil in Hp.
Qed.

Lemma all_spaces_visible c r : visible c = true → all_spaces (String c r) = false.
Proof.
  intros Hc. unfold all_spaces.
  by rewrite skip_spaces_stop by (by apply strip_space_visible).
Qed.

Lemma strip_space_blank c r :
  Ascii.eqb c " " || Ascii.eqb c (ascii_of_nat 9) = true →
  strip_space (String c r) = Some r.
Proof.
  intros Hc. apply orb_true_iff in Hc as [->%Ascii.eqb_eq| ->%Ascii.eqb_eq];
    reflexivity.
Qed.

Lemma blanks_cons c s :
  blanks (String c s)
  = (Ascii.eqb c " " || Ascii.eqb c (ascii_of_nat 9)) && blanks s.
Proof. reflexivity. Qed.

Lemma skip_spaces_blanks pad s :
  blanks pad = true → skip_spaces (pad +:+ s) = skip_spaces s.
Proof.
  induction pad as [|c pad IH]; [done|].
  rewrite blanks_cons, append_cons. intros [Hc Hpad]%andb_true_iff.
  rewrite (skip_spaces_step _ _ (strip_space_blank c _ Hc)). by apply IH.
Qed.

Lemma all_spaces_blanks pad : blanks pad = true → all_spaces pad = true.
Proof.
  unfold all_spaces. induction pad as [|c pad IH]; [done|].
  rewrite blanks_cons. intros [Hc Hpad]%andb_true_iff.
  rewrite (skip_spaces_step _ _ (strip_space_blank c _ Hc)). by apply IH.
Qed.

Lemma strip_space_no_lead c r :
  space_lead c = false → strip_space (String c r) = None.
Proof.
  intros Hc. destruct (strip_space (String c r)) as [rest|] eqn:Hs; [|done].
  apply strip_any_Some in Hs as (p & Hp & Heq). exfalso.
  unfold space_codes in Hp. simpl in Hp.
  repeat (apply elem_of_cons in Hp as [->|Hp];
          [injection Heq as -> _; discriminate Hc|]).
  by apply elem_of_nil in Hp.
Qed.

Lemma all_spaces_no_lead c r : space_lead c = false → all_spaces (String c r) = false.
Proof.
  intros Hc. unfold all_spaces.
  by rewrite skip_spaces_stop by (by apply strip_space_no_lead).
Qed.

(** ** [uniqueBy] *)

Section UniqueByFacts.
Context {A K : Type} `{Countable K} (getKey : A → K).

Lemma uniqueBy_from_keys seen items :
  NoDup (map getKey (uniqueBy_from getKey seen items))
  ∧ (∀ x, x ∈ uniqueBy_from getKey seen items → getKey x ∉ seen)
  ∧ uniqueBy_from getKey seen items `sublist_of` items.
Proof.
  revert seen. induction items as [|item rest IH]; intros seen; simpl.
  - split; [constructor|]. split; [by intros x Hx%elem_of_nil|done].
  - case_bool_decide as Hseen.
    + destruct (IH seen) as (Hnodup & Hfresh & Hsub).
      split; [done|]. split; [done|]. by apply sublist_cons.
    + destruct (IH ({[getKey item]} ∪ seen)) as (Hnodup & Hfresh & Hsub).
      split; [|split].
      * simpl. constructor; [|done]. intros Hin.
        apply list_elem_of_fmap in Hin as (x & Hkey & Hx).
        apply Hfresh in Hx. rewrite <- Hkey in Hx.
        by apply Hx, elem_of_union_l, elem_of_singleton.
      * intros x [->|Hx]%elem_of_cons; [done|].
        apply Hfresh in Hx. intros Hin. by apply Hx, elem_of_union_r.
      * by apply sublist_skip.
Qed.

Lemma uniqueBy_from_find seen items k :
  List.find (fun x => bool_decide (getKey x = k)) (uniqueBy_from getKey seen items)
  = if decide (k ∈ seen) then None
    else List.find (fun x => bool_decide (getKey x = k)) items.
Proof.
  revert seen. induction items as [|item rest IH]; intros seen; simpl.
  - by case_decide.
  - case_bool_decide as Hseen.
    + rewrite IH. case_decide; [done|].
      rewrite bool_decide_eq_false_2; [done|]. by intros <-.
    + simpl. case_bool_decide as Hk.
      * subst k. by rewrite decide_False.
      * rewrite IH. destruct (decide (k ∈ seen)) as [Hin|Hout].
        -- by rewrite decide_True by (by apply elem_of_union_r).
        -- rewrite decide_False; [done|].
           intros [Hs%elem_of_singleton|Hs]%elem_of_union; [by subst|done].
Qed.

Lemma uniqueBy_from_fixed seen items :
  NoDup (map getKey items) →
  (∀ x, x ∈ items → getKey x ∉ seen) →
  uniqueBy_from getKey seen items = items.
Proof.
  revert seen. induction items as [|item rest IH]; intros seen Hnodup Hfresh;
    simpl; [done|].
  apply NoDup_cons in Hnodup as [Hitem Hnodup].
  rewrite bool_decide_eq_false_2 by (apply Hfresh; by left).
  f_equal. apply IH; [done|]. intros x Hx.
  assert (getKey x ≠ getKey item).
  { intros Heq. apply Hitem. rewrite <- Heq. by apply list_elem_of_fmap_2. }
  assert (getKey x ∉ seen) by (apply Hfresh; by right).
  intros [Hs%elem_of_singleton|Hs]%elem_of_union; done.
Qed.

(** X14.  [uniqueBy] keeps one item for each key: the keys of the result
    are distinct, the result is the list with some items left out, in
    the same order, and for every key the item kept is the first item of
    the list that has the key. *)
Theorem uniqueBy_first_of_each_key items :
  NoDup (map getKey (uniqueBy items getKey))
  ∧ uniqueBy items getKey `sublist_of` items
  ∧ ∀ k, List.find (fun x => bool_decide (getKey x = k)) (uniqueBy items getKey)
         = List.find (fun x => bool_decide (getKey x = k)) items.
Proof.
  unfold uniqueBy.
  destruct (uniqueBy_from_keys ∅ items) as (Hnodup & _ & Hsub).
  split; [done|]. split; [done|].
  intros k. rewrite uniqueBy_from_find.
  by rewrite decide_False by apply not_elem_of_empty.
Qed.

(** X15.  A list whose keys are distinct is left as it is, so applying
    [uniqueBy] a second time changes nothing. *)
Theorem uniqueBy_idempotent items :
  (NoDup (map getKey items) → uniqueBy items getKey = items)
  ∧ uniqueBy (uniqueBy items getKey) getKey = uniqueBy items getKey.
Proof.
  assert (∀ l, NoDup (map getKey l) → uniqueBy l getKey = l) as Hfixed.
  { intros l Hl. apply uniqueBy_from_fixed; [done|].
    intros x _. apply not_elem_of_empty. }
  split; [apply Hfixed|]. apply Hfixed.
  by destruct (uniqueBy_from_keys ∅ items) as (Hnodup & _).
Qed.

End UniqueByFacts.

(** ** [i18nPick] *)

Lemma pick_text_skip obj skipped rest :
  Forall (fun lang => no_text obj lang = true) skipped →
  pick_text obj (skipped ++ rest) = pick_text obj rest.
Proof.
  induction 1 as [|lang skipped Hlang _ IH]; [done|]. simpl.
  unfold no_text in Hlang. destruct (string_at lang obj); [|done].
  by rewrite Hlang.
Qed.

Lemma string_at_container name obj value :
  string_at name obj = Some value → i18nPick obj = pick_text obj.
Proof. by destruct obj. Qed.

(** X16.  [i18nPick] answers the text of the first language of [order]
    for which the object has a string that is not blank, trimmed; it
    answers the empty string when there is none (and for anything that is
    not an object).  The answer never begins or ends with white space. *)
Theorem i18nPick_first_text obj order :
  (∀ skipped lang rest value,
     order = skipped ++ lang :: rest →
     Forall (fun l => no_text obj l = true) skipped →
     string_at lang obj = Some value →
     trim value ≠ "" →
     i18nPick obj order = trim value)
  ∧ (Forall (fun l => no_text obj l = true) order → i18nPick obj order = "")
  ∧ trim (i18nPick obj order) = i18nPick obj order.
Proof.
  split; [|split].
  - intros skipped lang rest value -> Hskipped Hvalue Hne.
    rewrite (string_at_container _ _ _ Hvalue), pick_text_skip by done.
    simpl. rewrite Hvalue. destruct (trim value); done.
  - intros Hall.
    assert (pick_text obj order = "") as Hpick.
    { rewrite <- (app_nil_r order). by rewrite pick_text_skip. }
    by destruct obj.
  - assert (trim (pick_text obj order) = pick_text obj order) as Hpick.
    { induction order as [|lang rest IH]; [done|]. simpl.
      destruct (string_at lang obj) as [value|]; [|done].
      destruct (is_empty (trim value)); [done|]. apply trim_idem. }
    by destruct obj.
Qed.

(** ** [loadDotEnv] *)

Lemma set_if_undefined_lookup vars key value k :
  set_if_undefined vars key value !! k
  = match vars !! k with
    | Some v => Some v
    | None =>
        if bool_decide (k = key ∧ key ∉ inherited_names) then Some value
        else None
    end.
Proof.
  unfold set_if_undefined.
  destruct (vars !! key) as [v|] eqn:Hkey.
  - destruct (vars !! k) as [v'|] eqn:Hk; [done|].
    rewrite bool_decide_eq_false_2; [done|]. intros [-> _]. congruence.
  - case_bool_decide as Hin.
    + destruct (vars !! k) as [v'|] eqn:Hk; [done|].
      rewrite bool_decide_eq_false_2; [done|]. by intros [_ ?].
    + destruct (decide (k = key)) as [->|Hne].
      * rewrite lookup_insert_eq, Hkey. by rewrite bool_decide_eq_true_2.
      * rewrite lookup_insert_ne by done.
        destruct (vars !! k); [done|].
        rewrite bool_decide_eq_false_2; [done|]. by intros [? _].
Qed.

Lemma fold_load_line_lookup lines vars k :
  fold_left load_line lines vars !! k
  = match vars !! k with
    | Some v => Some v
    | None =>
        if bool_decide (k ∈ inherited_names) then None
        else snd <$> List.find (fun kv => String.eqb (fst kv) k)
                       (omap env_entry lines)
    end.
Proof.
  revert vars. induction lines as [|line lines IH]; intros vars; simpl.
  - destruct (vars !! k); [done|]. by case_bool_decide.
  - rewrite IH. unfold load_line.
    destruct (env_entry line) as [[key value]|]; simpl; [|done].
    rewrite set_if_undefined_lookup.
    destruct (vars !! k) as [v|]; [done|].
    destruct (String.eqb_spec key k) as [->|Hne].
    + case_bool_decide as Hin.
      * rewrite bool_decide_eq_false_2; [done|]. by intros [_ ?].
      * by rewrite bool_decide_eq_true_2.
    + rewrite bool_decide_eq_false_2; [done|]. by intros [-> _].
Qed.

(** X19.  [loadDotEnv] never changes a variable that is already set,
    whatever the file assigns to it.  It does nothing when the marker
    variable says the file has been loaded, or when there is no file;
    once it has read a file the marker is set, and a later call does
    nothing, whatever the file then holds. *)
Theorem loadDotEnv_keeps_environment file vars :
  (∀ key value,
     vars !! key = Some value → key ≠ ENV_LOADED →
     loadDotEnv file vars !! key = Some value)
  ∧ (vars !! ENV_LOADED = Some "true" ∨ file = None →
     loadDotEnv file vars = vars)
  ∧ (∀ raw later,
       file = Some raw →
       loadDotEnv file vars !! ENV_LOADED = Some "true"
       ∧ loadDotEnv later (loadDotEnv file vars) = loadDotEnv file vars).
Proof.
  split; [|split].
  - intros key value Hkey Hne. unfold loadDotEnv.
    case_bool_decide; [done|]. destruct file as [raw|]; [|done].
    rewrite lookup_insert_ne by done.
    by rewrite fold_load_line_lookup, Hkey.
  - intros [Hloaded| ->]; unfold loadDotEnv.
    + by rewrite bool_decide_eq_true_2.
    + by case_bool_decide.
  - intros raw later ->.
    assert (loadDotEnv (Some raw) vars !! ENV_LOADED = Some "true") as Hflag.
    { unfold loadDotEnv. case_bool_decide; [done|]. apply lookup_insert_eq. }
    split; [done|].
    unfold loadDotEnv at 1. by rewrite bool_decide_eq_true_2.
Qed.

(** X20.  A variable that is not set before (and that is neither the
    marker nor a name the environment object inherits) gets the value of
    the first line of the file that assigns it; later assignments of the
    same name are ignored, and a name no line assigns stays unset. *)
Theorem loadDotEnv_first_assignment raw vars key :
  vars !! ENV_LOADED ≠ Some "true" →
  vars !! key = None →
  key ≠ ENV_LOADED →
  key ∉ inherited_names →
  loadDotEnv (Some raw) vars !! key
  = snd <$> List.find (fun kv => String.eqb (fst kv) key) (assignments raw).
Proof.
  intros Hfresh Hkey Hne Hin. unfold loadDotEnv.
  rewrite bool_decide_eq_false_2 by done.
  rewrite lookup_insert_ne by done.
  rewrite fold_load_line_lookup, Hkey.
  by rewrite bool_decide_eq_false_2.
Qed.

(** *** Decoding an ordinary line *)

(** What the key pattern takes of a key that something other than a key
    character follows. *)
Lemma span_key_text key rest :
  key_text key = true → key_char_at rest = false →
  span_key (key +:+ rest) = (key, rest).
Proof.
  intros [_ Hkey]%andb_true_iff Hrest.
  induction key as [|c key IH].
  - rewrite append_nil. destruct rest as [|c r]; [done|].
    simpl in *. by rewrite Hrest.
  - simpl in Hkey. apply andb_true_iff in Hkey as [Hc Hkey].
    apply andb_true_iff in Hc as [Hc Hhash].
    apply andb_true_iff in Hc as [Hc Heq].
    rewrite append_cons. cbn [span_key key_char_at].
    rewrite Heq, Hhash, strip_space_visible by done. simpl.
    by rewrite IH.
Qed.

Lemma strip_terminator_inline c r :
  visible c || Ascii.eqb c " " || Ascii.eqb c (ascii_of_nat 9) = true →
  strip_any line_terminators (String c r) = None.
Proof.
  intros Hc.
  destruct (strip_any line_terminators (String c r)) as [rest|] eqn:Hs; [|done].
  apply strip_any_Some in Hs as (p & Hp & Heq). exfalso.
  unfold line_terminators in Hp.
  repeat (apply elem_of_cons in Hp as [->|Hp];
          [injection Heq as -> _; discriminate Hc|]).
  by apply elem_of_nil in Hp.
Qed.

(** A value of visible characters, and blanks after it, are taken whole
    by the value pattern. *)
Lemma span_dots_inline value pad :
  forallb visible (list_ascii_of_string value) = true → blanks pad = true →
  span_dots (value +:+ pad) = (value +:+ pad, "").
Proof.
  intros Hvalue Hpad. induction value as [|c value IH].
  - rewrite append_nil. clear Hvalue.
    induction pad as [|c pad IH]; [done|].
    rewrite blanks_cons in Hpad. apply andb_true_iff in Hpad as [Hc Hpad].
    cbn [span_dots]. rewrite strip_terminator_inline, IH; [done|done|].
    rewrite <- orb_assoc. by rewrite Hc, orb_true_r.
  - simpl in Hvalue. apply andb_true_iff in Hvalue as [Hc Hvalue].
    rewrite append_cons. cbn [span_dots].
    rewrite strip_terminator_inline, IH; [done|done|]. by rewrite Hc.
Qed.

Lemma strip_comment_inline value pad :
  forallb visible (list_ascii_of_string value) = true → blanks pad = true →
  strip_comment (value +:+ pad) = value +:+ pad.
Proof.
  intros Hvalue Hpad. induction value as [|c value IH].
  - rewrite append_nil. clear Hvalue.
    induction pad as [|c pad IH]; [done|].
    rewrite blanks_cons in Hpad. apply andb_true_iff in Hpad as [Hc Hpad].
    cbn [strip_comment]. rewrite (strip_space_blank c pad Hc), IH by done.
    destruct pad as [|c' pad]; [done|].
    rewrite blanks_cons in Hpad. apply andb_true_iff in Hpad as [Hc' _].
    simpl. destruct (Ascii.eqb_spec c' "#") as [->|]; [done|done].
  - simpl in Hvalue. apply andb_true_iff in Hvalue as [Hc Hvalue].
    rewrite append_cons. cbn [strip_comment].
    by rewrite strip_space_visible, IH.
Qed.

Lemma trim_end_inline value pad :
  forallb visible (list_ascii_of_string value) = true → blanks pad = true →
  trim_end (value +:+ pad) = value.
Proof.
  intros Hvalue Hpad. induction value as [|c value IH].
  - rewrite append_nil. destruct pad as [|c pad]; [done|].
    simpl. by rewrite all_spaces_blanks.
  - simpl in Hvalue. apply andb_true_iff in Hvalue as [Hc Hvalue].
    rewrite append_cons. cbn [trim_end].
    by rewrite all_spaces_visible, IH.
Qed.

Lemma trim_inline value pad :
  forallb visible (list_ascii_of_string value) = true → blanks pad = true →
  trim (value +:+ pad) = value.
Proof.
  intros Hvalue Hpad. unfold trim.
  destruct value as [|c value].
  - rewrite append_nil.
    pose proof (all_spaces_blanks pad Hpad) as Hall. unfold all_spaces in Hall.
    by destruct (skip_spaces pad).
  - pose proof Hvalue as Hc. simpl in Hc. apply andb_true_iff in Hc as [Hc _].
    rewrite append_cons, skip_spaces_stop by (by apply strip_space_visible).
    rewrite <- append_cons. by apply trim_end_inline.
Qed.

Lemma unquote_unquoted value :
  starts_with QUOTE value = false → starts_with "'" value = false →
  unquote value = value.
Proof. intros H1 H2. unfold unquote. by rewrite H1, H2. Qed.

(** X21.  An ordinary line is decoded as written: a key of visible
    ASCII characters without [=] and [#], an [=], a value of visible
    ASCII characters that does not begin with a quote, with any blanks
    (spaces and tabs) before the key, around the [=] and after the
    value, assigns exactly the value to exactly the key. *)
Theorem env_entry_assignment key value pad1 pad2 pad3 pad4 :
  key_text key = true → value_text value = true →
  blanks pad1 = true → blanks pad2 = true → blanks pad3 = true →
  blanks pad4 = true →
  env_entry (pad1 +:+ key +:+ pad2 +:+ "=" +:+ pad3 +:+ value +:+ pad4)
  = Some (key, value).
Proof.
  intros Hkey Hvalue H1 H2 H3 H4.
  apply andb_true_iff in Hvalue as [Hvalue Hq2].
  apply andb_true_iff in Hvalue as [Hvalue Hq1].
  apply negb_true_iff in Hq1, Hq2.
  set (tail := pad2 +:+ "=" +:+ pad3 +:+ value +:+ pad4).
  pose proof Hkey as Hkey'. apply andb_true_iff in Hkey' as [Hne Hchars].
  destruct key as [|k key]; [done|]. clear Hne.
  simpl in Hchars. apply andb_true_iff in Hchars as [Hk _].
  apply andb_true_iff in Hk as [Hk Hhash].
  apply andb_true_iff in Hk as [Hk Heq].
  assert (skip_spaces (pad1 +:+ String k key +:+ tail) = String k key +:+ tail)
    as Hstart.
  { rewrite skip_spaces_blanks by done.
    rewrite append_cons. by apply skip_spaces_stop, strip_space_visible. }
  assert (key_char_at tail = false) as Htail.
  { unfold tail. destruct pad2 as [|c pad2].
    - by rewrite append_nil.
    - rewrite blanks_cons in H2. apply andb_true_iff in H2 as [Hc _].
      rewrite append_cons. cbn [key_char_at].
      rewrite (strip_space_blank c _ Hc).
      rewrite bool_decide_eq_true_2 by done. by rewrite andb_false_r. }
  unfold env_entry.
  assert (is_empty (pad1 +:+ String k key +:+ tail) = false) as ->.
  { destruct pad1; [by rewrite append_nil|done]. }
  assert (starts_with "#" (trim (pad1 +:+ String k key +:+ tail)) = false) as ->.
  { unfold trim. rewrite Hstart, append_cons. cbn [trim_end].
    rewrite all_spaces_visible by done. simpl.
    by apply negb_true_iff. }
  simpl. unfold match_assignment.
  rewrite Hstart, span_key_text by done. simpl.
  unfold tail. rewrite skip_spaces_blanks by done.
  rewrite skip_spaces_stop by (by apply strip_space_visible).
  rewrite append_cons, append_nil. simpl.
  destruct value as [|v value].
  - rewrite append_nil.
    assert (skip_spaces (pad3 +:+ pad4) = "") as ->.
    { rewrite skip_spaces_blanks by done.
      pose proof (all_spaces_blanks pad4 H4) as Hall. unfold all_spaces in Hall.
      by destruct (skip_spaces pad4). }
    reflexivity.
  - assert (skip_spaces (pad3 +:+ String v value +:+ pad4)
            = String v value +:+ pad4) as ->.
    { rewrite skip_spaces_blanks by done. rewrite append_cons.
      apply skip_spaces_stop, strip_space_visible.
      simpl in Hvalue. by apply andb_true_iff in Hvalue as [? _]. }
    rewrite span_dots_inline by done.
    change (all_spaces "") with true. cbn [mbind option_bind].
    rewrite strip_comment_inline, trim_inline by done.
    by rewrite unquote_unquoted.
Qed.

(** ** [fallbackCandidate] *)

Lemma find_none_mentioned candidates keyword :
  List.find (fun c => includes (cand_title c) keyword) candidates = None
  ↔ mentioned candidates keyword = false.
Proof.
  unfold mentioned. induction candidates as [|c rest IH]; simpl; [done|].
  by destruct (includes (cand_title c) keyword).
Qed.

Lemma fallback_by_skip skipped rest candidates :
  Forall (fun k => mentioned candidates k = false) skipped →
  fallback_by (skipped ++ rest) candidates = fallback_by rest candidates.
Proof.
  induction 1 as [|k skipped Hk _ IH]; [done|]. simpl.
  apply find_none_mentioned in Hk. by rewrite Hk.
Qed.

Lemma fallback_by_member keywords candidates c :
  fallback_by keywords candidates = Some c → c ∈ candidates.
Proof.
  induction keywords as [|k keywords IH]; simpl.
  - destruct candidates; [done|]. intros [= ->]. by left.
  - destruct (List.find _ candidates) as [found|] eqn:Hfind; [|done].
    intros [= <-]. apply find_some in Hfind as [Hin _].
    by apply list_elem_of_In.
Qed.

(** X12.  [fallbackCandidate] answers [null] for the empty list only and
    otherwise a candidate of the list: the first one whose title includes
    the first keyword that any title includes, and the first candidate of
    the list when no title includes a keyword. *)
Theorem fallbackCandidate_by_keyword candidates :
  (fallbackCandidate candidates = None ↔ candidates = [])
  ∧ (∀ c, fallbackCandidate candidates = Some c → c ∈ candidates)
  ∧ (∀ skipped keyword rest,
       FALLBACK_KEYWORDS = skipped ++ keyword :: rest →
       Forall (fun k => mentioned candidates k = false) skipped →
       mentioned candidates keyword = true →
       fallbackCandidate candidates
       = List.find (fun c => includes (cand_title c) keyword) candidates)
  ∧ (Forall (fun k => mentioned candidates k = false) FALLBACK_KEYWORDS →
     fallbackCandidate candidates = head candidates).
Proof.
  unfold fallbackCandidate. split; [|split; [|split]].
  - split.
    + destruct candidates as [|c0 rest]; [done|]. intros Hnone. exfalso.
      revert Hnone. generalize FALLBACK_KEYWORDS. intros keywords.
      induction keywords as [|k keywords IH]; [done|]. cbn [fallback_by].
      by destruct (List.find _ (c0 :: rest)).
    + intros ->. reflexivity.
  - intros c. apply fallback_by_member.
  - intros skipped keyword rest -> Hskipped Hkeyword.
    rewrite fallback_by_skip by done. simpl.
    destruct (List.find _ candidates) as [found|] eqn:Hfind; [done|].
    apply find_none_mentioned in Hfind. congruence.
  - intros Hnone. rewrite <- (app_nil_r FALLBACK_KEYWORDS).
    by rewrite fallback_by_skip.
Qed.
(** ** [slugify] *)

Lemma head_of_app p rest : head_of (p +:+ rest) rest = p.
Proof.
  unfold head_of. rewrite append_length.
  replace (String.length p + String.length rest - String.length rest)%nat
    with (String.length p) by lia.
  induction p as [|c p IH]; [by destruct rest|].
  rewrite append_cons. simpl. by rewrite IH.
Qed.

(** A slug character is a visible one, it is its own lower case, and it
    begins none of the two characters [toLowerCase_ascii] rewrites. *)
Lemma slug_char_facts c :
  slug_char c = true →
  visible c = true
  ∧ ∀ r, toLowerCase_ascii (String c r) = String c (toLowerCase_ascii r).
Proof.
  destruct c as [[] [] [] [] [] [] [] []]; try discriminate; by split.
Qed.

Lemma slug_char_visible c : slug_char c = true → visible c = true.
Proof. intros Hc. by apply slug_char_facts. Qed.

Lemma slug_text_cons c r : slug_text (String c r) = slug_char c && slug_text r.
Proof. reflexivity. Qed.

Lemma keep_slug_in_clean fuel s : clean (keep_slug_in fuel s).
Proof.
  revert s. induction fuel as [|fuel IH]; intros s; simpl; [constructor|].
  destruct (strip_space s) as [rest|] eqn:Hs.
  - apply strip_space_Some in Hs as (p & Hp & ->).
    rewrite head_of_app. by constructor.
  - destruct s as [|c r]; [constructor|].
    destruct (slug_char c) eqn:Hc; [by constructor|done].
Qed.

Lemma clean_strip s rest : clean s → strip_space s = Some rest → clean rest.
Proof.
  intros Hclean Hs. destruct Hclean as [|c r Hc Hr|p r Hp Hr].
  - done.
  - by rewrite strip_space_visible in Hs by (by apply slug_char_visible).
  - rewrite strip_space_code in Hs by done. by injection Hs as <-.
Qed.

Lemma clean_no_space c r :
  clean (String c r) → strip_space (String c r) = None →
  slug_char c = true ∧ clean r.
Proof.
  intros Hclean Hs. inversion Hclean as [|c' r' Hc Hr|p r' Hp Hr Heq]; [done|].
  by rewrite <- Heq, strip_space_code in Hs.
Qed.

Lemma clean_skip_spaces s : clean s → clean (skip_spaces s).
Proof.
  unfold skip_spaces. generalize (String.length s). intros fuel. revert s.
  induction fuel as [|fuel IH]; intros s Hclean; simpl; [done|].
  destruct (strip_space s) as [rest|] eqn:Hs; [|done].
  apply IH. by apply (clean_strip s).
Qed.

(** [trim_end] takes a white-space character whole or leaves it whole. *)
Lemma trim_end_code p r :
  p ∈ map of_codes space_codes →
  trim_end (p +:+ r) = if all_spaces (p +:+ r) then "" else p +:+ trim_end r.
Proof.
  intros Hp. unfold space_codes in Hp. simpl in Hp.
  repeat (apply elem_of_cons in Hp as [->|Hp];
          [cbn [of_codes map string_of_list_ascii];
           rewrite ?append_cons, append_nil; cbn [trim_end];
           rewrite ?all_spaces_no_lead by reflexivity; reflexivity|]).
  by apply elem_of_nil in Hp.
Qed.

Lemma clean_trim_end s : clean s → clean (trim_end s).
Proof.
  induction 1 as [|c r Hc Hr IH|p r Hp Hr IH]; [constructor| |].
  - simpl. destruct (all_spaces (String c r)); [constructor|by constructor].
  - rewrite trim_end_code by done.
    destruct (all_spaces (p +:+ r)); [constructor|by constructor].
Qed.

Lemma clean_trim s : clean s → clean (trim s).
Proof. intros Hs. by apply clean_trim_end, clean_skip_spaces. Qed.

Lemma dash_spaces_in_slug fuel s :
  clean s → slug_text (replace_spaces_in "-" fuel s) = true.
Proof.
  revert s. induction fuel as [|fuel IH]; intros s Hclean; simpl; [done|].
  destruct (strip_space s) as [rest|] eqn:Hs.
  - rewrite slug_text_cons. simpl. apply IH, clean_skip_spaces.
    by apply (clean_strip s).
  - destruct s as [|c r]; [done|].
    destruct (clean_no_space c r Hclean Hs) as [Hc Hr].
    rewrite slug_text_cons, Hc. simpl. by apply IH.
Qed.

Lemma squeeze_dashes_slug s :
  slug_text s = true → slug_text (squeeze_dashes s) = true.
Proof.
  induction s as [|c r IH]; [done|]. rewrite slug_text_cons.
  intros [Hc Hr]%andb_true_iff. simpl.
  destruct (Ascii.eqb c "-" && starts_with "-" r); [by apply IH|].
  rewrite slug_text_cons, Hc. by apply IH.
Qed.

Lemma squeeze_dashes_head c s :
  starts_with c (squeeze_dashes s) = starts_with c s.
Proof.
  induction s as [|x r IH]; [done|]. simpl.
  destruct (Ascii.eqb_spec x "-") as [->|Hx]; [|done]. simpl.
  destruct r as [|y r]; [done|]. simpl in *.
  destruct (Ascii.eqb_spec y "-") as [->|Hy]; [|done]. by rewrite IH.
Qed.

Lemma squeeze_dashes_single s : double_dash (squeeze_dashes s) = false.
Proof.
  induction s as [|c r IH]; [done|]. simpl.
  destruct (Ascii.eqb c "-" && starts_with "-" r) eqn:Hc; [done|].
  simpl. by rewrite squeeze_dashes_head, Hc, IH.
Qed.

(** X17.  Whatever the input, a slug consists of the letters a-z, the
    digits and hyphens only, and it has no two hyphens in a row. *)
Theorem slugify_alphabet input :
  slug_text (slugify input) = true ∧ double_dash (slugify input) = false.
Proof.
  unfold slugify. split; [|apply squeeze_dashes_single].
  apply squeeze_dashes_slug, dash_spaces_in_slug, clean_trim, keep_slug_in_clean.
Qed.

(** *** A slug is left as it is *)

Lemma toLowerCase_ascii_slug s : slug_text s = true → toLowerCase_ascii s = s.
Proof.
  induction s as [|c r IH]; [done|]. rewrite slug_text_cons.
  intros [Hc Hr]%andb_true_iff.
  destruct (slug_char_facts c Hc) as [_ ->]. by rewrite IH.
Qed.

Lemma keep_slug_in_slug fuel s :
  slug_text s = true → (String.length s ≤ fuel)%nat → keep_slug_in fuel s = s.
Proof.
  revert s. induction fuel as [|fuel IH]; intros s Hs Hlen.
  - destruct s; [done|simpl in Hlen; lia].
  - destruct s as [|c r]; [done|]. rewrite slug_text_cons in Hs.
    apply andb_true_iff in Hs as [Hc Hr]. cbn [keep_slug_in].
    rewrite strip_space_visible, Hc by (by apply slug_char_visible).
    rewrite IH; [done|done|simpl in Hlen; lia].
Qed.

Lemma trim_slug s : slug_text s = true → trim s = s.
Proof.
  intros Hs. unfold trim.
  assert (skip_spaces s = s) as ->.
  { destruct s as [|c r]; [done|]. rewrite slug_text_cons in Hs.
    apply andb_true_iff in Hs as [Hc _].
    by apply skip_spaces_stop, strip_space_visible, slug_char_visible. }
  induction s as [|c r IH]; [done|]. rewrite slug_text_cons in Hs.
  apply andb_true_iff in Hs as [Hc Hr]. simpl.
  rewrite all_spaces_visible by (by apply slug_char_visible). by rewrite IH.
Qed.

Lemma dash_spaces_in_slug_id fuel s :
  slug_text s = true → (String.length s ≤ fuel)%nat →
  replace_spaces_in "-" fuel s = s.
Proof.
  revert s. induction fuel as [|fuel IH]; intros s Hs Hlen.
  - destruct s; [done|simpl in Hlen; lia].
  - destruct s as [|c r]; [done|]. rewrite slug_text_cons in Hs.
    apply andb_true_iff in Hs as [Hc Hr]. cbn [replace_spaces_in].
    rewrite strip_space_visible by (by apply slug_char_visible).
    rewrite IH; [done|done|simpl in Hlen; lia].
Qed.

Lemma squeeze_dashes_id s : double_dash s = false → squeeze_dashes s = s.
Proof.
  induction s as [|c r IH]; [done|]. simpl.
  intros [Hc Hr]%orb_false_iff. by rewrite Hc, IH.
Qed.

(** X18.  A text of letters a-z, digits and single hyphens is its own
    slug; hence the slug of a slug is the slug itself. *)
Theorem slugify_fixes_slugs :
  (∀ s, slug_text s = true → double_dash s = false → slugify s = s)
  ∧ ∀ input, slugify (slugify input) = slugify input.
Proof.
  assert (∀ s, slug_text s = true → double_dash s = false → slugify s = s)
    as Hfixed.
  { intros s Hs Hd. unfold slugify, keep_slug, replace_spaces.
    rewrite toLowerCase_ascii_slug, keep_slug_in_slug, trim_slug by done.
    rewrite dash_spaces_in_slug_id by done. by apply squeeze_dashes_id. }
  split; [done|]. intros input. apply Hfixed; unfold slugify.
  - apply squeeze_dashes_slug, dash_spaces_in_slug, clean_trim,
      keep_slug_in_clean.
  - apply squeeze_dashes_single.
Qed.

(** ** Collapsing white space *)

Lemma skip_spaces_suffix s : ∃ x, s = x +:+ skip_spaces s.
Proof.
  unfold skip_spaces. generalize (String.length s). intros fuel. revert s.
  induction fuel as [|fuel IH]; intros s; simpl; [by exists ""|].
  destruct (strip_space s) as [rest|] eqn:Hs; [|by exists ""].
  apply strip_space_Some in Hs as (p & _ & ->).
  destruct (IH rest) as [x Hx]. exists (p +:+ x).
  by rewrite append_assoc, <- Hx.
Qed.

Lemma skip_spaces_length s : (String.length (skip_spaces s) ≤ String.length s)%nat.
Proof.
  destruct (skip_spaces_suffix s) as [x Hx]. rewrite Hx at 2.
  rewrite append_length. lia.
Qed.

Lemma replace_spaces_in_fuel mark f1 f2 s :
  (String.length s ≤ f1)%nat → (String.length s ≤ f2)%nat →
  replace_spaces_in mark f1 s = replace_spaces_in mark f2 s.
Proof.
  revert f2 s. induction f1 as [|f1 IH]; intros f2 s H1 H2.
  - destruct s; [|simpl in H1; lia]. by destruct f2.
  - destruct f2 as [|f2]; [destruct s; [done|simpl in H2; lia]|].
    simpl. destruct (strip_space s) as [rest|] eqn:Hs.
    + apply strip_space_shorter in Hs.
      pose proof (skip_spaces_length rest). f_equal. apply IH; lia.
    + destruct s as [|c r]; [done|]. simpl in H1, H2. f_equal. apply IH; lia.
Qed.

Lemma replace_spaces_space mark s rest :
  strip_space s = Some rest →
  replace_spaces mark s = String mark (replace_spaces mark (skip_spaces rest)).
Proof.
  intros Hs. pose proof (strip_space_shorter _ _ Hs) as Hshort.
  pose proof (skip_spaces_length rest).
  unfold replace_spaces at 1. destruct s as [|c s]; [done|].
  cbn [String.length replace_spaces_in]. rewrite Hs. f_equal.
  apply replace_spaces_in_fuel; simpl in *; lia.
Qed.

Lemma replace_spaces_other mark c r :
  strip_space (String c r) = None →
  replace_spaces mark (String c r) = String c (replace_spaces mark r).
Proof.
  intros Hs. unfold replace_spaces at 1.
  cbn [String.length replace_spaces_in]. by rewrite Hs.
Qed.

(** A byte of the result other than the mark is a byte of the text. *)
Lemma replace_spaces_head mark r b t :
  replace_spaces mark r = String b t → b ≠ mark →
  ∃ r2, r = String b r2 ∧ t = replace_spaces mark r2.
Proof.
  intros Hr Hb. destruct r as [|c r2]; [done|].
  destruct (strip_space (String c r2)) as [rest|] eqn:Hs.
  - rewrite (replace_spaces_space _ _ _ Hs) in Hr. by injection Hr as <- _.
  - rewrite replace_spaces_other in Hr by done. injection Hr as <- <-.
    by exists r2.
Qed.

(** Where the text has no white space at the head, the result has
    none. *)
Lemma replace_spaces_no_space c r :
  strip_space (String c r) = None →
  strip_space (String c (replace_spaces " " r)) = None.
Proof.
  intros Hnone.
  destruct (strip_space (String c (replace_spaces " " r))) as [x|] eqn:Hs;
    [|done].
  apply strip_any_Some in Hs as (p & Hp & Heq). exfalso.
  unfold space_codes in Hp. simpl in Hp.
  repeat (apply elem_of_cons in Hp as [->|Hp];
    [cbn [of_codes map string_of_list_ascii] in Heq;
     rewrite ?append_cons, append_nil in Heq;
     injection Heq as -> Heq;
     try (apply replace_spaces_head in Heq as (r2 & -> & Heq); [|done];
          try (symmetry in Heq;
               apply replace_spaces_head in Heq as (r3 & -> & Heq); [|done]));
     discriminate Hnone|]).
  by apply elem_of_nil in Hp.
Qed.

Lemma single_spaced_cons c text :
  single_spaced text →
  (∀ rest, strip_space (String c text) = Some rest →
     c = " "%char ∧ rest = text ∧ strip_space text = None) →
  single_spaced (String c text).
Proof.
  intros Htext Hhead before after rest Heq Hs.
  destruct before as [|c' before].
  - rewrite append_nil in Heq. subst after.
    destruct (Hhead rest Hs) as (-> & -> & Hnone). done.
  - rewrite append_cons in Heq. injection Heq as -> Heq.
    by apply (Htext before after rest).
Qed.

Lemma replace_spaces_single s : single_spaced (replace_spaces " " s).
Proof.
  remember (String.length s) as n eqn:Hn. revert s Hn.
  induction n as [n IH] using lt_wf_ind. intros s Hn.
  destruct s as [|c r].
  { intros before after rest Heq Hs. destruct before; [|done].
    rewrite append_nil in Heq. by subst after. }
  destruct (strip_space (String c r)) as [rest|] eqn:Hs.
  - rewrite (replace_spaces_space _ _ _ Hs).
    pose proof (strip_space_shorter _ _ Hs) as Hshort.
    pose proof (skip_spaces_length rest) as Hskip.
    apply single_spaced_cons.
    + apply (IH (String.length (skip_spaces rest))); [lia|done].
    + intros x Hx. split; [done|].
      change (strip_space (String " " ?t)) with (Some t) in Hx.
      injection Hx as <-. split; [done|].
      pose proof (skip_spaces_done rest) as Hdone.
      destruct (skip_spaces rest) as [|c' r'] eqn:Hrest; [done|].
      rewrite replace_spaces_other by done.
      by apply replace_spaces_no_space.
  - rewrite replace_spaces_other by done.
    apply single_spaced_cons.
    + apply (IH (String.length r)); [simpl in Hn; lia|done].
    + intros x Hx. by rewrite replace_spaces_no_space in Hx.
Qed.

Lemma append_cancel_r (a b t : string) : a +:+ t = b +:+ t → a = b.
Proof.
  revert b. induction a as [|x a IH]; intros b Heq.
  - destruct b as [|y b]; [done|]. apply (f_equal String.length) in Heq.
    rewrite append_nil, append_cons in Heq. simpl in Heq.
    rewrite append_length in Heq. lia.
  - destruct b as [|y b].
    + apply (f_equal String.length) in Heq.
      rewrite append_nil, append_cons in Heq. simpl in Heq.
      rewrite append_length in Heq. lia.
    + rewrite !append_cons in Heq. injection Heq as -> Heq.
      by rewrite (IH b Heq).
Qed.

Lemma single_spaced_suffix x s : single_spaced (x +:+ s) → single_spaced s.
Proof.
  intros Hs before after rest Heq Hafter.
  apply (Hs (x +:+ before) after rest); [|done].
  by rewrite Heq, append_assoc.
Qed.

Lemma single_spaced_prefix s t : single_spaced (s +:+ t) → single_spaced s.
Proof.
  intros Hs before after rest Heq Hafter.
  destruct (Hs before (after +:+ t) (rest +:+ t)) as [Hspace Hnone].
  - by rewrite Heq, append_assoc.
  - by apply strip_space_app.
  - rewrite <- append_cons in Hspace. apply append_cancel_r in Hspace.
    split; [done|].
    destruct (strip_space rest) as [x|] eqn:Hrest; [|done].
    assert (is_Some (strip_space (rest +:+ t))) as [y Hy].
    { apply strip_any_extend. unfold strip_space in Hrest. by rewrite Hrest. }
    congruence.
Qed.

Lemma single_spaced_trim s : single_spaced s → single_spaced (trim s).
Proof.
  intros Hs. unfold trim.
  destruct (skip_spaces_suffix s) as [x Hx].
  destruct (trim_end_prefix (skip_spaces s)) as [t Ht].
  apply (single_spaced_prefix _ t). rewrite <- Ht.
  apply (single_spaced_suffix x). by rewrite <- Hx.
Qed.

Lemma single_spaced_no_lf text : single_spaced text → has_lf text = false.
Proof.
  induction text as [|c r IH]; [done|]. intros Hs. simpl.
  rewrite IH by (by apply (single_spaced_suffix (String c ""))).
  destruct (Ascii.eqb_spec c LF) as [->|]; [|done].
  destruct (Hs "" (String LF r) r) as [[=] _]; done.
Qed.

(** X25.  A snippet is trimmed and on one line: it neither begins nor
    ends with white space, every white-space character in it is a single
    space that no white-space character follows, so it holds no line
    break; a falsy value gives the empty snippet. *)
Theorem cleanSnippet_single_spaced Number_toString value text :
  cleanSnippet Number_toString value = Ok text →
  trim text = text
  ∧ single_spaced text
  ∧ has_lf text = false
  ∧ (truthy value = false → text = "").
Proof.
  unfold cleanSnippet. destruct (truthy value); simpl.
  - destruct (to_string Number_toString value) as [raw|]; [|done]. simpl.
    intros [= <-].
    assert (single_spaced (trim (replace_spaces " " raw))) as Hs
      by apply single_spaced_trim, replace_spaces_single.
    split; [apply trim_idem|]. split; [done|].
    split; [by apply single_spaced_no_lf|done].
  - intros [= <-]. split; [done|]. split; [|done].
    intros before after rest Heq Hafter. destruct before; [|done].
    rewrite append_nil in Heq. by subst after.
Qed.

(** * Examples *)

(** ** Sample data *)

Definition topic_named (name : string) (order : option float) : topic :=
  {| t_topic := name; t_related_topics := None; t_order := order |}.

(** Two levels; the second category has no recommended order and its
    topics no order of their own. *)
Definition sample_catalog : list level :=
  [ {| l_level := Some "Level 2";
       l_categories := Some
         [ {| c_category := "Investing"; c_difficulty := Some 3;
              c_recommended_order := Some 1%float;
              c_topics := Some [topic_named "Index funds" (Some 2%float);
                                topic_named "Compounding" (Some 1%float)] |} ] |};
    {| l_level := Some "Level 1";
       l_categories := Some
         [ {| c_category := "Budgeting"; c_difficulty := Some 1;
              c_recommended_order := None;
              c_topics := Some [topic_named "Saving" None;
                                topic_named "Spending" None] |};
           {| c_category := "Debt"; c_difficulty := None;
              c_recommended_order := Some 2%float; c_topics := None |} ] |};
    {| l_level := None; l_categories := None |} ].

(** One level whose second topic has the order [NaN]: its category has
    the recommended order -Infinity and the topic the order Infinity,
    which is what [JSON.parse] makes of [-1e999] and [1e999]. *)
Definition unordered_catalog : list level :=
  [ {| l_level := Some "Level 1";
       l_categories := Some
         [ {| c_category := "Budgeting"; c_difficulty := Some 1;
              c_recommended_order := None;
              c_topics := Some [topic_named "Saving" (Some 2%float)] |};
           {| c_category := "Debt"; c_difficulty := Some 1;
              c_recommended_order := Some PrimFloat.neg_infinity;
              c_topics := Some [topic_named "Loans"
                                  (Some PrimFloat.infinity)] |};
           {| c_category := "Investing"; c_difficulty := Some 1;
              c_recommended_order := None;
              c_topics := Some [topic_named "Funds" (Some 1%float)] |} ] |} ].

(** A level that has a topic and no name. *)
Definition nameless_catalog : list level :=
  [ {| l_level := None;
       l_categories := Some
         [ {| c_category := "Budgeting"; c_difficulty := Some 1;
              c_recommended_order := Some 1%float;
              c_topics := Some [topic_named "Saving" (Some 1%float)] |} ] |} ].

Definition candidate_named (id : string) : candidate :=
  {| cand_id := id; cand_title := id; cand_level := "Level 1";
     cand_category := "Budgeting"; cand_difficulty := Some 1;
     cand_related := []; cand_order := 1000%float |}.

(** The entry a run on [date] stores for a candidate, its content left
    at the defaults. *)
Definition entry_for (date : option string) (c : candidate) : entry :=
  {| e_id := "id"; e_date := date; e_topic := JStr (cand_title c);
     e_summary := JStr ""; e_key_points := JArr []; e_practice := [];
     e_risk_notes := JStr ""; e_sources := [];
     e_meta := Some (lesson_meta c) |}.

Definition used_on (date id : string) : entry :=
  entry_for (Some date) (candidate_named id).

Definition no_keys : environment :=
  {| LLM_API_KEY := None; DEEPSEEK_API_KEY := None |}.

Definition with_key : environment :=
  {| LLM_API_KEY := None; DEEPSEEK_API_KEY := Some "sk-test" |}.

Definition fresh_world (history : list entry) : world :=
  {| requests := []; slept := []; daily := history; archive := ∅; drawn := O |}.

Definition catalog_ABC : list candidate :=
  [candidate_named "A"; candidate_named "B"; candidate_named "C"].

(** A history, newest first, in which A was used first and last. *)
Definition history_ACBA : list entry :=
  [ used_on "2024-01-04" "A"; used_on "2024-01-03" "C";
    used_on "2024-01-02" "B"; used_on "2024-01-01" "A" ].

Definition undated : entry := entry_for None (candidate_named "D").

(** The archive directory of [main], with a file for December 2023. *)
Definition december_path : string :=
  "data/ai/wealth/finance-daily-archive/2023-12.json".

Definition january_path : string :=
  "data/ai/wealth/finance-daily-archive/2024-01.json".

Definition december_file : gmap string (list entry) :=
  {[ december_path := [used_on "2023-12-20" "Z"] ]}.

(** [rollWindowAndArchive] with the concrete built-ins. *)
Definition roll (items : list entry) (limit : nat)
    (files : gmap string (list entry))
    : list entry * gmap string (list entry) :=
  rollWindowAndArchive code_compare posix_join utf8_file items limit
    DAILY_ARCH files.

Definition overfull : list entry :=
  [ used_on "2024-01-02" "A"; used_on "2024-01-01" "B";
    used_on "2023-12-31" "C"; undated; used_on "2023-12-15" "E" ].

(** A text between double quotes. *)
Definition quoted (s : string) : string :=
  String QUOTE (s +:+ String QUOTE "").

Definition field_text (name value : string) : string :=
  quoted name +:+ ": " +:+ value.

Definition blueprint_text : string :=
  "{" +:+ field_text "hook" (quoted "Compound interest is biology") +:+ "}".

Definition draft_text : string :=
  "{" +:+ field_text "topic" (quoted "Saving") +:+ ", "
  +:+ field_text "practice"
        ("[" +:+ quoted "Track spending" +:+ ", {"
         +:+ field_text "title" (quoted "Budget") +:+ ", "
         +:+ field_text "steps" (quoted "1. List income") +:+ "}]")
  +:+ ", "
  +:+ field_text "sources" ("[{" +:+ field_text "url" (quoted "https://example.org") +:+ "}]")
  +:+ "}".

Definition revised_text : string :=
  "{" +:+ field_text "topic" (quoted "Saving, revised") +:+ "}".

Definition critique_text (score : string) : string :=
  "{" +:+ field_text "critique" (quoted "too dry") +:+ ", "
  +:+ field_text "score" score +:+ "}".

(** A critique whose text is an object with a property [toString]. *)
Definition unreadable_critique : string :=
  "{" +:+ field_text "critique" ("{" +:+ field_text "toString" "1" +:+ "}")
  +:+ ", " +:+ field_text "score" "3" +:+ "}".

(** The same answer inside a fence, with and without the [json] tag. *)
Definition fenced (tag text : string) : string :=
  "```" +:+ tag +:+ String LF (text +:+ String LF "```").

(** An answer that wraps the fenced draft in prose. *)
Definition chatty_answer : string :=
  "Here is the lesson:" +:+ String LF (fenced "json" draft_text)
  +:+ String LF "Enjoy.".

Definition answers (score : string) : list (option string) :=
  [ Some blueprint_text; Some (fenced "json" draft_text);
    Some (critique_text score); Some revised_text ].

Definition draft_value : json :=
  JObj [ ("topic", JStr "Saving");
         ("practice",
          JArr [ JStr "Track spending";
                 JObj [("title", JStr "Budget"); ("steps", JStr "1. List income")] ]);
         ("sources", JArr [ JObj [("url", JStr "https://example.org")] ]) ].

Definition run_config (dry : bool) (keys : environment)
    (catalog : list level) : config :=
  {| dryRun := dry; env := keys; todayStr := "2024-01-05";
     topicsRaw := catalog |}.

(** [main] with the concrete built-ins and a scripted backend. *)
Definition run (script : list (option string)) (cfg : config) (w : world)
    : ending * world :=
  main iso_time code_compare parse_json simple_number (scripted script)
    numbered_uuid posix_join utf8_file cfg w.

(** ** The concrete built-ins *)

Lemma ascii_neq_codes (x y : ascii) :
  x ≠ y → nat_of_ascii x ≠ nat_of_ascii y.
Proof.
  intros Hxy Hcodes. apply Hxy.
  by rewrite <- (ascii_nat_embedding x), <- (ascii_nat_embedding y), Hcodes.
Qed.

Lemma code_compare_consistent : consistent code_compare.
Proof.
  split.
  - intros a. induction a as [|x a IH]; intros [|y b]; simpl; try lia.
    rewrite (Ascii.eqb_sym y x).
    destruct (Ascii.eqb_spec x y) as [->|Hxy]; [apply IH|].
    apply ascii_neq_codes in Hxy.
    destruct (Nat.ltb_spec (nat_of_ascii x) (nat_of_ascii y)),
             (Nat.ltb_spec (nat_of_ascii y) (nat_of_ascii x)); lia.
  - intros a. induction a as [|x a IH]; intros [|y b] [|z c]; simpl; try lia.
    destruct (Ascii.eqb_spec x y) as [->|Hxy].
    + destruct (Ascii.eqb_spec y z) as [->|Hyz]; [apply IH|].
      destruct (Nat.ltb_spec (nat_of_ascii y) (nat_of_ascii z)); lia.
    + apply ascii_neq_codes in Hxy.
      destruct (Nat.ltb_spec (nat_of_ascii x) (nat_of_ascii y)); [|lia].
      intros _. destruct (Ascii.eqb_spec y z) as [->|Hyz].
      * intros _. destruct (Ascii.eqb_spec x z) as [->|_]; [lia|].
        destruct (Nat.ltb_spec (nat_of_ascii x) (nat_of_ascii z)); lia.
      * apply ascii_neq_codes in Hyz.
        destruct (Nat.ltb_spec (nat_of_ascii y) (nat_of_ascii z)); [|lia].
        intros _. destruct (Ascii.eqb_spec x z) as [->|_]; [lia|].
        destruct (Nat.ltb_spec (nat_of_ascii x) (nat_of_ascii z)); lia.
Qed.

(** ** Topic flattening *)

Example flatten_sample :
  option_map (map (fun c => (cand_id c, cand_order c)))
    (match flattenTopics sample_catalog with Ok l => Some l | Throw _ => None end)
  = Some [("Saving", 1000%float); ("Spending", 1000%float);
          ("Compounding", 2101%float); ("Index funds", 2102%float)].
Proof. vm_compute. reflexivity. Qed.

Lemma flattenTopics_ordered_witness :
  ∃ items,
    flattenTopics sample_catalog = Ok items
    ∧ items ≡ₚ map candidate_of (nested_topics sample_catalog)
    ∧ map cand_order (map candidate_of (nested_topics sample_catalog))
      = [2102; 2101; 1000; 1000]%float
    ∧ StronglySorted
        (fun a b => (cand_order a <=? cand_order b)%float = true) items
    ∧ (∀ k, List.filter (fun c => (cand_order c =? k)%float) items
            = List.filter (fun c => (cand_order c =? k)%float)
                (map candidate_of (nested_topics sample_catalog)))
    ∧ level_number "Level 12, part 3" = 12%float
    ∧ level_number "Basics" = 0%float.
Proof.
  destruct (flattenTopics_ordered sample_catalog)
    as (Hnamed & _ & Hnumber & Hnone & _).
  destruct Hnamed as (items & Hflat & Hperm & Hkeys & Hordered).
  { repeat constructor; by eexists. }
  destruct Hordered as [Hsorted Hties].
  { repeat constructor. }
  exists items. split; [exact Hflat|]. split; [exact Hperm|].
  split; [exact Hkeys|]. split; [exact Hsorted|]. split; [exact Hties|].
  split.
  - apply (Hnumber "Level " "12" ", part 3"); [reflexivity|discriminate|
      reflexivity|reflexivity].
  - by apply Hnone.
Defined.

(** The order is computed in doubles: a level number past 2^53 is
    rounded, and two topics of one such level can tie. *)
Example level_number_rounds :
  level_number "Level 9007199254740993" = 9007199254740992%float
  ∧ (level_number "Level 9007199254740993" * 1000 + 0 * 100 + 2
     =? level_number "Level 9007199254740993" * 1000 + 0 * 100 + 1)%float
    = true.
Proof. vm_compute. split; reflexivity. Qed.

(** C9 as stated fails: a level that has a topic but no name is
    malformed input, and it makes the whole load throw instead of
    yielding a candidate of order 0.  And an order can be [NaN] (an
    infinite recommended order and an infinite topic order of opposite
    signs): the comparator then answers [NaN] against every other
    candidate, so that it puts neither of the first and the second nor
    of the second and the third candidate before the other, and yet the
    third before the first; with such a comparator the language does not
    promise a sorted result. *)
Lemma flattenTopics_malformed_input :
  (flattenTopics nameless_catalog = Throw TypeError
   ∧ ¬ ∃ items, flattenTopics nameless_catalog = Ok items)
  ∧ map cand_order (map candidate_of (nested_topics unordered_catalog))
    = [1002%float; PrimFloat.nan; 1001%float]
  ∧ (∀ a b c,
       map candidate_of (nested_topics unordered_catalog) = [a; b; c] →
       by_order a b = 0 ∧ by_order b a = 0
       ∧ by_order b c = 0 ∧ by_order c b = 0
       ∧ by_order a c = 1 ∧ by_order c a = -1).
Proof.
  split; [split; [reflexivity|by intros [items [=]]]|].
  split; [vm_compute; reflexivity|].
  intros a b c [= <- <- <-]. vm_compute. repeat split.
Qed.

(** ** Candidate selector *)

(** The specification's scenario: three candidates, an empty history,
    four runs. *)
Example selections_ABC :
  selections iso_time (fun c _ => entry_for (Some "2024-01-01") c)
    catalog_ABC 4 []
  = map Some (catalog_ABC ++ [candidate_named "A"]).
Proof. vm_compute. reflexivity. Qed.

Lemma sequential_coverage_witness :
  selections iso_time (fun c _ => entry_for (Some "2024-01-01") c)
    catalog_ABC (length catalog_ABC) []
  = map Some catalog_ABC.
Proof.
  apply (sequential_coverage iso_time
           (fun c _ => entry_for (Some "2024-01-01") c) catalog_ABC).
  - apply (bool_decide_unpack _). vm_compute. exact I.
  - repeat constructor; discriminate.
  - reflexivity.
Defined.

(** C1 as stated fails: ids that are distinct need not be non-empty, and
    a candidate whose id is empty is never recorded as used, so it is
    selected again and the next candidate is never reached. *)
Lemma empty_id_is_selected_again :
  NoDup (map cand_id [candidate_named ""; candidate_named "B"])
  ∧ selections iso_time (fun c _ => entry_for (Some "2024-01-01") c)
      [candidate_named ""; candidate_named "B"] 2 []
    = [Some (candidate_named ""); Some (candidate_named "")].
Proof.
  split; [|vm_compute; reflexivity].
  apply (bool_decide_unpack _). vm_compute. exact I.
Qed.

(** C2 does not hold of the code.  The map keeps for A the date of its
    oldest use (2024-01-01), not of its most recent one (2024-01-04):
    [forEach] walks the history from the newest entry on and each [set]
    overwrites the one before.  So the selector returns A, the candidate
    used most recently, where the candidate whose last use is oldest is
    B (2024-01-02). *)
Theorem recycling_keeps_oldest_date :
  summarizeHistory history_ACBA !! "A" = Some (Some "2024-01-01")
  ∧ summarizeHistory history_ACBA !! "B" = Some (Some "2024-01-02")
  ∧ summarizeHistory history_ACBA !! "C" = Some (Some "2024-01-03")
  ∧ pickCandidate iso_time catalog_ABC history_ACBA
    = Some (candidate_named "A").
Proof. vm_compute. repeat split. Qed.

(** ** History store *)

Example roll_overfull :
  let r := roll overfull 2 december_file in
  r.1 = [used_on "2024-01-02" "A"; used_on "2024-01-01" "B"]
  ∧ r.2 !! december_path
    = Some [used_on "2023-12-15" "E"; used_on "2023-12-20" "Z";
            used_on "2023-12-31" "C"]
  ∧ r.2 !! january_path = None.
Proof. vm_compute. repeat split. Qed.

Lemma roll_keeps_and_archives_witness :
  (length overfull ≤ 2 →
   (roll overfull 2 december_file).1 = overfull
   ∧ (roll overfull 2 december_file).2 = december_file)%nat
  ∧ (roll overfull 2 december_file).2 !! january_path
    = december_file !! january_path
  ∧ StronglySorted (not_after (by_date code_compare))
      (default [] ((roll overfull 2 december_file).2 !! december_path))
  ∧ default [] ((roll overfull 2 december_file).2 !! december_path)
    ≡ₚ [used_on "2023-12-20" "Z"; used_on "2023-12-31" "C";
        used_on "2023-12-15" "E"].
Proof.
  destruct (roll_keeps_and_archives code_compare posix_join utf8_file
              overfull 2 DAILY_ARCH december_file)
    as (_ & Hsmall & _ & Hperm & Huntouched & Hsorted & _).
  split; [exact Hsmall|]. split; [|split].
  - apply Huntouched. repeat constructor.
  - apply Hsorted; [apply code_compare_consistent|].
    apply Exists_cons_hd. reflexivity.
  - exact (Hperm december_path).
Defined.

(** C3 as stated fails: an evicted entry that has no date is skipped by
    the archival loop, so it is in no archive file (and no longer in the
    live list). *)
Lemma undated_entry_is_not_archived :
  roll [used_on "2024-01-02" "A"; undated] 1 ∅
  = ([used_on "2024-01-02" "A"], ∅).
Proof. reflexivity. Qed.

(** The year-month is the first seven characters of the date as
    JavaScript counts them, whatever they are, and the file is the one
    the joined path names.  So two entries whose dates begin differently
    can share a file, and a date need not name a month. *)
Example months_sharing_a_file :
  let r := roll [used_on "2024-01-02" "A"; used_on "x" "B";
                 used_on "./x" "C"] 1 ∅ in
  pickMonth (used_on "x" "B") = Some "x"
  ∧ pickMonth (used_on "./x" "C") = Some "./x"
  ∧ r.2 = {[ "data/ai/wealth/finance-daily-archive/x.json"
             := [used_on "./x" "C"; used_on "x" "B"] ]}.
Proof. vm_compute. repeat split. Qed.

(** The seven characters are UTF-16 code units: a character outside
    ASCII counts for one, whatever its bytes, and one outside the basic
    plane for two, so that the cut can fall inside it. *)
Example pickMonth_counts_code_units :
  pickMonth (used_on "2024年1月5日" "A") = Some "2024年1月"
  ∧ pickMonth (used_on "2024-0😀" "A")
    = Some ("2024-0" +:+ of_codes [237; 160; 189]%nat)
  ∧ archivePath posix_join utf8_file DAILY_ARCH
      ("2024-0" +:+ of_codes [237; 160; 189]%nat)
    = "data/ai/wealth/finance-daily-archive/2024-0"
      +:+ of_codes [239; 191; 189]%nat +:+ ".json".
Proof. vm_compute. repeat split. Qed.

(** ** Pipeline *)

Example draft_text_decodes :
  parseJSON parse_json (fenced "json" draft_text) = Ok draft_value.
Proof. vm_compute. reflexivity. Qed.

Example generate_with_score_8 :
  let run := generateLesson parse_json simple_number (scripted (answers "8"))
               with_key (candidate_named "A") [] (fresh_world []) in
  run.1 = Ok (JObj [("topic", JStr "Saving, revised")])
  ∧ length (requests run.2) = 4%nat.
Proof. vm_compute. split; reflexivity. Qed.

Example generate_with_score_9 :
  let run := generateLesson parse_json simple_number (scripted (answers "9"))
               with_key (candidate_named "A") [] (fresh_world []) in
  run.1 = Ok draft_value ∧ length (requests run.2) = 3%nat.
Proof. vm_compute. split; reflexivity. Qed.

Lemma revise_gating_witness :
  (generateLesson parse_json simple_number (scripted (answers "8"))
     with_key (candidate_named "A") [] (fresh_world [])).1
  = Ok (JObj [("topic", JStr "Saving, revised")])
  ∧ generateLesson parse_json simple_number (scripted (answers "9"))
      with_key (candidate_named "A") [] (fresh_world [])
    = (Ok draft_value,
       {| requests := [BlueprintPrompt (candidate_named "A");
                       DraftPrompt (candidate_named "A")
                         (JObj [("hook", JStr "Compound interest is biology")]);
                       CritiquePrompt draft_value];
          slept := []; daily := []; archive := ∅; drawn := O |}).
Proof.
  split.
  - edestruct (revise_gating parse_json simple_number (scripted (answers "8"))
                 with_key (candidate_named "A") [] (fresh_world []))
      as (_ & Hrevised & _).
    + vm_compute. reflexivity.
    + rewrite Hrevised; vm_compute; reflexivity.
  - edestruct (revise_gating parse_json simple_number (scripted (answers "9"))
                 with_key (candidate_named "A") [] (fresh_world []))
      as (_ & _ & Hkept & _).
    + vm_compute. reflexivity.
    + apply Hkept; [discriminate|reflexivity|vm_compute; reflexivity].
Defined.

(** C5 as stated fails: a score below 9 does not always bring the revise
    stage about.  The critique here has the score 3 and, for its text,
    an object with a property [toString]; building the revise prompt
    makes a text of it, which throws, so the run ends with [TypeError]
    after three requests and yields no content. *)
Lemma revise_is_not_reached :
  let run := generateLesson parse_json simple_number
               (scripted [ Some blueprint_text; Some draft_text;
                           Some unreadable_critique; Some revised_text ])
               with_key (candidate_named "A") [] (fresh_world []) in
  parse_json unreadable_critique
  = Some (JObj [("critique", JObj [("toString", JNum 1)]); ("score", JNum 3)])
  ∧ below_9 simple_number (Some (JNum 3)) = true
  ∧ run.1 = Throw TypeError
  ∧ requests run.2
    = [BlueprintPrompt (candidate_named "A");
       DraftPrompt (candidate_named "A")
         (JObj [("hook", JStr "Compound interest is biology")]);
       CritiquePrompt draft_value].
Proof. vm_compute. repeat split. Qed.

Example steps_are_cut :
  split_steps
    ("1. List income  " +:+ String LF (" - Track spending" +:+ String CR
     (String LF (String LF ("* " +:+ String LF
     ("   " +:+ of_codes [226; 128; 162]%nat +:+ " Set a goal"))))))
  = ["List income"; "Track spending"; "Set a goal"].
Proof. vm_compute. reflexivity. Qed.

Example practice_of_draft :
  rbind (get "practice" draft_value) normalizePractice
  = Ok [ {| p_title := JStr "Track spending"; p_steps := [] |};
         {| p_title := JStr "Budget"; p_steps := [JStr "List income"] |} ]
  ∧ rbind (get "sources" draft_value) normalizeSources
    = Ok [ {| s_title := JStr "Source";
              s_url := Some (JStr "https://example.org") |} ].
Proof. vm_compute. split; reflexivity. Qed.

Lemma practice_and_sources_normalized_witness :
  normalizePractice_item
    (JObj [("title", JStr "Budget"); ("steps", JStr "1. List income")])
  = Ok {| p_title := JStr "Budget"; p_steps := [JStr "List income"] |}
  ∧ normalizeSources
      (Some (JArr (repeat (JObj [("url", JStr "https://example.org")]) 7)))
    = Ok (repeat {| s_title := JStr "Source";
                    s_url := Some (JStr "https://example.org") |} 6).
Proof.
  destruct practice_and_sources_normalized
    as (_ & Hsteps & _ & _ & Hsources & _).
  split.
  - destruct (Hsteps [("title", JStr "Budget"); ("steps", JStr "1. List income")]
                "1. List income" eq_refl) as [Hitem _].
    exact Hitem.
  - destruct (Hsources (repeat (JObj [("url", JStr "https://example.org")]) 7))
      as [Hlist _]; [repeat constructor; discriminate|].
    exact Hlist.
Defined.

(** C6 as stated fails: it speaks of every raw draft, and a draft whose
    [sources] (or [practice]) list holds a [null] is not normalized at
    all: reading a property of [null] throws. *)
Lemma null_entry_is_not_normalized :
  normalizeSources (Some (JArr [JObj [("url", JStr "https://example.org")]; JNull]))
  = Throw TypeError
  ∧ normalizePractice (Some (JArr [JStr "Track spending"; JNull]))
    = Throw TypeError
  ∧ normalizePractice
      (Some (JArr [JStr "Track spending"; JObj [("steps", JBool true)]]))
    = Throw TypeError.
Proof. repeat split. Qed.

Lemma fenced_output_parsing_witness :
  parseJSON parse_json (fenced "json" draft_text) = Ok draft_value
  ∧ parseJSON parse_json chatty_answer = Ok draft_value.
Proof.
  destruct (fenced_output_parsing parse_json simple_number (scripted []))
    as (_ & Hfenced & _).
  split.
  - assert (fenced "json" draft_text
            = "" +:+ "```json" +:+ String LF (draft_text +:+ String LF "")
              +:+ "```" +:+ "") as -> by reflexivity.
    rewrite Hfenced.
    + vm_compute. reflexivity.
    + vm_compute. reflexivity.
    + intros before' rest' H.
      eapply (cut_at_first "```json"); [|exact H]; vm_compute; reflexivity.
    + intros inner' after' H.
      eapply (cut_at_first "```"); [|exact H]; vm_compute; reflexivity.
  - assert (chatty_answer
            = ("Here is the lesson:" +:+ String LF "")
              +:+ "```json" +:+ String LF (draft_text +:+ String LF "")
              +:+ "```" +:+ String LF "Enjoy.") as -> by reflexivity.
    rewrite Hfenced.
    + vm_compute. reflexivity.
    + vm_compute. reflexivity.
    + intros before' rest' H.
      eapply (cut_at_first "```json"); [|exact H]; vm_compute; reflexivity.
    + intros inner' after' H.
      eapply (cut_at_first "```"); [|exact H]; vm_compute; reflexivity.
Defined.

(** C7 as stated fails: a response wrapped in a fenced block that does
    not carry the [json] tag is not stripped.  The text inside the fence
    decodes, and yet the failure of the direct decoding is surfaced. *)
Lemma untagged_fence_is_not_stripped :
  parse_json (fenced "" draft_text) = None
  ∧ parse_json (String LF (draft_text +:+ String LF "")) = Some draft_value
  ∧ parseJSON parse_json (fenced "" draft_text) = Throw SyntaxError.
Proof. vm_compute. repeat split. Qed.

(** ** Orchestrator *)

(** A normal run on an empty history: four requests, the first candidate
    of the catalog, one entry written. *)
Example first_run :
  let r := run (answers "8") (run_config false with_key sample_catalog)
             (fresh_world []) in
  r.1 = Returned
  ∧ length (requests r.2) = 4%nat
  ∧ slept r.2 = []
  ∧ map e_date (daily r.2) = [Some "2024-01-05"]
  ∧ map (fun e => m_id <$> e_meta e) (daily r.2) = [Some "Saving"]
  ∧ map e_topic (daily r.2) = [JStr "Saving, revised"].
Proof. vm_compute. repeat split. Qed.

Lemma same_day_guard_witness :
  (run (answers "8") (run_config false with_key sample_catalog)
     (fresh_world [used_on "2024-01-05" "Saving"])).2
  = fresh_world [used_on "2024-01-05" "Saving"]
  ∧ exit_code
      (run (answers "8") (run_config false with_key sample_catalog)
         (fresh_world [used_on "2024-01-05" "Saving"])).1
    = Some 0.
Proof.
  apply (same_day_guard iso_time code_compare parse_json simple_number
           (scripted (answers "8")) numbered_uuid posix_join utf8_file
           (run_config false with_key sample_catalog)
           (fresh_world [used_on "2024-01-05" "Saving"])
           (used_on "2024-01-05" "Saving") []); reflexivity.
Defined.

(** C4 as stated fails: the catalog is flattened before the guard, so
    with a catalog whose flattening throws, a normal run on a history
    whose newest entry is dated today ends with exit code 1, not 0. *)
Lemma same_day_run_fails_on_bad_catalog :
  generated_today [used_on "2024-01-05" "Saving"] "2024-01-05" = true
  ∧ exit_code
      (run (answers "8") (run_config false with_key nameless_catalog)
         (fresh_world [used_on "2024-01-05" "Saving"])).1
    = Some 1.
Proof. split; reflexivity. Qed.

Lemma missing_credential_witness :
  (run (answers "8") (run_config true no_keys sample_catalog)
     (fresh_world [])).1 = Exited 1
  ∧ slept (run (answers "8") (run_config true no_keys sample_catalog)
             (fresh_world [])).2 = [].
Proof.
  destruct (missing_credential iso_time code_compare parse_json simple_number
              (scripted (answers "8")) numbered_uuid posix_join utf8_file
              (run_config true no_keys sample_catalog) (fresh_world []))
    as (_ & _ & _ & Hrun); [reflexivity|].
  edestruct Hrun as [Hend Hslept];
    [vm_compute; reflexivity|reflexivity|vm_compute; reflexivity|].
  split; [exact Hend|exact Hslept].
Defined.

(** C8 as stated fails: the missing credential is thrown inside the
    attempt and caught by the retry loop like any other failure, so a
    normal run makes all three attempts and takes both backoff delays
    before it exits with code 1. *)
Lemma missing_credential_is_retried :
  has_credential no_keys = false
  ∧ run (answers "8") (run_config false no_keys sample_catalog) (fresh_world [])
    = (Exited 1,
       {| requests := []; slept := [2000; 5000]; daily := [];
          archive := ∅; drawn := O |}).
Proof. split; vm_compute; reflexivity. Qed.

Lemma dry_run_disables_retries_witness :
  ((run [] (run_config true with_key sample_catalog) (fresh_world [])).1
   = Exited 1
   ∧ slept (run [] (run_config true with_key sample_catalog) (fresh_world [])).2
     = []
   ∧ length (requests
       (run [] (run_config true with_key sample_catalog) (fresh_world [])).2)
     = 1%nat)
  ∧ ((run [] (run_config false with_key sample_catalog) (fresh_world [])).1
     = Exited 1
     ∧ slept
         (run [] (run_config false with_key sample_catalog) (fresh_world [])).2
       = [2000; 5000]).
Proof.
  destruct (dry_run_disables_retries iso_time code_compare parse_json
              simple_number (scripted []) numbered_uuid posix_join utf8_file)
    as (_ & _ & _ & _ & Hdry & Hnormal).
  split.
  - edestruct (Hdry (run_config true with_key sample_catalog) (fresh_world []))
      as [Hmain Hslept];
      [reflexivity|vm_compute; reflexivity|vm_compute; reflexivity
      |vm_compute; reflexivity|].
    unfold run. rewrite Hmain. repeat split.
  - edestruct (Hnormal (run_config false with_key sample_catalog)
                 (fresh_world []))
      as [Hfail _];
      [reflexivity|vm_compute; reflexivity|reflexivity|vm_compute; reflexivity
      |vm_compute; reflexivity|vm_compute; reflexivity|].
    edestruct Hfail as [Hmain Hslept]; [vm_compute; reflexivity|].
    unfold run. rewrite Hmain. split; [reflexivity|exact Hslept].
Defined.

(** A normal run against a backend that always fails: three attempts,
    the delays 2000 and 5000 between them, exit code 1, nothing
    written. *)
Example normal_run_retries_twice :
  run [] (run_config false with_key sample_catalog) (fresh_world [])
  = (Exited 1,
     {| requests := repeat (BlueprintPrompt (pushed "Level 1"
                      {| c_category := "Budgeting"; c_difficulty := Some 1;
                         c_recommended_order := None;
                         c_topics := Some [topic_named "Saving" None;
                                           topic_named "Spending" None] |}
                      (topic_named "Saving" None))) 3;
        slept := [2000; 5000]; daily := []; archive := ∅; drawn := O |}).
Proof. vm_compute. reflexivity. Qed.

(** ** Further examples: the selector and the orchestrator *)

Lemma pickCandidate_recycles_witness :
  pickCandidate iso_time catalog_ABC history_ACBA
  = head (List.filter
            (least_in (fun a b => stored_or_zero iso_time history_ACBA a
                                  - stored_or_zero iso_time history_ACBA b)
               catalog_ABC)
            catalog_ABC).
Proof.
  apply (pickCandidate_recycles iso_time catalog_ABC history_ACBA);
    [discriminate|].
  repeat constructor; vm_compute; by eexists.
Defined.

(** The candidates of the sample catalog, flattened. *)
Definition sample_candidates : list candidate :=
  match flattenTopics sample_catalog with
  | Ok items => items
  | Throw _ => []
  end.

Lemma first_pick_least_order_witness :
  pickCandidate iso_time sample_candidates [] = head sample_candidates
  ∧ head sample_candidates
    = head (List.filter
              (least_in by_order (map candidate_of (nested_topics sample_catalog)))
              (map candidate_of (nested_topics sample_catalog))).
Proof.
  destruct (first_pick_least_order iso_time sample_catalog sample_candidates)
    as [Hpick Hhead]; [reflexivity|].
  split; [exact Hpick|]. apply Hhead. repeat constructor.
Defined.

Example first_pick_sample :
  cand_id <$> pickCandidate iso_time sample_candidates [] = Some "Saving".
Proof. reflexivity. Qed.

Lemma main_success_entry_witness :
  ∃ candidates c lesson,
    flattenTopics sample_catalog = Ok candidates
    ∧ pickCandidate iso_time candidates [] = Some c
    ∧ e_date lesson = Some "2024-01-05"
    ∧ e_meta lesson = Some (lesson_meta c)
    ∧ daily (run (answers "8") (run_config false with_key sample_catalog)
               (fresh_world [])).2
      = lesson :: take 59 []
    ∧ archive (run (answers "8") (run_config false with_key sample_catalog)
                 (fresh_world [])).2
      = (roll (lesson :: []) 60 ∅).2.
Proof.
  apply (main_success_entry iso_time code_compare parse_json simple_number
           (scripted (answers "8")) numbered_uuid posix_join utf8_file
           (run_config false with_key sample_catalog) (fresh_world []));
    [reflexivity|reflexivity|].
  vm_compute. reflexivity.
Defined.

Lemma main_rerun_same_day_witness :
  run (answers "8") (run_config false with_key sample_catalog)
    (run (answers "8") (run_config false with_key sample_catalog)
       (fresh_world [])).2
  = (Returned,
     (run (answers "8") (run_config false with_key sample_catalog)
        (fresh_world [])).2).
Proof.
  apply (main_rerun_same_day iso_time code_compare parse_json simple_number
           (scripted (answers "8")) numbered_uuid posix_join utf8_file
           (run_config false with_key sample_catalog) (fresh_world []));
    [reflexivity|].
  vm_compute. reflexivity.
Defined.

Definition november_path : string :=
  "data/ai/wealth/finance-daily-archive/2023-11.json".

(** A history of 60 entries, the oldest from November 2023. *)
Definition full_history : list entry :=
  replicate 59 (used_on "2024-01-04" "Saving")
  ++ [used_on "2023-11-30" "Spending"].

Lemma dry_run_archives_witness :
  daily (run (answers "9") (run_config true with_key sample_catalog)
           (fresh_world full_history)).2
  = full_history
  ∧ archive (run (answers "9") (run_config true with_key sample_catalog)
               (fresh_world full_history)).2 !! november_path
    = Some (js_sort (by_date code_compare)
              (default [] ((∅ : gmap string (list entry)) !! november_path)
               ++ [used_on "2023-11-30" "Spending"])).
Proof.
  destruct (dry_run_archives iso_time code_compare parse_json simple_number
              (scripted (answers "9")) numbered_uuid posix_join utf8_file
              (run_config true with_key sample_catalog)
              (fresh_world full_history) eq_refl)
    as (Hdaily & _ & Harchive).
  split; [exact Hdaily|].
  apply Harchive; vm_compute; reflexivity.
Defined.

(** The same run, evaluated: the history file is as before, and the
    archive has a file it did not have. *)
Example dry_run_writes_archive :
  let r := run (answers "9") (run_config true with_key sample_catalog)
             (fresh_world full_history) in
  r.1 = Returned
  ∧ daily r.2 = full_history
  ∧ archive (fresh_world full_history) !! november_path = None
  ∧ archive r.2 !! november_path = Some [used_on "2023-11-30" "Spending"].
Proof. vm_compute. repeat split. Qed.

Lemma empty_catalog_exits_witness :
  flattenTopics [] = Ok []
  ∧ run (answers "8") (run_config false with_key []) (fresh_world [])
    = (Exited 1, fresh_world []).
Proof.
  apply (empty_catalog_exits iso_time code_compare parse_json simple_number
           (scripted (answers "8")) numbered_uuid posix_join utf8_file
           (run_config false with_key []) (fresh_world [])).
  reflexivity.
Defined.

(** ** Further examples: the helpers *)

Example uniqueBy_sample :
  uniqueBy [("a", 1); ("b", 2); ("a", 3); ("c", 4); ("b", 5)] fst
  = [("a", 1); ("b", 2); ("c", 4)].
Proof. vm_compute. reflexivity. Qed.

Example i18nPick_sample :
  i18nPick (JObj [("zh", JStr "  "); ("en", JStr " Saving "); ("es", JStr "Ahorro")])
    default_order
  = "Saving"
  ∧ i18nPick (JArr [JStr "first"]) ["zh"; "0"] = "first"
  ∧ i18nPick (JStr "Saving") default_order = "".
Proof. vm_compute. repeat split. Qed.

Example slugify_sample :
  slugify "  Compound  Interest -- 101!  " = "compound-interest-101"
  ∧ slugify " - a - " = "-a-"
  ∧ slugify ("A" +:+ of_codes [226; 128; 131]%nat +:+ "b"
             +:+ of_codes [195; 169]%nat +:+ "c"
             +:+ of_codes [226; 132; 170; 196; 176]%nat)
    = "a-bcki".
Proof. vm_compute. repeat split. Qed.

Example fallbackCandidate_sample :
  cand_id <$> fallbackCandidate
                [candidate_named "abc"; candidate_named "了解风险";
                 candidate_named "家庭预算入门"; candidate_named "预算"]
  = Some "家庭预算入门".
Proof. vm_compute. reflexivity. Qed.

(** A file with a comment, an assignment with blanks and a trailing
    comment, a quoted value, a second assignment of a name, a line that
    is no assignment, and an empty value. *)
Definition sample_env : string :=
  "# keys" +:+ String LF
  ("LLM_API_KEY = sk-1  # primary" +:+ String CR (String LF
  ("  NAME='a b'" +:+ String LF
  ("LLM_API_KEY=other" +:+ String LF
  ("export X=1" +:+ String LF
  "EMPTY="))))).

Example assignments_sample :
  assignments sample_env
  = [("LLM_API_KEY", "sk-1"); ("NAME", "a b"); ("LLM_API_KEY", "other");
     ("EMPTY", "")].
Proof. vm_compute. reflexivity. Qed.

Example loadDotEnv_sample :
  let vars := loadDotEnv (Some sample_env) {[ "NAME" := "x" ]} in
  vars !! "NAME" = Some "x"
  ∧ vars !! "LLM_API_KEY" = Some "sk-1"
  ∧ vars !! "EMPTY" = Some ""
  ∧ vars !! "X" = None
  ∧ vars !! ENV_LOADED = Some "true".
Proof. vm_compute. repeat split. Qed.

Lemma loadDotEnv_first_assignment_witness :
  loadDotEnv (Some sample_env) {[ "NAME" := "x" ]} !! "LLM_API_KEY"
  = snd <$> List.find (fun kv => String.eqb (fst kv) "LLM_API_KEY")
              (assignments sample_env).
Proof.
  apply (loadDotEnv_first_assignment sample_env {[ "NAME" := "x" ]}
           "LLM_API_KEY").
  - vm_compute. discriminate.
  - vm_compute. reflexivity.
  - discriminate.
  - apply (bool_decide_unpack _). vm_compute. exact I.
Defined.

Lemma env_entry_assignment_witness :
  env_entry ("  " +:+ "LLM_API_KEY" +:+ " " +:+ "=" +:+ " " +:+ "sk-1" +:+ "  ")
  = Some ("LLM_API_KEY", "sk-1").
Proof.
  apply (env_entry_assignment "LLM_API_KEY" "sk-1" "  " " " " " "  ");
    reflexivity.
Defined.

(** ** Further examples: the search proxy *)

Definition sample_response : json :=
  JObj
    [ ("web",
       JObj
         [ ("results",
            JArr
              [ JObj [ ("title", JStr "A"); ("url", JStr "https://a.example");
                       ("description", JStr (" two" +:+ String LF "  lines ")) ];
                JObj [ ("title", JStr "no url") ];
                JObj [ ("url", JStr "ftp://b.example") ];
                JNull;
                JObj [ ("url", JStr "HTTP://c.example") ];
                JObj [ ("url", JStr "https://d.example") ] ]);
           ("total", JNum 6%float) ]) ].

(** [String(n)] as far as the examples go: they convert no number. *)
Definition no_number_text (_ : float) : string := "0".

Definition sample_normalized : normalized :=
  match normalizeBraveResults simple_number no_number_text sample_response
          (Some (JNum 2%float)) with
  | Ok out => out
  | Throw _ => {| n_results := []; n_total := JNull; n_took := JNull |}
  end.

Example normalizeBraveResults_sample :
  map r_url (n_results sample_normalized)
  = [JStr "https://a.example"; JStr "HTTP://c.example"]
  ∧ map r_snippet (n_results sample_normalized) = ["two lines"; ""]
  ∧ n_total sample_normalized = JNum 6%float.
Proof. vm_compute. repeat split. Qed.

Lemma normalizeBraveResults_bounded_witness :
  (length (n_results sample_normalized) ≤ 10)%nat
  ∧ Forall (url_accepted no_number_text) (n_results sample_normalized)
  ∧ map r_url (n_results sample_normalized)
    `sublist_of` omap (truthy_at "url") (webResults sample_response).
Proof.
  apply (normalizeBraveResults_bounded simple_number no_number_text
           sample_response (Some (JNum 2%float)) sample_normalized).
  vm_compute. reflexivity.
Defined.

Lemma cleanSnippet_single_spaced_witness :
  trim "two lines" = "two lines"
  ∧ single_spaced "two lines"
  ∧ has_lf "two lines" = false
  ∧ (truthy (JStr (" two" +:+ String LF "  lines ")) = false → "two lines" = "").
Proof.
  apply (cleanSnippet_single_spaced no_number_text
           (JStr (" two" +:+ String LF "  lines ")) "two lines").
  vm_compute. reflexivity.
Defined.

Example clampNumber_sample :
  clampNumber simple_number (Some (JNum 25%float)) 1 10 6 = 10%float
  ∧ clampNumber simple_number None 1 10 6 = 6%float
  ∧ clampNumber simple_number (Some (JNum 2.5%float)) 1 10 6 = 2.5%float
  ∧ clampNumber simple_number (Some (JBool true)) 3 10 6 = 3%float.
Proof. vm_compute. repeat split. Qed.
